(** * Tetris: the game state machine and its grid and figure engine

    A shallow embedding of [brick_game/tetris/backend.c] and
    [brick_game/tetris/fsm.c], with the properties of the specification
    stated and settled against it.

    Conventions of the embedding.
    - The C program keeps its state in function-local statics reached through
      [updateCurrentState], [updateFigure], [updateFigurePosition] and
      [updateTetrisState]; here they are the fields of one record, [Tetris],
      that every operation takes and returns.
    - A C [int] is a [Z].  Arithmetic on the [int]s of the state goes through
      [int_add], [int_sub], ... which reduce the exact result to 32 bits in
      two's complement.  Signed overflow is undefined in C; where a property
      depends on it, its statement says in which range the operands lie.
    - [int **] matrices are lists of rows; [m[i][j]] is [cell m i j].
    - The record file is the list of its characters; [fscanf] and [fprintf]
      with ["%d"] read and write decimal text in it.
    - The rendering functions of the front end only read the state, so they
      do not appear. *)

From Stdlib Require Import ZArith Bool List Lia Ascii.
From stdpp Require Import base tactics option list.

Local Open Scope Z_scope.

(** ** Machine integers *)

Definition INT_MIN : Z := -2147483648.
Definition INT_MAX : Z := 2147483647.

(** The 32 bit two's complement representative of [z]. *)
Definition wrap (z : Z) : Z := (z + 2147483648) mod 4294967296 - 2147483648.

Definition in_range (z : Z) : Prop := INT_MIN <= z <= INT_MAX.

Definition int_add (a b : Z) : Z := wrap (a + b).
Definition int_sub (a b : Z) : Z := wrap (a - b).
Definition int_mul (a b : Z) : Z := wrap (a * b).
(** C division and remainder truncate towards zero. *)
Definition int_div (a b : Z) : Z := wrap (Z.quot a b).
Definition int_rem (a b : Z) : Z := wrap (Z.rem a b).

(** ** Loops

    The three shapes of [for] loop of the sources. *)

(** [for (i = i0; i < i0 + n; i++) st = body i st] *)
Fixpoint for_up {St : Type} (body : nat -> St -> St) (i0 n : nat) (st : St) : St :=
  match n with
  | O => st
  | S n' => for_up body (S i0) n' (body i0 st)
  end.

(** [for (i = i0; cond st && i < i0 + n; i++) st = body i st]: the loops that
    carry a flag in their condition and stop as soon as it changes. *)
Fixpoint for_while {St : Type} (cond : St -> bool) (body : nat -> St -> St)
    (i0 n : nat) (st : St) : St :=
  match n with
  | O => st
  | S n' => if cond st then for_while cond body (S i0) n' (body i0 st) else st
  end.

(** [for (i = top; i >= 0; i--) st = body i st] *)
Fixpoint for_down {St : Type} (body : nat -> St -> St) (top : nat) (st : St) : St :=
  match top with
  | O => body O st
  | S i' => for_down body i' (body top st)
  end.

(** ** Constants of [defines.h] *)

Definition MAX_LEVEL : Z := 10.
Definition INITIAL_TIMEOUT : Z := 500.
Definition SPEED_DECREMENT : Z := 30.
Definition NUMBER_OF_FIGURES : nat := 7.
Definition SIDE_OF_FIGURE_SQUARE : nat := 4.
Definition ROWS_MAP : nat := 20.
Definition COLS_MAP : nat := 10.
Definition FIGURESTART_X : Z :=
  Z.quot (Z.of_nat COLS_MAP - Z.of_nat SIDE_OF_FIGURE_SQUARE) 2.
Definition FIGURESTART_Y : Z := 0.
Definition NO_ERROR : Z := 0.
Definition ERROR : Z := 1.

(** ** Matrices *)

Abbreviation Matrix := (list (list Z)) (only parsing).

(** [m[i][j]], for indices inside the matrix. *)
Definition cell (m : Matrix) (i j : nat) : Z :=
  match m !! i with
  | Some row => default 0 (row !! j)
  | None => 0
  end.

(** [m[i][j] = v].  Outside the matrix the C assignment is undefined; the
    model leaves the matrix as it is there. *)
Definition set_cell (m : Matrix) (i j : nat) (v : Z) : Matrix :=
  alter (fun row => <[j := v]> row) i m.

(** The matrix of [rows] x [cols] cells whose cell [(i, j)] is [f i j]. *)
Definition tabulate (rows cols : nat) (f : nat -> nat -> Z) : Matrix :=
  (fun i => (fun j => f i j) <$> seq 0 cols) <$> seq 0 rows.

Definition dims (rows cols : nat) (m : Matrix) : Prop :=
  length m = rows /\ Forall (fun row => length row = cols) m.

Definition binary (m : Matrix) : Prop :=
  Forall (Forall (fun c => c = 0 \/ c = 1)) m.

(** A figure is a 4x4 matrix, the field a 20x10 one, both of cells 0 or 1. *)
Definition figure_dims : Matrix -> Prop :=
  dims SIDE_OF_FIGURE_SQUARE SIDE_OF_FIGURE_SQUARE.
Definition field_dims : Matrix -> Prop := dims ROWS_MAP COLS_MAP.
Definition figure_ok (m : Matrix) : Prop := figure_dims m /\ binary m.
Definition field_ok (m : Matrix) : Prop := field_dims m /\ binary m.

Definition zero_row : list Z := replicate COLS_MAP 0.

(** ** Data model ([backend.h], [fsm.h]) *)

(** [FigurePos_t]; [pos_x] and [pos_y] are the fields [x] and [y]. *)
Record FigurePos_t : Type := {
  pos_x : Z;
  pos_y : Z
}.

Record GameInfo_t : Type := {
  field : Matrix;
  next : Matrix;
  score : Z;
  high_score : Z;
  level : Z;
  speed : Z;
  pause : Z
}.

Inductive TetrisState_t : Type :=
| START | SPAWN | MOVING | SHIFTING | ATTACHING | GAMEOVER | EXIT_ERROR.

Inductive UserAction_t : Type :=
| Start | Pause | Terminate | Left | Right | Up | Down | Action | No_signal.

(** The file [HIGH_SCORE_FILE] as the program meets it through [fopen],
    [fscanf] and [fprintf].  [note_text] is [None] when there is no file and
    [Some txt] when there is one, holding the characters [txt].  [update_ok]
    tells whether [fopen(.., "r+")] succeeds on the file when it is there,
    and [write_ok] whether [fopen(.., "w")] succeeds. *)
Record RecordNote : Type := {
  note_text : option (list ascii);
  update_ok : bool;
  write_ok : bool
}.

(** The statics of the program, with the record file they are saved to. *)
Record Tetris : Type := {
  game : GameInfo_t;          (* updateCurrentState *)
  figure : Matrix;            (* updateFigure *)
  fig_pos : FigurePos_t;      (* updateFigurePosition *)
  state : TetrisState_t;      (* updateTetrisState *)
  record_note : RecordNote    (* HIGH_SCORE_FILE *)
}.

Definition TetrisState_eqb (a b : TetrisState_t) : bool :=
  match a, b with
  | START, START | SPAWN, SPAWN | MOVING, MOVING | SHIFTING, SHIFTING
  | ATTACHING, ATTACHING | GAMEOVER, GAMEOVER | EXIT_ERROR, EXIT_ERROR => true
  | _, _ => false
  end.

(** Field updates. *)

Definition with_x (v : Z) (p : FigurePos_t) : FigurePos_t :=
  {| pos_x := v; pos_y := pos_y p |}.
Definition with_y (v : Z) (p : FigurePos_t) : FigurePos_t :=
  {| pos_x := pos_x p; pos_y := v |}.

Definition with_field (f : Matrix) (g : GameInfo_t) : GameInfo_t :=
  {| field := f; next := next g; score := score g; high_score := high_score g;
     level := level g; speed := speed g; pause := pause g |}.
Definition with_next (n : Matrix) (g : GameInfo_t) : GameInfo_t :=
  {| field := field g; next := n; score := score g; high_score := high_score g;
     level := level g; speed := speed g; pause := pause g |}.
Definition with_score (s : Z) (g : GameInfo_t) : GameInfo_t :=
  {| field := field g; next := next g; score := s; high_score := high_score g;
     level := level g; speed := speed g; pause := pause g |}.
Definition with_high_score (h : Z) (g : GameInfo_t) : GameInfo_t :=
  {| field := field g; next := next g; score := score g; high_score := h;
     level := level g; speed := speed g; pause := pause g |}.
Definition with_level (l : Z) (g : GameInfo_t) : GameInfo_t :=
  {| field := field g; next := next g; score := score g; high_score := high_score g;
     level := l; speed := speed g; pause := pause g |}.
Definition with_speed (v : Z) (g : GameInfo_t) : GameInfo_t :=
  {| field := field g; next := next g; score := score g; high_score := high_score g;
     level := level g; speed := v; pause := pause g |}.

Definition with_game (g : GameInfo_t) (t : Tetris) : Tetris :=
  {| game := g; figure := figure t; fig_pos := fig_pos t; state := state t;
     record_note := record_note t |}.
Definition with_figure (m : Matrix) (t : Tetris) : Tetris :=
  {| game := game t; figure := m; fig_pos := fig_pos t; state := state t;
     record_note := record_note t |}.
Definition with_fig_pos (p : FigurePos_t) (t : Tetris) : Tetris :=
  {| game := game t; figure := figure t; fig_pos := p; state := state t;
     record_note := record_note t |}.
Definition with_state (s : TetrisState_t) (t : Tetris) : Tetris :=
  {| game := game t; figure := figure t; fig_pos := fig_pos t; state := s;
     record_note := record_note t |}.
Definition with_record_note (r : RecordNote) (t : Tetris) : Tetris :=
  {| game := game t; figure := figure t; fig_pos := fig_pos t; state := state t;
     record_note := r |}.

(** [fig_pos->y++] and its companions. *)
Definition incr_y (t : Tetris) : Tetris :=
  with_fig_pos (with_y (int_add (pos_y (fig_pos t)) 1) (fig_pos t)) t.
Definition decr_y (t : Tetris) : Tetris :=
  with_fig_pos (with_y (int_sub (pos_y (fig_pos t)) 1) (fig_pos t)) t.
Definition incr_x (t : Tetris) : Tetris :=
  with_fig_pos (with_x (int_add (pos_x (fig_pos t)) 1) (fig_pos t)) t.
Definition decr_x (t : Tetris) : Tetris :=
  with_fig_pos (with_x (int_sub (pos_x (fig_pos t)) 1) (fig_pos t)) t.

(** [field[y][x]] and [field[y][x] = v] for [int] indices.  A negative index
    is outside the array as much as one that is too large. *)
Definition load (m : Matrix) (y x : Z) : Z :=
  if (0 <=? y) && (0 <=? x) then cell m (Z.to_nat y) (Z.to_nat x) else 0.
Definition store (m : Matrix) (y x : Z) (v : Z) : Matrix :=
  if (0 <=? y) && (0 <=? x) then set_cell m (Z.to_nat y) (Z.to_nat x) v else m.

(** ** The grid and figure engine ([backend.c]) *)

(** [assign_next_figure] draws from [rand()]; the drawn number is an argument
    of the model. *)

Definition all_figures : list Matrix :=
  [ [[0; 0; 0; 0]; [1; 1; 1; 1]; [0; 0; 0; 0]; [0; 0; 0; 0]];
    [[0; 0; 0; 0]; [0; 1; 1; 0]; [0; 1; 1; 0]; [0; 0; 0; 0]];
    [[0; 0; 0; 0]; [1; 0; 0; 0]; [1; 1; 1; 0]; [0; 0; 0; 0]];
    [[0; 0; 0; 0]; [0; 0; 1; 0]; [1; 1; 1; 0]; [0; 0; 0; 0]];
    [[0; 0; 0; 0]; [1; 1; 0; 0]; [0; 1; 1; 0]; [0; 0; 0; 0]];
    [[0; 0; 0; 0]; [0; 1; 1; 0]; [1; 1; 0; 0]; [0; 0; 0; 0]];
    [[0; 0; 0; 0]; [0; 1; 0; 0]; [1; 1; 1; 0]; [0; 0; 0; 0]] ].

(** [figures_choice(figure, n)]: the new contents of [figure]. *)
Definition figures_choice (n : nat) : Matrix :=
  tabulate SIDE_OF_FIGURE_SQUARE SIDE_OF_FIGURE_SQUARE
    (fun i j => cell (nth n all_figures []) i j).

(** [rotate_figure]: fill [tmp_figure], then copy it back. *)
Definition rotate_figure (fig : Matrix) : Matrix :=
  let tmp_figure :=
    tabulate SIDE_OF_FIGURE_SQUARE SIDE_OF_FIGURE_SQUARE
      (fun i j => cell fig j (SIDE_OF_FIGURE_SQUARE - i - 1)) in
  tabulate SIDE_OF_FIGURE_SQUARE SIDE_OF_FIGURE_SQUARE
    (fun i j => cell tmp_figure i j).

Definition assign_next_figure (random : Z) (t : Tetris) : Tetris :=
  let rotation_n := int_rem random 4 in
  let fig_number := int_rem random (Z.of_nat NUMBER_OF_FIGURES) in
  let chosen := figures_choice (Z.to_nat fig_number) in
  let rotated := for_up (fun _ m => rotate_figure m) 0 (Z.to_nat rotation_n) chosen in
  with_game (with_next rotated (game t)) t.

Definition copy_next_figure_to_figure (t : Tetris) : Tetris :=
  with_figure
    (tabulate SIDE_OF_FIGURE_SQUARE SIDE_OF_FIGURE_SQUARE
       (fun i j => cell (next (game t)) i j)) t.

(** The text of the record file. *)

(** Characters, by their code. *)
Definition code (c : ascii) : Z := Z.of_N (N_of_ascii c).
Definition digit_char (d : Z) : ascii := ascii_of_N (Z.to_N (48 + d)).
Definition is_digit (c : ascii) : bool := (48 <=? code c) && (code c <=? 57).
(** [isspace]: the space and the characters of codes 9 to 13. *)
Definition is_space (c : ascii) : bool :=
  (code c =? 32) || ((9 <=? code c) && (code c <=? 13)).

(** The conversion ["%d"] of [fscanf]: white space is skipped, then comes an
    optional sign and the longest run of decimal digits, at least one;
    without a digit there nothing is converted.  [scan_int] gives the number
    that the text denotes. *)
Fixpoint skip_space (txt : list ascii) : list ascii :=
  match txt with
  | c :: rest => if is_space c then skip_space rest else txt
  | [] => []
  end.

Fixpoint scan_digits (acc : Z) (txt : list ascii) : Z :=
  match txt with
  | c :: rest =>
      if is_digit c then scan_digits (acc * 10 + (code c - 48)) rest else acc
  | [] => acc
  end.

Definition scan_number (txt : list ascii) : option Z :=
  match txt with
  | c :: _ => if is_digit c then Some (scan_digits 0 txt) else None
  | [] => None
  end.

Definition scan_int (txt : list ascii) : option Z :=
  match skip_space txt with
  | c :: rest =>
      if code c =? 45 then Z.opp <$> scan_number rest
      else if code c =? 43 then scan_number rest
      else scan_number (c :: rest)
  | [] => None
  end.

(** The conversion ["%d"] of [fprintf] for an [int]: a minus sign for a
    negative number, then its decimal digits, ten at most. *)
Fixpoint digits_of (fuel : nat) (n : Z) : list ascii :=
  match fuel with
  | O => []
  | S fuel' =>
      if n <? 10 then [digit_char n]
      else digits_of fuel' (n / 10) ++ [digit_char (n mod 10)]
  end.

Definition print_int (z : Z) : list ascii :=
  if z <? 0 then "-"%char :: digits_of 10 (- z) else digits_of 10 z.

(** Writing [new] at the start of a file that holds [old]: the characters of
    [old] after the length of [new] stay. *)
Definition overwrite (new old : list ascii) : list ascii :=
  new ++ drop (length new) old.

(** The calls of the C library on the record file. *)

(** [fopen(HIGH_SCORE_FILE, "r+")]: the file must be there; the text it
    holds. *)
Definition fopen_update (r : RecordNote) : option (list ascii) :=
  match note_text r with
  | Some txt => if update_ok r then Some txt else None
  | None => None
  end.

(** [fopen(HIGH_SCORE_FILE, "w")]: whether the file can be created or
    emptied for writing. *)
Definition fopen_write (r : RecordNote) : bool := write_ok r.

(** [fscanf(.., "%d", &game->high_score)] on the text of the file: nothing
    is assigned when no integer is converted (the result of [fscanf] is not
    looked at).  The number converted is stored in an [int]; for one that
    does not fit the result is undefined in C, and reduced to 32 bits here,
    as the arithmetic is: the properties that look at it say that the number
    fits. *)
Definition fscanf_high_score (txt : list ascii) (g : GameInfo_t) : GameInfo_t :=
  match scan_int txt with
  | Some n => with_high_score (wrap n) g
  | None => g
  end.

(** [fprintf(.., "%d", v)] at the start of a file that holds [old]: after
    [rewind] on the file opened with "r+", [old] is the text that was read;
    on the file opened with "w", which [fopen] has emptied, [old] is
    empty. *)
Definition fprintf_note (v : Z) (old : list ascii) (r : RecordNote) : RecordNote :=
  {| note_text := Some (overwrite (print_int v) old);
     update_ok := update_ok r; write_ok := write_ok r |}.

(** [high_score_update]: the error code and the state it leaves. *)
Definition high_score_update (t : Tetris) : Z * Tetris :=
  let g := game t in
  if (high_score g =? 0) || (score g >? high_score g) then
    match fopen_update (record_note t) with
    | Some txt =>
        let g1 := fscanf_high_score txt g in
        if score g1 >? high_score g1 then
          (NO_ERROR,
           with_game (with_high_score (score g1) g1)
             (with_record_note (fprintf_note (score g1) txt (record_note t)) t))
        else (NO_ERROR, with_game g1 t)
    | None =>
        if fopen_write (record_note t) then
          (NO_ERROR,
           with_record_note (fprintf_note (score g) [] (record_note t)) t)
        else (ERROR, t)
    end
  else (NO_ERROR, t).

(** [init_figure_position].  Each loop carries [sum] and the position. *)
Definition init_figure_position (t : Tetris) : Tetris :=
  let fig := figure t in
  let p0 := {| pos_x := FIGURESTART_X; pos_y := FIGURESTART_Y |} in
  let sum_is_zero := fun (st : Z * FigurePos_t) => fst st =? 0 in
  let st1 :=
    for_while sum_is_zero
      (fun i st =>
         let sum :=
           for_while (fun sum => sum =? 0)
             (fun j sum => int_add sum (cell fig i j))
             0 SIDE_OF_FIGURE_SQUARE (fst st) in
         (sum, if sum =? 0 then with_y (int_sub (pos_y (snd st)) 1) (snd st)
               else snd st))
      0 SIDE_OF_FIGURE_SQUARE (0, p0) in
  let st2 :=
    for_while sum_is_zero
      (fun i st =>
         let sum :=
           for_while (fun sum => sum =? 0)
             (fun j sum => int_add sum (cell fig j i))
             0 SIDE_OF_FIGURE_SQUARE (fst st) in
         (sum, if sum =? 0 then with_x (int_sub (pos_x (snd st)) 1) (snd st)
               else snd st))
      0 SIDE_OF_FIGURE_SQUARE (0, snd st1) in
  with_fig_pos (snd st2) t.

(** [check_finished_row]: 1 when the first [COLS_MAP] cells of the row are
    all 1, else 0. *)
Definition check_finished_row (row : list Z) : Z :=
  for_while (fun finished_row => finished_row =? 1)
    (fun j finished_row =>
       if negb (default 0 (row !! j) =? 1) then 0 else finished_row)
    0 COLS_MAP 1.

(** [shift_rows_down(row)], on the field. *)
Definition shift_rows_down (row : nat) (f : Matrix) : Matrix :=
  for_down
    (fun i f =>
       for_up
         (fun j f =>
            set_cell f i j (if (0 <? i)%nat then cell f (i - 1) j else 0))
         0 COLS_MAP f)
    row f.

(** The loop of [destruction_of_rows] on the pair of [n_rows] and the field;
    [n_rows] counts rows of the field, 20 at most. *)
Definition destruction_loop (f : Matrix) : Z * Matrix :=
  for_up
    (fun i st =>
       if negb (check_finished_row (default [] (snd st !! i)) =? 0)
       then (fst st + 1, shift_rows_down i (snd st))
       else st)
    0 ROWS_MAP (0, f).

(** [destruction_of_rows]: the number of rows and the state it leaves. *)
Definition destruction_of_rows (t : Tetris) : Z * Tetris :=
  let r := destruction_loop (field (game t)) in
  (fst r, with_game (with_field (snd r) (game t)) t).

(** The test of one cell of the figure in [check_collide]. *)
Definition collide_at (t : Tetris) (i j : nat) : bool :=
  if cell (figure t) i j =? 1 then
    let y := int_add (pos_y (fig_pos t)) (Z.of_nat i) in
    let x := int_add (pos_x (fig_pos t)) (Z.of_nat j) in
    (x <? 0) || (y <? 0) || (x >=? Z.of_nat COLS_MAP) || (y >=? Z.of_nat ROWS_MAP)
    || (load (field (game t)) y x =? 1)
  else false.

Definition check_collide (t : Tetris) : bool :=
  for_while negb
    (fun i rc =>
       for_while negb
         (fun j rc => if collide_at t i j then true else rc)
         0 SIDE_OF_FIGURE_SQUARE rc)
    0 SIDE_OF_FIGURE_SQUARE false.

Definition recalculate_stats (n_rows : Z) (t : Tetris) : Tetris :=
  if n_rows =? 0 then t
  else
    let g := game t in
    let g := if n_rows =? 1 then with_score (int_add (score g) 100) g else g in
    let g := if n_rows =? 2 then with_score (int_add (score g) 300) g else g in
    let g := if n_rows =? 3 then with_score (int_add (score g) 700) g else g in
    let g := if n_rows =? 4 then with_score (int_add (score g) 1500) g else g in
    let g := with_level (int_add 1 (int_div (score g) 600)) g in
    let g :=
      with_speed
        (int_sub INITIAL_TIMEOUT (int_mul (int_sub (level g) 1) SPEED_DECREMENT)) g in
    with_game g t.

(** [attach_figure_to_field]. *)
Definition attach_figure_to_field (t : Tetris) : Tetris :=
  let fig := figure t in
  let new_field :=
    for_up
      (fun i f =>
         for_up
           (fun j f =>
              let y := int_add (pos_y (fig_pos t)) (Z.of_nat i) in
              let x := int_add (pos_x (fig_pos t)) (Z.of_nat j) in
              if negb (cell fig i j =? 0) then store f y x 1 else f)
           0 SIDE_OF_FIGURE_SQUARE f)
      0 SIDE_OF_FIGURE_SQUARE (field (game t)) in
  with_game (with_field new_field (game t)) t.

(** The cells [attach_figure_to_field] assigns, as (row, column), in the order
    of the assignments. *)
Definition attach_writes (t : Tetris) : list (Z * Z) :=
  for_up
    (fun i ws =>
       for_up
         (fun j ws =>
            let y := int_add (pos_y (fig_pos t)) (Z.of_nat i) in
            let x := int_add (pos_x (fig_pos t)) (Z.of_nat j) in
            if negb (cell (figure t) i j =? 0) then ws ++ [(y, x)] else ws)
         0 SIDE_OF_FIGURE_SQUARE ws)
    0 SIDE_OF_FIGURE_SQUARE [].

(** ** The state machine ([fsm.c]) *)

Definition on_start_state (random : Z) (signal : UserAction_t) (t : Tetris) : Tetris :=
  match signal with
  | Start => with_state SPAWN (assign_next_figure random t)
  | Terminate => with_state GAMEOVER t
  | _ => with_state START t
  end.

Definition on_spawn_state (random : Z) (t : Tetris) : Tetris :=
  let r := high_score_update t in
  if fst r =? NO_ERROR then
    let t := copy_next_figure_to_figure (snd r) in
    let t := assign_next_figure random t in
    let t := init_figure_position t in
    with_state (if check_collide t then GAMEOVER else MOVING) t
  else with_state EXIT_ERROR (snd r).

Definition moveup (t : Tetris) : Tetris := t.

(** The loop [while (!check_collide()) fig_pos->y++;] of [movedown].  It need
    not end, so it runs on fuel: [None] when the fuel is used up first. *)
Fixpoint movedown_loop (fuel : nat) (t : Tetris) : option Tetris :=
  match fuel with
  | O => None
  | S fuel' => if check_collide t then Some t else movedown_loop fuel' (incr_y t)
  end.

Definition movedown (fuel : nat) (t : Tetris) : option Tetris :=
  match movedown_loop fuel t with
  | Some t' => Some (decr_y t')
  | None => None
  end.

Definition moveright (t : Tetris) : Tetris :=
  let t := incr_x t in
  if check_collide t then decr_x t else t.

Definition moveleft (t : Tetris) : Tetris :=
  let t := decr_x t in
  if check_collide t then incr_x t else t.

Definition rotate_action (t : Tetris) : Tetris :=
  let t := with_figure (rotate_figure (figure t)) t in
  if check_collide t then
    with_figure (for_up (fun _ m => rotate_figure m) 0 3 (figure t)) t
  else t.

(** [pause_game] waits for a key and restores the timeout. *)
Definition pause_game (t : Tetris) : Tetris := t.

Definition on_moving_state (fuel : nat) (signal : UserAction_t) (t : Tetris)
  : option Tetris :=
  let moved :=
    match signal with
    | Up => Some (moveup t)
    | Down => movedown fuel t
    | Right => Some (moveright t)
    | Left => Some (moveleft t)
    | Action => Some (rotate_action t)
    | Pause => Some (pause_game t)
    | Terminate => Some (with_state GAMEOVER t)
    | _ => Some t
    end in
  match moved with
  | Some t =>
      if negb (TetrisState_eqb (state t) GAMEOVER)
         && negb (TetrisState_eqb (state t) EXIT_ERROR)
      then Some (with_state SHIFTING t)
      else Some t
  | None => None
  end.

Definition on_shifting_state (t : Tetris) : Tetris :=
  let t := incr_y t in
  if check_collide t then
    let t := decr_y t in
    with_state ATTACHING t
  else
    let t := with_state MOVING t in
    let t := decr_y t in      (* print_clear_figure(PIXEL_0) *)
    let t := incr_y t in      (* print_board() *)
    t.

Definition on_attaching_state (t : Tetris) : Tetris :=
  let t := attach_figure_to_field t in
  let r := destruction_of_rows t in
  let n_rows := fst r in
  let t := recalculate_stats n_rows (snd r) in
  let t :=
    if TetrisState_eqb (state t) ATTACHING && check_collide t
    then with_state SPAWN t else t in
  let t := if level (game t) >? MAX_LEVEL then with_state GAMEOVER t else t in
  t.

Definition on_gameover_state (t : Tetris) : Tetris := t.
Definition on_exit_error_state (t : Tetris) : Tetris := t.

(** [userInput(action, hold)]: one step of the controller.  [fuel] bounds the
    loop of [movedown] and [random] is what [rand()] returns in this step. *)
Definition userInput (fuel : nat) (random : Z) (action : UserAction_t) (t : Tetris)
  : option Tetris :=
  match state t with
  | START => Some (on_start_state random action t)
  | SPAWN => Some (on_spawn_state random t)
  | MOVING => on_moving_state fuel action t
  | SHIFTING => Some (on_shifting_state t)
  | ATTACHING => Some (on_attaching_state t)
  | GAMEOVER => Some (on_gameover_state t)
  | EXIT_ERROR => Some (on_exit_error_state t)
  end.

(** Key codes of [defines.h] (octal 0402 to 0405 there) and of the characters
    that [get_action] compares with. *)
Definition KEY_DOWN : Z := 258.
Definition KEY_UP : Z := 259.
Definition KEY_LEFT : Z := 260.
Definition KEY_RIGHT : Z := 261.
Definition ESCAPE : Z := 27.
Definition CHAR_R_UPPER : Z := 82.
Definition CHAR_R_LOWER : Z := 114.
Definition CHAR_P_UPPER : Z := 80.
Definition CHAR_P_LOWER : Z := 112.
Definition CHAR_SPACE : Z := 32.

Definition get_action (signal : Z) : UserAction_t :=
  if signal =? KEY_UP then Up
  else if signal =? KEY_DOWN then Down
  else if signal =? KEY_LEFT then Left
  else if signal =? KEY_RIGHT then Right
  else if (signal =? CHAR_R_UPPER) || (signal =? CHAR_R_LOWER) then Start
  else if signal =? CHAR_SPACE then Action
  else if (signal =? CHAR_P_UPPER) || (signal =? CHAR_P_LOWER) then Pause
  else if signal =? ESCAPE then Terminate
  else No_signal.

(** [*state == GAMEOVER || *state == EXIT_ERROR] *)
Definition is_over (t : Tetris) : bool :=
  TetrisState_eqb (state t) GAMEOVER || TetrisState_eqb (state t) EXIT_ERROR.

(** The loop of [game_loop], in the build that reads the keyboard.  [signal]
    is the local variable of that name; [n] counts the iterations; [keys n]
    is what [getch()] returns to the loop at the end of iteration [n], when it
    is called there, and [rands n] what [rand()] returns during it.  The loop
    need not end: it runs on [fuel], and each step on [step_fuel]. *)
Fixpoint game_loop_from (fuel step_fuel : nat) (keys rands : nat -> Z)
    (n : nat) (signal : Z) (t : Tetris) : option Tetris :=
  match fuel with
  | O => None
  | S fuel' =>
      let continue_flag := negb (is_over t) in
      match userInput step_fuel (rands n) (get_action signal) t with
      | None => None
      | Some t =>
          let signal :=
            if TetrisState_eqb (state t) MOVING || TetrisState_eqb (state t) START
            then keys n else signal in
          if continue_flag
          then game_loop_from fuel' step_fuel keys rands (S n) signal t
          else Some t
      end
  end.

(** [game_loop]: [continue_flag = true], [signal = 0], then the loop. *)
Definition game_loop (fuel step_fuel : nat) (keys rands : nat -> Z) (t : Tetris)
  : option Tetris :=
  game_loop_from fuel step_fuel keys rands 0 0 t.

(** Successive calls of [userInput], each with its fuel, its number from
    [rand()] and its action. *)
Fixpoint run (steps : list (nat * Z * UserAction_t)) (t : Tetris) : option Tetris :=
  match steps with
  | [] => Some t
  | (fuel, random, action) :: steps' =>
      match userInput fuel random action t with
      | Some t' => run steps' t'
      | None => None
      end
  end.

(** ** Notions used to state the properties *)

(** A canonical shape rotated [r] times, as [assign_next_figure] builds it. *)
Definition spawned_figure (n r : nat) : Matrix :=
  for_up (fun _ m => rotate_figure m) 0 r (figures_choice n).

(** Row [i] (column [j]) of a figure has a cell that is not 0. *)
Definition row_set (fig : Matrix) (i : nat) : bool :=
  existsb (fun j => negb (cell fig i j =? 0)) (seq 0 SIDE_OF_FIGURE_SQUARE).
Definition col_set (fig : Matrix) (j : nat) : bool :=
  existsb (fun i => negb (cell fig i j =? 0)) (seq 0 SIDE_OF_FIGURE_SQUARE).

(** The topmost non-empty row and the leftmost non-empty column. *)
Definition first_set_row (fig : Matrix) : option nat :=
  find (row_set fig) (seq 0 SIDE_OF_FIGURE_SQUARE).
Definition first_set_col (fig : Matrix) : option nat :=
  find (col_set fig) (seq 0 SIDE_OF_FIGURE_SQUARE).

Definition has_set_cell (fig : Matrix) : Prop :=
  exists i j : nat,
    (i < SIDE_OF_FIGURE_SQUARE)%nat /\ (j < SIDE_OF_FIGURE_SQUARE)%nat
    /\ cell fig i j = 1.

(** A row all of whose cells are 1. *)
Definition complete_row (row : list Z) : Prop := Forall (fun c => c = 1) row.

#[global] Instance complete_row_dec (row : list Z) : Decision (complete_row row).
Proof. unfold complete_row. apply _. Defined.

(** The scoring table. *)
Definition score_bonus (n_rows : Z) : Z :=
  if n_rows =? 1 then 100
  else if n_rows =? 2 then 300
  else if n_rows =? 3 then 700
  else if n_rows =? 4 then 1500
  else 0.

(** The coordinate (row, col) is outside the field or on a filled cell. *)
Definition blocked (f : Matrix) (row col : Z) : Prop :=
  col < 0 \/ col >= Z.of_nat COLS_MAP \/ row < 0 \/ row >= Z.of_nat ROWS_MAP
  \/ load f row col = 1.

Definition in_field (yx : Z * Z) : Prop :=
  0 <= fst yx < Z.of_nat ROWS_MAP /\ 0 <= snd yx < Z.of_nat COLS_MAP.

(** The state with the figure at vertical offset [y]. *)
Definition at_y (y : Z) (t : Tetris) : Tetris :=
  with_fig_pos (with_y y (fig_pos t)) t.

(** [y'] is the resting offset of a straight fall from the current one:
    every offset from the current one to [y'] is free and the next is not. *)
Definition resting_y (t : Tetris) (y' : Z) : Prop :=
  pos_y (fig_pos t) <= y'
  /\ (forall k, pos_y (fig_pos t) <= k <= y' -> check_collide (at_y k t) = false)
  /\ check_collide (at_y (y' + 1) t) = true.

(** [y'] is the greatest offset, from the current one on, at which the figure
    does not collide. *)
Definition greatest_free_y (t : Tetris) (y' : Z) : Prop :=
  pos_y (fig_pos t) <= y'
  /\ check_collide (at_y y' t) = false
  /\ (forall k, pos_y (fig_pos t) <= k -> check_collide (at_y k t) = false -> k <= y').

(** The record file cannot be opened, neither for update nor for writing. *)
Definition note_unreachable (r : RecordNote) : Prop :=
  fopen_update r = None /\ fopen_write r = false.

(** [high_score_update] goes to the record file. *)
Definition consults_note (g : GameInfo_t) : Prop :=
  high_score g = 0 \/ score g > high_score g.

(** The number that the record file holds: the one that its text denotes for
    [fscanf]. *)
Definition stored (r : RecordNote) : option Z :=
  match note_text r with
  | Some txt => scan_int txt
  | None => None
  end.

(** The two properties of [high_score_update] as the specification words
    them: it fails exactly when the record file can be neither read nor
    written, and when it succeeds the number in the file is not lowered. *)
Definition fails_when_unreachable (t : Tetris) : Prop :=
  fst (high_score_update t) = ERROR <-> note_unreachable (record_note t).

Definition record_not_lowered (t : Tetris) : Prop :=
  fst (high_score_update t) = NO_ERROR ->
  forall v v' : Z,
    stored (record_note t) = Some v ->
    stored (record_note (snd (high_score_update t))) = Some v' ->
    v <= v'.

(** The placement of a new figure as the specification words it: the 4x4 box
    at the centred column, the topmost non-empty row on row 0 of the field. *)
Definition placed_centred (t : Tetris) : Prop :=
  pos_x (fig_pos t) = FIGURESTART_X
  /\ exists top : nat,
       first_set_row (figure t) = Some top
       /\ pos_y (fig_pos t) + Z.of_nat top = 0.

(** The state with the figure at horizontal offset [x]. *)
Definition at_x (x : Z) (t : Tetris) : Tetris :=
  with_fig_pos (with_x x (fig_pos t)) t.

(** The sum of the cells of a matrix: for cells 0 or 1, the number of set
    cells. *)
Definition cell_sum (m : Matrix) : Z := foldr Z.add 0 (concat m).

(** A figure is being played: it moves, or is about to be attached. *)
Definition in_play (s : TetrisState_t) : bool :=
  match s with
  | MOVING | SHIFTING | ATTACHING => true
  | _ => false
  end.

(** What the engine keeps true from one step of the controller to the next:
    the field and the next figure are well formed, and a figure in play is
    well formed, at a position that is a C [int], and does not collide. *)
Definition engine_ok (t : Tetris) : Prop :=
  field_ok (field (game t))
  /\ figure_ok (next (game t))
  /\ (in_play (state t) = true ->
      figure_ok (figure t)
      /\ in_range (pos_x (fig_pos t))
      /\ in_range (pos_y (fig_pos t))
      /\ check_collide t = false).

(** Cell (r, c) of the field is under a set cell of the figure. *)
Definition covered (t : Tetris) (r c : nat) : Prop :=
  exists i j : nat,
    (i < SIDE_OF_FIGURE_SQUARE)%nat /\ (j < SIDE_OF_FIGURE_SQUARE)%nat
    /\ cell (figure t) i j = 1
    /\ pos_y (fig_pos t) + Z.of_nat i = Z.of_nat r
    /\ pos_x (fig_pos t) + Z.of_nat j = Z.of_nat c.

(** The score, the level and the speed of a session agree: the level is
    1 + score / 600, the speed 500 - 30 (level - 1), and the score is under
    6000 as long as the game is not over, under 7500 at its end. *)
Definition stats_ok (t : Tetris) : Prop :=
  0 <= score (game t) < 7500
  /\ level (game t) = 1 + score (game t) / 600
  /\ speed (game t) = INITIAL_TIMEOUT - (level (game t) - 1) * SPEED_DECREMENT
  /\ (state t <> GAMEOVER -> score (game t) < 6000).

(** The arrows of the state machine. *)
Definition transition (s s' : TetrisState_t) : bool :=
  match s, s' with
  | START, (START | SPAWN | GAMEOVER) => true
  | SPAWN, (MOVING | GAMEOVER | EXIT_ERROR) => true
  | MOVING, (SHIFTING | GAMEOVER) => true
  | SHIFTING, (MOVING | ATTACHING) => true
  | ATTACHING, (SPAWN | ATTACHING | GAMEOVER) => true
  | GAMEOVER, GAMEOVER => true
  | EXIT_ERROR, EXIT_ERROR => true
  | _, _ => false
  end.

(** A session whose figures are not empty: the state is well formed, the next
    figure has a set cell once one has been drawn, and so has the figure in
    play. *)
Definition session_ok (t : Tetris) : Prop :=
  engine_ok t
  /\ (state t = SPAWN \/ in_play (state t) = true -> has_set_cell (next (game t)))
  /\ (in_play (state t) = true -> has_set_cell (figure t)).

(** ** Concrete configurations *)

(** What [init_game] leaves when its allocations succeed, with the record
    file [r]. *)
Definition fresh_session (r : RecordNote) : Tetris :=
  {| game :=
       {| field := replicate ROWS_MAP zero_row;
          next := replicate SIDE_OF_FIGURE_SQUARE (replicate SIDE_OF_FIGURE_SQUARE 0);
          score := 0; high_score := 0; level := 1; speed := INITIAL_TIMEOUT;
          pause := 0 |};
     figure := replicate SIDE_OF_FIGURE_SQUARE (replicate SIDE_OF_FIGURE_SQUARE 0);
     fig_pos := {| pos_x := 0; pos_y := 0 |};
     state := START;
     record_note := r |}.

Definition no_note : RecordNote :=
  {| note_text := None; update_ok := true; write_ok := true |}.

(** A session in state [st] with field [f], figure [fig] at [(x, y)]. *)
Definition session (st : TetrisState_t) (f fig : Matrix) (x y : Z) : Tetris :=
  with_state st
    (with_fig_pos {| pos_x := x; pos_y := y |}
       (with_figure fig
          (with_game (with_field f (game (fresh_session no_note)))
             (fresh_session no_note)))).

(** The bar lying on the bottom row, where it completes the row. *)
Definition bar_completes_bottom : Tetris :=
  session ATTACHING
    (replicate 19 zero_row ++ [[1; 1; 1; 1; 1; 1; 0; 0; 0; 0]])
    (spawned_figure 0 0) 6 18.

(** The square at its spawn position above a field whose only filled cell is
    in row 5, under the left column of the square. *)
Definition square_over_ledge : Tetris :=
  session MOVING
    (replicate 5 zero_row ++ [[0; 0; 0; 1; 0; 0; 0; 0; 0; 0]] ++ replicate 14 zero_row)
    (spawned_figure 1 0) 2 (-1).

(** A field whose rows 3 and 7, and no other, are complete. *)
Definition field_3_7 : Matrix :=
  let full := replicate COLS_MAP 1 in
  [ zero_row; [0; 1; 0; 0; 0; 0; 0; 0; 0; 0]; zero_row; full;
    [1; 1; 0; 0; 0; 0; 0; 0; 0; 0]; zero_row; [1; 1; 1; 1; 1; 1; 1; 1; 1; 0]; full;
    zero_row; zero_row; zero_row; zero_row;
    zero_row; zero_row; zero_row; zero_row;
    zero_row; zero_row; [0; 0; 0; 0; 1; 0; 0; 0; 0; 0]; [1; 0; 1; 0; 1; 0; 1; 0; 1; 0] ].

(** A session with score [s] and in-memory high score [h] on the record
    file [r]. *)
Definition scoring_session (s h : Z) (r : RecordNote) : Tetris :=
  with_game (with_high_score h (with_score s (game (fresh_session r))))
    (fresh_session r).

(** No file and no way to create one. *)
Definition lost_note : RecordNote :=
  {| note_text := None; update_ok := false; write_ok := false |}.

(** A file holding the text 100 that can be opened for update. *)
Definition note_100 : RecordNote :=
  {| note_text := Some ["1"; "0"; "0"]%char; update_ok := true; write_ok := true |}.

(** A file holding the text 100 that can be opened for writing only. *)
Definition write_only_note : RecordNote :=
  {| note_text := Some ["1"; "0"; "0"]%char; update_ok := false; write_ok := true |}.

(** A file holding the text -5 that can be opened for update. *)
Definition note_minus_5 : RecordNote :=
  {| note_text := Some ["-"; "5"]%char; update_ok := true; write_ok := true |}.

(** * Properties *)

(** ** Machine integers *)

Lemma wrap_in_range z : in_range z -> wrap z = z.
Proof.
  unfold in_range, INT_MIN, INT_MAX, wrap. intros H.
  rewrite Z.mod_small; lia.
Qed.

Lemma wrap_above z :
  INT_MAX < z <= INT_MAX + 4294967296 -> wrap z = z - 4294967296.
Proof.
  unfold INT_MAX, wrap. intros H.
  replace (z + 2147483648) with ((z - 4294967296 + 2147483648) + 1 * 4294967296) by lia.
  rewrite Z.mod_add by lia. rewrite Z.mod_small; lia.
Qed.

Lemma int_add_exact a b : in_range (a + b) -> int_add a b = a + b.
Proof. apply wrap_in_range. Qed.

Lemma int_sub_exact a b : in_range (a - b) -> int_sub a b = a - b.
Proof. apply wrap_in_range. Qed.

Lemma int_mul_exact a b : in_range (a * b) -> int_mul a b = a * b.
Proof. apply wrap_in_range. Qed.

Lemma int_div_exact a b : in_range (Z.quot a b) -> int_div a b = Z.quot a b.
Proof. apply wrap_in_range. Qed.

(** A figure coordinate [p + i], [0 <= i < 4], computed in 32 bits: it is
    exact, or it overflowed to a negative number while [p + i] is far to the
    right of (below) the field. *)
Lemma int_add_offset p (i : nat) :
  in_range p -> (i < SIDE_OF_FIGURE_SQUARE)%nat ->
  int_add p (Z.of_nat i) = p + Z.of_nat i
  \/ (int_add p (Z.of_nat i) < 0 /\ INT_MAX < p + Z.of_nat i).
Proof.
  unfold in_range, SIDE_OF_FIGURE_SQUARE. intros Hp Hi.
  destruct (Z_le_gt_dec (p + Z.of_nat i) INT_MAX) as [Hle | Hgt].
  - left. apply int_add_exact. unfold in_range. lia.
  - right. unfold int_add. rewrite wrap_above; unfold INT_MAX, INT_MIN in *; lia.
Qed.

(** ** Loops *)

Section Loops.
Context {St : Type}.

(** Invariants of a counting loop. *)
Lemma for_up_inv (P : St -> Prop) (body : nat -> St -> St) i0 n st :
  P st ->
  (forall i s, (i0 <= i < i0 + n)%nat -> P s -> P (body i s)) ->
  P (for_up body i0 n st).
Proof.
  revert i0 st. induction n as [| n IH]; intros i0 st Hst Hbody; simpl.
  - exact Hst.
  - apply IH.
    + apply Hbody; [lia | exact Hst].
    + intros i s Hi. apply Hbody. lia.
Qed.

(** Two loops run side by side. *)
Lemma for_up_rel {St' : Type} (R : St -> St' -> Prop)
    (body : nat -> St -> St) (body' : nat -> St' -> St') i0 n st st' :
  R st st' ->
  (forall i s s', (i0 <= i < i0 + n)%nat -> R s s' -> R (body i s) (body' i s')) ->
  R (for_up body i0 n st) (for_up body' i0 n st').
Proof.
  revert i0 st st'. induction n as [| n IH]; intros i0 st st' Hst Hbody; simpl.
  - exact Hst.
  - apply IH.
    + apply Hbody; [lia | exact Hst].
    + intros i s s' Hi. apply Hbody. lia.
Qed.

(** A counting loop with an invariant that follows the counter. *)
Lemma for_up_inv_at (P : nat -> St -> Prop) (body : nat -> St -> St) i0 n st :
  P i0 st ->
  (forall i s, (i0 <= i < i0 + n)%nat -> P i s -> P (S i) (body i s)) ->
  P (i0 + n)%nat (for_up body i0 n st).
Proof.
  revert i0 st. induction n as [| n IH]; intros i0 st Hst Hbody.
  - rewrite Nat.add_0_r. exact Hst.
  - change (for_up body i0 (S n) st) with (for_up body (S i0) n (body i0 st)).
    replace (i0 + S n)%nat with (S i0 + n)%nat by lia.
    apply IH.
    + apply Hbody; [lia | exact Hst].
    + intros i s Hi. apply Hbody. lia.
Qed.

End Loops.

Lemma for_while_ext {St : Type} (cond : St -> bool) (body1 body2 : nat -> St -> St)
    i0 n st :
  (forall i s, body1 i s = body2 i s) ->
  for_while cond body1 i0 n st = for_while cond body2 i0 n st.
Proof.
  intros Hb. revert i0 st. induction n as [| n IH]; intros i0 st; simpl.
  - reflexivity.
  - destruct (cond st); [| reflexivity]. rewrite Hb. apply IH.
Qed.

(** A loop that raises a flag and stops at the first index where [hit]
    holds computes a disjunction. *)
Lemma for_while_flag (hit : nat -> bool) i0 n rc :
  for_while negb (fun j rc => if hit j then true else rc) i0 n rc
  = rc || existsb hit (seq i0 n).
Proof.
  revert i0 rc. induction n as [| n IH]; intros i0 rc; simpl.
  - now rewrite orb_false_r.
  - destruct rc; simpl; [reflexivity |].
    rewrite IH. now destruct (hit i0).
Qed.

Lemma for_while_flag_or (hit : nat -> bool) i0 n rc :
  for_while negb (fun i rc => rc || hit i) i0 n rc
  = rc || existsb hit (seq i0 n).
Proof.
  revert i0 rc. induction n as [| n IH]; intros i0 rc; simpl.
  - now rewrite orb_false_r.
  - destruct rc; simpl; [reflexivity |]. now rewrite IH.
Qed.

(** From here on the loops are unrolled by their lemmas only. *)
Arguments for_up : simpl never.
Arguments for_while : simpl never.
Arguments for_down : simpl never.

(** ** Matrices *)

Lemma cell_tabulate rows cols f i j :
  (i < rows)%nat -> (j < cols)%nat -> cell (tabulate rows cols f) i j = f i j.
Proof.
  intros Hi Hj. unfold cell, tabulate.
  rewrite list_lookup_fmap, lookup_seq_lt by exact Hi. simpl.
  rewrite list_lookup_fmap, lookup_seq_lt by exact Hj. reflexivity.
Qed.

Lemma tabulate_dims rows cols f : dims rows cols (tabulate rows cols f).
Proof.
  unfold dims, tabulate. split.
  - now rewrite length_fmap, length_seq.
  - apply Forall_forall. intros row Hrow.
    apply list_elem_of_fmap in Hrow as (i & -> & _).
    now rewrite length_fmap, length_seq.
Qed.

Lemma dims_4x4 (m : Matrix) :
  figure_dims m ->
  exists a0 a1 a2 a3 b0 b1 b2 b3 c0 c1 c2 c3 d0 d1 d2 d3 : Z,
    m = [[a0; a1; a2; a3]; [b0; b1; b2; b3]; [c0; c1; c2; c3]; [d0; d1; d2; d3]].
Proof.
  intros [Hlen Hrows].
  destruct m as [| r0 [| r1 [| r2 [| r3 [| ? ?]]]]]; try discriminate Hlen.
  repeat match goal with
         | H : Forall _ (_ :: _) |- _ => apply Forall_cons in H as [? H]
         end.
  cbv beta in *. clear Hlen.
  repeat match goal with
         | H : length ?r = SIDE_OF_FIGURE_SQUARE |- _ =>
             is_var r; destruct r as [| ? [| ? [| ? [| ? [| ? ?]]]]]; try discriminate H; clear H
         end.
  repeat eexists.
Qed.

(** ** Rotation *)

Lemma rotate_figure_cell fig i j :
  (i < SIDE_OF_FIGURE_SQUARE)%nat -> (j < SIDE_OF_FIGURE_SQUARE)%nat ->
  cell (rotate_figure fig) i j = cell fig j (3 - i).
Proof.
  intros Hi Hj. unfold rotate_figure.
  rewrite !cell_tabulate by assumption.
  f_equal. unfold SIDE_OF_FIGURE_SQUARE. lia.
Qed.

Lemma rotate_figure_dims fig : figure_dims (rotate_figure fig).
Proof. apply tabulate_dims. Qed.

Lemma rotate_figure_four fig :
  figure_dims fig ->
  rotate_figure (rotate_figure (rotate_figure (rotate_figure fig))) = fig.
Proof.
  intros Hd. apply dims_4x4 in Hd.
  destruct Hd as (a0 & a1 & a2 & a3 & b0 & b1 & b2 & b3 & c0 & c1 & c2 & c3
                  & d0 & d1 & d2 & d3 & ->).
  reflexivity.
Qed.

Lemma figures_choice_dims n : figure_dims (figures_choice n).
Proof. apply tabulate_dims. Qed.

Lemma spawned_figure_dims n r : figure_dims (spawned_figure n r).
Proof.
  unfold spawned_figure. apply for_up_inv.
  - apply figures_choice_dims.
  - intros; apply rotate_figure_dims.
Qed.

(** C6. [rotate_figure] turns a 4x4 matrix into the one whose cell (i, j) is
    the old cell (j, 3 - i), and four rotations give the matrix back; so they
    do for each of the 7 shapes after any number of rotations. *)
Theorem rotate_figure_order_four (fig : Matrix) (Hdims : figure_dims fig) :
  (forall i j : nat,
      (i < 4)%nat -> (j < 4)%nat ->
      cell (rotate_figure fig) i j = cell fig j (3 - i))
  /\ rotate_figure (rotate_figure (rotate_figure (rotate_figure fig))) = fig
  /\ (forall n r : nat,
         rotate_figure (rotate_figure (rotate_figure (rotate_figure
           (spawned_figure n r)))) = spawned_figure n r).
Proof.
  split; [| split].
  - intros i j Hi Hj. now apply rotate_figure_cell.
  - now apply rotate_figure_four.
  - intros n r. apply rotate_figure_four, spawned_figure_dims.
Qed.

Lemma rotate_figure_order_four_witness :
  figure_dims (spawned_figure 6 1)
  /\ cell (rotate_figure (spawned_figure 6 1)) 1 2 = cell (spawned_figure 6 1) 2 2
  /\ rotate_figure (rotate_figure (rotate_figure (rotate_figure (spawned_figure 6 1))))
     = spawned_figure 6 1.
Proof.
  assert (Hd : figure_dims (spawned_figure 6 1)).
  { split; [reflexivity | repeat constructor]. }
  split; [exact Hd |].
  split.
  - apply (proj1 (rotate_figure_order_four (spawned_figure 6 1) Hd) 1%nat 2%nat); lia.
  - apply (proj1 (proj2 (rotate_figure_order_four (spawned_figure 6 1) Hd))).
Defined.

(** ** Initial placement *)

(** C2, as the code has it. For each of the 7 shapes, rotated 0 to 3 times,
    [init_figure_position] puts the topmost non-empty row of the figure on
    row 0 of the field and its leftmost non-empty column on column
    (10 - 4) / 2 = 3: the x offset of the 4x4 box is 3 minus the number of
    empty columns on the left of the figure. *)
Theorem init_figure_position_spawned (t : Tetris) (n r : nat)
    (Hn : (n < NUMBER_OF_FIGURES)%nat) (Hr : (r < 4)%nat)
    (Hfig : figure t = spawned_figure n r) :
  exists top left : nat,
    first_set_row (figure t) = Some top
    /\ first_set_col (figure t) = Some left
    /\ pos_y (fig_pos (init_figure_position t)) + Z.of_nat top = 0
    /\ pos_x (fig_pos (init_figure_position t)) + Z.of_nat left = 3.
Proof.
  unfold init_figure_position. rewrite Hfig. clear Hfig.
  unfold NUMBER_OF_FIGURES in Hn.
  destruct n as [| [| [| [| [| [| [| n]]]]]]]; try lia;
    destruct r as [| [| [| [| r]]]]; try lia;
    vm_compute; do 2 eexists; repeat split; reflexivity.
Qed.

Lemma init_figure_position_spawned_witness :
  exists top left : nat,
    first_set_row (spawned_figure 1 0) = Some top
    /\ first_set_col (spawned_figure 1 0) = Some left
    /\ pos_y (fig_pos (init_figure_position
                (session SPAWN (replicate ROWS_MAP zero_row) (spawned_figure 1 0) 0 0)))
       + Z.of_nat top = 0
    /\ pos_x (fig_pos (init_figure_position
                (session SPAWN (replicate ROWS_MAP zero_row) (spawned_figure 1 0) 0 0)))
       + Z.of_nat left = 3.
Proof.
  apply (init_figure_position_spawned
           (session SPAWN (replicate ROWS_MAP zero_row) (spawned_figure 1 0) 0 0)
           1%nat 0%nat).
  - unfold NUMBER_OF_FIGURES. lia.
  - lia.
  - reflexivity.
Defined.

(** The square, whose left column is empty, is placed with its box at x = 2. *)
Lemma square_not_placed_centred :
  ~ placed_centred
      (init_figure_position
         (session SPAWN (replicate ROWS_MAP zero_row) (spawned_figure 1 0) 0 0)).
Proof.
  unfold placed_centred. intros [Hx _]. vm_compute in Hx. discriminate Hx.
Qed.

(** Copying a 4x4 matrix cell by cell gives the matrix. *)
Lemma tabulate_cell (m : Matrix) :
  figure_dims m ->
  tabulate SIDE_OF_FIGURE_SQUARE SIDE_OF_FIGURE_SQUARE (fun i j => cell m i j) = m.
Proof.
  intros Hd. apply dims_4x4 in Hd.
  destruct Hd as (a0 & a1 & a2 & a3 & b0 & b1 & b2 & b3 & c0 & c1 & c2 & c3
                  & d0 & d1 & d2 & d3 & ->).
  reflexivity.
Qed.

(** What [assign_next_figure] prepares from the number [rand()] returns. *)
Lemma assign_next_figure_spawned random t :
  0 <= random <= INT_MAX ->
  next (game (assign_next_figure random t))
  = spawned_figure (Z.to_nat (random mod 7)) (Z.to_nat (random mod 4))
  /\ (Z.to_nat (random mod 7) < NUMBER_OF_FIGURES)%nat
  /\ (Z.to_nat (random mod 4) < 4)%nat.
Proof.
  intros Hr. unfold INT_MAX in Hr.
  pose proof (Z.mod_pos_bound random 7 ltac:(lia)) as H7.
  pose proof (Z.mod_pos_bound random 4 ltac:(lia)) as H4.
  unfold assign_next_figure, int_rem, NUMBER_OF_FIGURES.
  change (Z.of_nat 7) with 7.
  rewrite !Z.rem_mod_nonneg by lia.
  rewrite !wrap_in_range by (unfold in_range, INT_MIN, INT_MAX; lia).
  split; [reflexivity | lia].
Qed.

(** The placement at the end of a step in state SPAWN that succeeds, for the
    figure that the step before has prepared. *)
Lemma on_spawn_state_placement random t n r :
  (n < NUMBER_OF_FIGURES)%nat -> (r < 4)%nat ->
  next (game t) = spawned_figure n r ->
  fst (high_score_update t) = NO_ERROR ->
  figure (on_spawn_state random t) = spawned_figure n r
  /\ exists top left : nat,
       first_set_row (spawned_figure n r) = Some top
       /\ first_set_col (spawned_figure n r) = Some left
       /\ pos_y (fig_pos (on_spawn_state random t)) + Z.of_nat top = 0
       /\ pos_x (fig_pos (on_spawn_state random t)) + Z.of_nat left = 3.
Proof.
  intros Hn Hr Hnext Hcode.
  assert (Hkeep : next (game (snd (high_score_update t))) = next (game t)).
  { unfold high_score_update.
    destruct (_ || _); [| reflexivity].
    destruct (fopen_update _) as [txt |]; unfold fscanf_high_score;
      [destruct (scan_int txt) |]; simpl;
      repeat match goal with |- context [if ?b then _ else _] => destruct b end;
      reflexivity. }
  set (t1 := assign_next_figure random
               (copy_next_figure_to_figure (snd (high_score_update t)))).
  assert (Hfig : figure t1 = spawned_figure n r).
  { unfold t1, assign_next_figure, copy_next_figure_to_figure.
    cbn [figure with_game with_figure].
    rewrite Hkeep, Hnext. apply tabulate_cell, spawned_figure_dims. }
  assert (Hstep : on_spawn_state random t
                  = with_state (if check_collide (init_figure_position t1)
                                then GAMEOVER else MOVING)
                      (init_figure_position t1)).
  { unfold on_spawn_state. rewrite Hcode. reflexivity. }
  rewrite Hstep. split; [exact Hfig |].
  change (fig_pos (with_state ?st (init_figure_position t1)))
    with (fig_pos (init_figure_position t1)).
  clearbody t1. unfold init_figure_position. rewrite Hfig.
  unfold NUMBER_OF_FIGURES in Hn.
  destruct n as [| [| [| [| [| [| [| n]]]]]]]; try lia;
    destruct r as [| [| [| [| r]]]]; try lia;
    vm_compute; do 2 eexists; repeat split; reflexivity.
Qed.

(** ** Score, level and speed *)

Lemma in_range_quot_600 s :
  in_range s -> -3579140 <= Z.quot s 600 <= 3579140.
Proof.
  unfold in_range, INT_MIN, INT_MAX. intros Hs.
  pose proof (Z.quot_rem' s 600) as Heq.
  destruct (Z_le_gt_dec 0 s) as [Hpos | Hneg].
  - pose proof (Z.rem_bound_pos s 600 Hpos ltac:(lia)). lia.
  - pose proof (Z.rem_bound_pos_neg s 600 ltac:(lia) ltac:(lia)). lia.
Qed.

(** The level and the speed that [recalculate_stats] derives from a score. *)
Lemma recalculate_level_speed s :
  in_range s ->
  int_add 1 (int_div s 600) = 1 + Z.quot s 600
  /\ int_sub INITIAL_TIMEOUT
       (int_mul (int_sub (1 + Z.quot s 600) 1) SPEED_DECREMENT)
     = 500 - (1 + Z.quot s 600 - 1) * 30.
Proof.
  intros Hs. pose proof (in_range_quot_600 s Hs) as Hq.
  unfold INITIAL_TIMEOUT, SPEED_DECREMENT.
  rewrite int_div_exact by (unfold in_range, INT_MIN, INT_MAX; lia).
  rewrite int_add_exact by (unfold in_range, INT_MIN, INT_MAX; lia).
  rewrite (int_sub_exact (1 + Z.quot s 600) 1)
    by (unfold in_range, INT_MIN, INT_MAX; lia).
  rewrite int_mul_exact by (unfold in_range, INT_MIN, INT_MAX; lia).
  rewrite int_sub_exact by (unfold in_range, INT_MIN, INT_MAX; lia).
  split; reflexivity.
Qed.

Lemma recalculate_stats_zero t : recalculate_stats 0 t = t.
Proof. reflexivity. Qed.

Lemma recalculate_stats_rows n_rows t :
  1 <= n_rows <= 4 ->
  in_range (score (game t)) ->
  score (game t) + 1500 <= INT_MAX ->
  let s' := score (game t) + score_bonus n_rows in
  game (recalculate_stats n_rows t)
  = with_speed (500 - (1 + Z.quot s' 600 - 1) * 30)
      (with_level (1 + Z.quot s' 600) (with_score s' (game t))).
Proof.
  intros Hn Hs Hroom s'.
  assert (Hcases : n_rows = 1 \/ n_rows = 2 \/ n_rows = 3 \/ n_rows = 4) by lia.
  assert (Hs' : in_range s').
  { unfold s', score_bonus, in_range, INT_MIN, INT_MAX in *.
    destruct Hcases as [-> | [-> | [-> | ->]]]; simpl; lia. }
  destruct (recalculate_level_speed s' Hs') as [Hlevel Hspeed].
  destruct Hcases as [-> | [-> | [-> | ->]]];
    unfold recalculate_stats; simpl;
    unfold s', score_bonus in *; simpl in *;
    rewrite (int_add_exact (score (game t)) _) by assumption;
    rewrite Hlevel, Hspeed; reflexivity.
Qed.

Lemma recalculate_stats_sequence t :
  score (game t) = 0 ->
  let t4 :=
    recalculate_stats 4 (recalculate_stats 3
      (recalculate_stats 2 (recalculate_stats 1 t))) in
  score (game t4) = 2600 /\ level (game t4) = 5.
Proof.
  destruct t as [[f nx s h l sp pa] fig p st r]. simpl. intros ->.
  split; vm_compute; reflexivity.
Qed.

(** C4. For 0 to 4 rows, [recalculate_stats] adds 0, 100, 300, 700, 1500 to
    the score (a score below [INT_MAX - 1500], so that the addition is
    defined); with no row nothing changes, otherwise the level becomes
    1 + score / 600 in the division of C, which is the floor for the
    non-negative scores of a session, and the speed 500 - (level - 1) * 30;
    from score 0, one, two, three and four rows in turn give score 2600 and
    level 5. *)
Theorem recalculate_stats_table (t : Tetris) (n_rows : Z)
    (Hrows : 0 <= n_rows <= 4)
    (Hscore : in_range (score (game t)))
    (Hroom : score (game t) + 1500 <= INT_MAX) :
  let t' := recalculate_stats n_rows t in
  score (game t') = score (game t) + score_bonus n_rows
  /\ (n_rows = 1 -> score (game t') = score (game t) + 100)
  /\ (n_rows = 2 -> score (game t') = score (game t) + 300)
  /\ (n_rows = 3 -> score (game t') = score (game t) + 700)
  /\ (n_rows = 4 -> score (game t') = score (game t) + 1500)
  /\ (n_rows = 0 -> t' = t)
  /\ (n_rows <> 0 ->
      level (game t') = 1 + Z.quot (score (game t')) 600
      /\ (0 <= score (game t') -> level (game t') = 1 + score (game t') / 600)
      /\ speed (game t') = 500 - (level (game t') - 1) * 30)
  /\ (score (game t) = 0 ->
      let t4 :=
        recalculate_stats 4 (recalculate_stats 3
          (recalculate_stats 2 (recalculate_stats 1 t))) in
      score (game t4) = 2600 /\ level (game t4) = 5).
Proof.
  intros t'.
  assert (Hscore' : score (game t') = score (game t) + score_bonus n_rows).
  { unfold t'. destruct (Z.eq_dec n_rows 0) as [-> | Hnz].
    - rewrite recalculate_stats_zero. unfold score_bonus. simpl. lia.
    - rewrite recalculate_stats_rows by (assumption || lia). reflexivity. }
  split; [exact Hscore' |].
  split; [intros ->; exact Hscore' |].
  split; [intros ->; exact Hscore' |].
  split; [intros ->; exact Hscore' |].
  split; [intros ->; exact Hscore' |].
  split; [intros ->; apply recalculate_stats_zero |].
  split.
  - intros Hnz.
    assert (Hlevel : level (game t') = 1 + Z.quot (score (game t')) 600).
    { rewrite Hscore'. unfold t'.
      rewrite recalculate_stats_rows by (assumption || lia). reflexivity. }
    split; [exact Hlevel |]. split.
    + intros Hpos. rewrite Hlevel. now rewrite Z.quot_div_nonneg by lia.
    + rewrite Hlevel, Hscore'. unfold t'.
      rewrite recalculate_stats_rows by (assumption || lia). reflexivity.
  - apply recalculate_stats_sequence.
Qed.

Lemma recalculate_stats_table_witness :
  let t := scoring_session 400 0 no_note in
  let t' := recalculate_stats 3 t in
  score (game t') = 1100 /\ level (game t') = 2 /\ speed (game t') = 470.
Proof.
  intros t t'.
  assert (Hrows : 0 <= 3 <= 4) by lia.
  assert (Hscore : in_range (score (game t))) by (vm_compute; split; discriminate).
  assert (Hroom : score (game t) + 1500 <= INT_MAX) by (vm_compute; discriminate).
  pose proof (recalculate_stats_table t 3 Hrows Hscore Hroom) as Htable.
  cbv zeta in Htable.
  destruct Htable as (_ & _ & _ & H3 & _ & _ & Hderived & _).
  destruct Hderived as (Hlevel & _ & Hspeed); [discriminate |].
  fold t' in H3, Hlevel, Hspeed.
  rewrite Hspeed, Hlevel, (H3 eq_refl). repeat split.
Defined.

(** ** Collision *)

(** [check_collide] is the disjunction of the 16 cell tests. *)
Lemma check_collide_existsb t :
  check_collide t
  = existsb
      (fun i => existsb (fun j => collide_at t i j) (seq 0 SIDE_OF_FIGURE_SQUARE))
      (seq 0 SIDE_OF_FIGURE_SQUARE).
Proof.
  unfold check_collide.
  rewrite (for_while_ext negb _
             (fun i rc =>
                rc || existsb (fun j => collide_at t i j) (seq 0 SIDE_OF_FIGURE_SQUARE))).
  - now rewrite for_while_flag_or.
  - intros i rc. apply for_while_flag.
Qed.

Lemma check_collide_true t :
  check_collide t = true <->
  exists i j : nat,
    (i < SIDE_OF_FIGURE_SQUARE)%nat /\ (j < SIDE_OF_FIGURE_SQUARE)%nat
    /\ collide_at t i j = true.
Proof.
  rewrite check_collide_existsb, existsb_exists. split.
  - intros (i & Hi & Hrow). apply existsb_exists in Hrow as (j & Hj & Hhit).
    apply in_seq in Hi, Hj. exists i, j. repeat split; (lia || assumption).
  - intros (i & j & Hi & Hj & Hhit). exists i. split; [apply in_seq; lia |].
    apply existsb_exists. exists j. split; [apply in_seq; lia | assumption].
Qed.

Lemma check_collide_false t :
  check_collide t = false <->
  forall i j : nat,
    (i < SIDE_OF_FIGURE_SQUARE)%nat -> (j < SIDE_OF_FIGURE_SQUARE)%nat ->
    collide_at t i j = false.
Proof.
  split.
  - intros Hfree i j Hi Hj.
    destruct (collide_at t i j) eqn:Hhit; [| reflexivity].
    assert (Hc : check_collide t = true) by (apply check_collide_true; eauto).
    congruence.
  - intros Hall. destruct (check_collide t) eqn:Hc; [| reflexivity].
    apply check_collide_true in Hc as (i & j & Hi & Hj & Hhit).
    rewrite Hall in Hhit by assumption. discriminate.
Qed.

(** A cell that is not 1 is not tested. *)
Lemma collide_at_unset t i j : cell (figure t) i j <> 1 -> collide_at t i j = false.
Proof.
  intros Hne. unfold collide_at.
  destruct (Z.eqb_spec (cell (figure t) i j) 1); [contradiction | reflexivity].
Qed.

(** The test of a set cell, on the coordinates the code computes. *)
Lemma collide_at_set t i j :
  cell (figure t) i j = 1 ->
  collide_at t i j = false <->
  (let y := int_add (pos_y (fig_pos t)) (Z.of_nat i) in
   let x := int_add (pos_x (fig_pos t)) (Z.of_nat j) in
   0 <= y < Z.of_nat ROWS_MAP /\ 0 <= x < Z.of_nat COLS_MAP
   /\ load (field (game t)) y x <> 1).
Proof.
  intros Hset. unfold collide_at. rewrite Hset. simpl.
  rewrite !orb_false_iff, !Z.ltb_ge, !Z.geb_leb, !Z.leb_gt, Z.eqb_neq. lia.
Qed.

Lemma collide_at_blocked t i j :
  in_range (pos_x (fig_pos t)) -> in_range (pos_y (fig_pos t)) ->
  (i < SIDE_OF_FIGURE_SQUARE)%nat -> (j < SIDE_OF_FIGURE_SQUARE)%nat ->
  collide_at t i j = true <->
  cell (figure t) i j = 1
  /\ blocked (field (game t))
       (pos_y (fig_pos t) + Z.of_nat i) (pos_x (fig_pos t) + Z.of_nat j).
Proof.
  intros Hx Hy Hi Hj.
  destruct (Z.eq_dec (cell (figure t) i j) 1) as [Hset | Hunset].
  - rewrite <- not_false_iff_true, (collide_at_set t i j Hset). cbv zeta.
    unfold blocked.
    destruct (int_add_offset _ i Hy Hi) as [-> | [Hneg Hbig]];
      destruct (int_add_offset _ j Hx Hj) as [-> | [Hneg' Hbig']];
      unfold INT_MAX, ROWS_MAP, COLS_MAP in *; lia.
  - rewrite collide_at_unset by assumption. split; [discriminate | tauto].
Qed.

(** C5. [check_collide] answers true exactly when some cell (i, j) of the
    figure that is set has its coordinate (y + i, x + j) left or right of the
    field, above or below it, or on a field cell that is 1; a cell of the
    figure that is 0 takes no part in it. *)
Theorem check_collide_iff (t : Tetris)
    (Hx : in_range (pos_x (fig_pos t))) (Hy : in_range (pos_y (fig_pos t))) :
  (check_collide t = true <->
   exists i j : nat,
     (i < 4)%nat /\ (j < 4)%nat /\ cell (figure t) i j = 1
     /\ (let row := pos_y (fig_pos t) + Z.of_nat i in
         let col := pos_x (fig_pos t) + Z.of_nat j in
         col < 0 \/ col >= 10 \/ row < 0 \/ row >= 20
         \/ load (field (game t)) row col = 1))
  /\ (forall i j : nat, cell (figure t) i j = 0 -> collide_at t i j = false).
Proof.
  split.
  - rewrite check_collide_true. split.
    + intros (i & j & Hi & Hj & Hhit). exists i, j.
      apply collide_at_blocked in Hhit as [Hset Hb]; try assumption.
      repeat split; assumption.
    + intros (i & j & Hi & Hj & Hset & Hb). exists i, j.
      repeat split; try assumption.
      apply collide_at_blocked; try assumption. split; assumption.
  - intros i j Hzero. apply collide_at_unset. rewrite Hzero. discriminate.
Qed.

Lemma check_collide_iff_witness :
  check_collide (at_y 3 square_over_ledge) = true.
Proof.
  assert (Hx : in_range (pos_x (fig_pos (at_y 3 square_over_ledge))))
    by (vm_compute; split; discriminate).
  assert (Hy : in_range (pos_y (fig_pos (at_y 3 square_over_ledge))))
    by (vm_compute; split; discriminate).
  apply (proj1 (check_collide_iff (at_y 3 square_over_ledge) Hx Hy)).
  exists 2%nat, 1%nat. split; [lia |]. split; [lia |]. split; [reflexivity |].
  do 4 right. reflexivity.
Defined.

(** ** Attaching the figure *)

Lemma binary_cell (m : Matrix) i j : binary m -> cell m i j = 0 \/ cell m i j = 1.
Proof.
  intros Hb. unfold cell.
  destruct (m !! i) as [row |] eqn:Hrow; [| now left].
  destruct (row !! j) as [c |] eqn:Hc; [| now left].
  unfold binary in Hb. rewrite Forall_lookup in Hb.
  specialize (Hb i row Hrow). rewrite Forall_lookup in Hb. exact (Hb j c Hc).
Qed.

Lemma set_cell_dims rows cols (m : Matrix) i j v :
  dims rows cols m -> dims rows cols (set_cell m i j v).
Proof.
  intros [Hlen Hrows]. unfold set_cell. split.
  - now rewrite length_alter.
  - apply Forall_alter; [exact Hrows |].
    intros row _ Hrow. now rewrite length_insert.
Qed.

Lemma set_cell_binary (m : Matrix) i j v :
  v = 0 \/ v = 1 -> binary m -> binary (set_cell m i j v).
Proof.
  intros Hv Hb. unfold set_cell, binary.
  apply Forall_alter; [exact Hb |].
  intros row _ Hrow. apply Forall_insert; assumption.
Qed.

Lemma store_field_ok (f : Matrix) y x : field_ok f -> field_ok (store f y x 1).
Proof.
  intros [Hd Hb]. unfold store.
  destruct ((0 <=? y) && (0 <=? x)); [| now split].
  split; [now apply set_cell_dims | apply set_cell_binary; auto].
Qed.

Lemma attach_figure_to_field_ok t :
  field_ok (field (game t)) -> field_ok (field (game (attach_figure_to_field t))).
Proof.
  intros Hf. unfold attach_figure_to_field. simpl.
  apply for_up_inv; [exact Hf |]. intros i f _ Hfi.
  apply for_up_inv; [exact Hfi |]. intros j f' _ Hfj.
  destruct (negb _); [now apply store_field_ok | exact Hfj].
Qed.

(** The field after [attach_figure_to_field] is the field before with the
    assignments of [attach_writes] done in their order. *)
Lemma attach_figure_to_field_writes t :
  field (game (attach_figure_to_field t))
  = fold_left (fun f yx => store f (fst yx) (snd yx) 1) (attach_writes t)
      (field (game t)).
Proof.
  unfold attach_figure_to_field, attach_writes. simpl.
  apply (for_up_rel
           (fun (f : Matrix) (ws : list (Z * Z)) =>
              f = fold_left (fun f yx => store f (fst yx) (snd yx) 1) ws
                    (field (game t)))); [reflexivity |].
  intros i f ws _ Hi.
  apply (for_up_rel
           (fun (f : Matrix) (ws : list (Z * Z)) =>
              f = fold_left (fun f yx => store f (fst yx) (snd yx) 1) ws
                    (field (game t)))); [exact Hi |].
  intros j f' ws' _ Hj.
  destruct (negb _); [| exact Hj].
  rewrite fold_left_app. simpl. now rewrite Hj.
Qed.

Lemma attach_writes_in_field t :
  binary (figure t) -> check_collide t = false -> Forall in_field (attach_writes t).
Proof.
  intros Hb Hfree. rewrite check_collide_false in Hfree.
  unfold attach_writes.
  apply for_up_inv; [constructor |]. intros i ws Hi Hws.
  apply for_up_inv; [exact Hws |]. intros j ws' Hj Hws'.
  destruct (Z.eqb_spec (cell (figure t) i j) 0) as [Hz | Hnz]; simpl; [exact Hws' |].
  assert (Hset : cell (figure t) i j = 1).
  { destruct (binary_cell (figure t) i j Hb); [contradiction | assumption]. }
  apply Forall_app. split; [exact Hws' |]. constructor; [| constructor].
  specialize (Hfree i j ltac:(lia) ltac:(lia)).
  apply (collide_at_set t i j Hset) in Hfree. cbv zeta in Hfree.
  unfold in_field. simpl. lia.
Qed.

(** C10. When [check_collide] is false for the figure at its position, every
    cell that [attach_figure_to_field] assigns lies in rows 0 to 19 and
    columns 0 to 9, and the field it leaves is a 20x10 grid of cells 0 or
    1. *)
Theorem attach_figure_to_field_in_bounds (t : Tetris)
    (Hfig : binary (figure t))
    (Hfield : field_ok (field (game t)))
    (Hfree : check_collide t = false) :
  Forall (fun yx : Z * Z => 0 <= fst yx < 20 /\ 0 <= snd yx < 10) (attach_writes t)
  /\ field (game (attach_figure_to_field t))
     = fold_left (fun f yx => store f (fst yx) (snd yx) 1) (attach_writes t)
         (field (game t))
  /\ field_ok (field (game (attach_figure_to_field t))).
Proof.
  split; [| split].
  - exact (attach_writes_in_field t Hfig Hfree).
  - apply attach_figure_to_field_writes.
  - now apply attach_figure_to_field_ok.
Qed.

(** Checking a concrete matrix. *)
Ltac check_binary :=
  vm_compute;
  repeat first
    [ apply Forall_nil_2 | apply Forall_cons_2
    | left; reflexivity | right; reflexivity ].

Ltac check_dims :=
  split; [reflexivity | vm_compute; repeat constructor].

Lemma attach_figure_to_field_in_bounds_witness :
  Forall (fun yx : Z * Z => 0 <= fst yx < 20 /\ 0 <= snd yx < 10)
    (attach_writes square_over_ledge)
  /\ field_ok (field (game (attach_figure_to_field square_over_ledge))).
Proof.
  assert (Hfig : binary (figure square_over_ledge)) by check_binary.
  assert (Hfield : field_ok (field (game square_over_ledge))).
  { split; [check_dims | check_binary]. }
  assert (Hfree : check_collide square_over_ledge = false) by reflexivity.
  destruct (attach_figure_to_field_in_bounds square_over_ledge Hfig Hfield Hfree)
    as (Hw & _ & Hok).
  split; assumption.
Defined.

(** ** Moving the figure down *)

Lemma incr_y_at_y t :
  in_range (pos_y (fig_pos t) + 1) -> incr_y t = at_y (pos_y (fig_pos t) + 1) t.
Proof. intros Hr. unfold incr_y, at_y. now rewrite int_add_exact. Qed.

Lemma decr_y_at_y t :
  in_range (pos_y (fig_pos t) - 1) -> decr_y t = at_y (pos_y (fig_pos t) - 1) t.
Proof. intros Hr. unfold decr_y, at_y. now rewrite int_sub_exact. Qed.

Lemma at_y_at_y y1 y2 t : at_y y2 (at_y y1 t) = at_y y2 t.
Proof. reflexivity. Qed.

Lemma at_y_same t : at_y (pos_y (fig_pos t)) t = t.
Proof. destruct t as [g fig [x y] st r]. reflexivity. Qed.

Lemma at_y_pos_y y t : pos_y (fig_pos (at_y y t)) = y.
Proof. reflexivity. Qed.

(** C7. A step in state SHIFTING leaves the field and the figure as they are
    and, when the figure one row lower collides, keeps the position and goes
    to ATTACHING, and otherwise moves the figure one row down and goes to
    MOVING (the y offset is below [INT_MAX], so that y + 1 is defined). *)
Theorem on_shifting_state_step (fuel : nat) (random : Z) (action : UserAction_t)
    (t : Tetris)
    (Hstate : state t = SHIFTING)
    (Hy : in_range (pos_y (fig_pos t)))
    (Hroom : pos_y (fig_pos t) < INT_MAX) :
  exists t' : Tetris,
    userInput fuel random action t = Some t'
    /\ field (game t') = field (game t)
    /\ figure t' = figure t
    /\ (check_collide (at_y (pos_y (fig_pos t) + 1) t) = true ->
        fig_pos t' = fig_pos t /\ state t' = ATTACHING)
    /\ (check_collide (at_y (pos_y (fig_pos t) + 1) t) = false ->
        pos_y (fig_pos t') = pos_y (fig_pos t) + 1
        /\ pos_x (fig_pos t') = pos_x (fig_pos t)
        /\ state t' = MOVING).
Proof.
  assert (Hnext : in_range (pos_y (fig_pos t) + 1)).
  { unfold in_range, INT_MIN, INT_MAX in *. lia. }
  assert (Hback : decr_y (at_y (pos_y (fig_pos t) + 1) t) = t).
  { rewrite decr_y_at_y; rewrite at_y_pos_y.
    - rewrite at_y_at_y. replace (pos_y (fig_pos t) + 1 - 1) with (pos_y (fig_pos t)) by lia.
      apply at_y_same.
    - replace (pos_y (fig_pos t) + 1 - 1) with (pos_y (fig_pos t)) by lia. exact Hy. }
  unfold userInput. rewrite Hstate. unfold on_shifting_state.
  rewrite (incr_y_at_y t Hnext).
  destruct (check_collide (at_y (pos_y (fig_pos t) + 1) t)) eqn:Hc.
  - rewrite Hback. exists (with_state ATTACHING t).
    split; [reflexivity |]. split; [reflexivity |]. split; [reflexivity |].
    split; [intros _; split; reflexivity | discriminate].
  - change (decr_y (with_state MOVING (at_y (pos_y (fig_pos t) + 1) t)))
      with (with_state MOVING (decr_y (at_y (pos_y (fig_pos t) + 1) t))).
    rewrite Hback.
    change (incr_y (with_state MOVING t)) with (with_state MOVING (incr_y t)).
    rewrite (incr_y_at_y t Hnext).
    exists (with_state MOVING (at_y (pos_y (fig_pos t) + 1) t)).
    split; [reflexivity |]. split; [reflexivity |]. split; [reflexivity |].
    split; [discriminate | intros _; repeat split].
Qed.

Lemma on_shifting_state_step_witness :
  exists t' : Tetris,
    userInput 0 0 No_signal (with_state SHIFTING square_over_ledge) = Some t'
    /\ field (game t') = field (game square_over_ledge)
    /\ figure t' = figure square_over_ledge
    /\ pos_y (fig_pos t') = 0
    /\ state t' = MOVING.
Proof.
  assert (Hstate : state (with_state SHIFTING square_over_ledge) = SHIFTING)
    by reflexivity.
  assert (Hy : in_range (pos_y (fig_pos (with_state SHIFTING square_over_ledge))))
    by (vm_compute; split; discriminate).
  assert (Hroom : pos_y (fig_pos (with_state SHIFTING square_over_ledge)) < INT_MAX)
    by reflexivity.
  destruct (on_shifting_state_step 0 0 No_signal
              (with_state SHIFTING square_over_ledge) Hstate Hy Hroom)
    as (t' & Hstep & Hgame & Hfig & _ & Hfree).
  exists t'. destruct (Hfree eq_refl) as (Hy' & _ & Hst).
  split; [exact Hstep |]. split; [exact Hgame |]. split; [exact Hfig |].
  split; [exact Hy' | exact Hst].
Defined.

(** A set cell of a figure that does not collide is on a row of the field. *)
Lemma free_set_cell_row t i j :
  (i < SIDE_OF_FIGURE_SQUARE)%nat -> (j < SIDE_OF_FIGURE_SQUARE)%nat ->
  cell (figure t) i j = 1 ->
  in_range (pos_y (fig_pos t)) ->
  check_collide t = false ->
  0 <= pos_y (fig_pos t) + Z.of_nat i < Z.of_nat ROWS_MAP.
Proof.
  intros Hi Hj Hset Hy Hfree.
  rewrite check_collide_false in Hfree. specialize (Hfree i j Hi Hj).
  apply (collide_at_set t i j Hset) in Hfree. cbv zeta in Hfree.
  destruct (int_add_offset _ i Hy Hi) as [Heq | [Hneg _]]; lia.
Qed.

(** With fuel for the rows left under the figure, the loop of [movedown]
    stops at the first offset, from the current one on, where the figure
    collides. *)
Lemma movedown_loop_stops fuel : forall t i j,
  (i < SIDE_OF_FIGURE_SQUARE)%nat -> (j < SIDE_OF_FIGURE_SQUARE)%nat ->
  cell (figure t) i j = 1 ->
  in_range (pos_y (fig_pos t)) ->
  Z.max 0 (Z.of_nat ROWS_MAP - (pos_y (fig_pos t) + Z.of_nat i)) < Z.of_nat fuel ->
  exists y' : Z,
    pos_y (fig_pos t) <= y'
    /\ in_range y'
    /\ movedown_loop fuel t = Some (at_y y' t)
    /\ check_collide (at_y y' t) = true
    /\ (forall k, pos_y (fig_pos t) <= k < y' -> check_collide (at_y k t) = false).
Proof.
  induction fuel as [| fuel IH]; intros t i j Hi Hj Hset Hy Hfuel; [lia |].
  simpl. destruct (check_collide t) eqn:Hc.
  - exists (pos_y (fig_pos t)). rewrite at_y_same.
    split; [lia |]. split; [exact Hy |]. split; [reflexivity |].
    split; [exact Hc |]. intros k Hk. lia.
  - pose proof (free_set_cell_row t i j Hi Hj Hset Hy Hc) as Hrow.
    assert (Hnext : in_range (pos_y (fig_pos t) + 1)).
    { unfold in_range, INT_MIN, INT_MAX, ROWS_MAP in *. lia. }
    rewrite (incr_y_at_y t Hnext).
    destruct (IH (at_y (pos_y (fig_pos t) + 1) t) i j Hi Hj Hset Hnext)
      as (y' & Hle & Hr & Hloop & Hhit & Hfree).
    { rewrite at_y_pos_y. lia. }
    rewrite at_y_pos_y in Hle, Hfree. rewrite at_y_at_y in Hloop, Hhit.
    exists y'. split; [lia |]. split; [exact Hr |]. split; [exact Hloop |].
    split; [exact Hhit |].
    intros k Hk. destruct (Z.eq_dec k (pos_y (fig_pos t))) as [-> | Hne].
    + now rewrite at_y_same.
    + rewrite <- (at_y_at_y (pos_y (fig_pos t) + 1) k t). apply Hfree. lia.
Qed.

(** C8, as the code has it. In state MOVING, with a figure that has a set
    cell and does not collide where it is, action Down ends (21 units of fuel
    are enough) and leaves the figure at the resting offset of its straight
    fall: every offset from the current one to the new one is free of
    collision and the next one collides. The x offset, the figure and the
    field are unchanged, and the state becomes SHIFTING. *)
Theorem movedown_rests (fuel : nat) (random : Z) (t : Tetris)
    (Hstate : state t = MOVING)
    (Hset : has_set_cell (figure t))
    (Hy : in_range (pos_y (fig_pos t)))
    (Hfree : check_collide t = false)
    (Hfuel : (21 <= fuel)%nat) :
  exists t' : Tetris,
    userInput fuel random Down t = Some t'
    /\ resting_y t (pos_y (fig_pos t'))
    /\ pos_x (fig_pos t') = pos_x (fig_pos t)
    /\ figure t' = figure t
    /\ field (game t') = field (game t)
    /\ state t' = SHIFTING.
Proof.
  destruct Hset as (i & j & Hi & Hj & Hset).
  pose proof (free_set_cell_row t i j Hi Hj Hset Hy Hfree) as Hrow.
  destruct (movedown_loop_stops fuel t i j Hi Hj Hset Hy)
    as (y' & Hle & Hr & Hloop & Hhit & Hclear).
  { unfold ROWS_MAP in *. lia. }
  assert (Hlt : pos_y (fig_pos t) < y').
  { destruct (Z.eq_dec y' (pos_y (fig_pos t))) as [-> | Hne]; [| lia].
    rewrite at_y_same in Hhit. congruence. }
  assert (Hback : decr_y (at_y y' t) = at_y (y' - 1) t).
  { rewrite decr_y_at_y; rewrite at_y_pos_y; [reflexivity |].
    unfold in_range, INT_MIN, INT_MAX in *. lia. }
  exists (with_state SHIFTING (at_y (y' - 1) t)). split.
  - unfold userInput. rewrite Hstate. unfold on_moving_state, movedown.
    rewrite Hloop, Hback. simpl. now rewrite Hstate.
  - split; [| repeat split; reflexivity].
    unfold resting_y.
    change (pos_y (fig_pos (with_state SHIFTING (at_y (y' - 1) t)))) with (y' - 1).
    split; [lia |]. split.
    + intros k Hk. apply Hclear. lia.
    + replace (y' - 1 + 1) with y' by lia. exact Hhit.
Qed.

Lemma movedown_rests_witness :
  exists t' : Tetris,
    userInput 21 0 Down square_over_ledge = Some t'
    /\ resting_y square_over_ledge (pos_y (fig_pos t'))
    /\ figure t' = figure square_over_ledge
    /\ field (game t') = field (game square_over_ledge).
Proof.
  assert (Hstate : state square_over_ledge = MOVING) by reflexivity.
  assert (Hset : has_set_cell (figure square_over_ledge)).
  { exists 1%nat, 1%nat. repeat split; unfold SIDE_OF_FIGURE_SQUARE; lia. }
  assert (Hy : in_range (pos_y (fig_pos square_over_ledge)))
    by (vm_compute; split; discriminate).
  assert (Hfree : check_collide square_over_ledge = false) by reflexivity.
  assert (Hfuel : (21 <= 21)%nat) by lia.
  destruct (movedown_rests 21 0 square_over_ledge Hstate Hset Hy Hfree Hfuel)
    as (t' & Hstep & Hrest & _ & Hfig & Hfield & _).
  exists t'. split; [exact Hstep |]. split; [exact Hrest |].
  split; [exact Hfig | exact Hfield].
Defined.

(** On a field with room under a ledge, the offset where Down leaves the
    figure, on the ledge, is not the greatest one at which it does not
    collide: the figure would fit under the ledge as well. *)
Lemma movedown_not_greatest_free :
  state square_over_ledge = MOVING
  /\ has_set_cell (figure square_over_ledge)
  /\ check_collide square_over_ledge = false
  /\ exists t' : Tetris,
       userInput 21 0 Down square_over_ledge = Some t'
       /\ pos_y (fig_pos t') = 2
       /\ check_collide (at_y 17 square_over_ledge) = false
       /\ ~ greatest_free_y square_over_ledge (pos_y (fig_pos t')).
Proof.
  split; [reflexivity |]. split.
  { exists 1%nat, 1%nat. repeat split; unfold SIDE_OF_FIGURE_SQUARE; lia. }
  split; [reflexivity |].
  eexists. split; [vm_compute; reflexivity |].
  split; [reflexivity |]. split; [reflexivity |].
  intros (_ & _ & Hmax). specialize (Hmax 17).
  simpl in Hmax. assert (H17 : 17 <= 2) by (apply Hmax; [lia | reflexivity]). lia.
Qed.

(** ** The step in state ATTACHING *)

(** The state [on_attaching_state] leaves, from the stats and the field it
    has computed: GAMEOVER above the maximum level; otherwise SPAWN when the
    figure collides with the field as it is after the rows went, and
    ATTACHING again when it does not. *)
Lemma on_attaching_state_state t :
  state t = ATTACHING ->
  let t1 :=
    recalculate_stats (fst (destruction_of_rows (attach_figure_to_field t)))
      (snd (destruction_of_rows (attach_figure_to_field t))) in
  game (on_attaching_state t) = game t1
  /\ state (on_attaching_state t)
     = if level (game t1) >? MAX_LEVEL then GAMEOVER
       else if check_collide t1 then SPAWN else ATTACHING.
Proof.
  intros Hstate t1.
  assert (Hst1 : state t1 = ATTACHING).
  { unfold t1, recalculate_stats. destruct (_ =? 0); exact Hstate. }
  change (on_attaching_state t)
    with (let t2 :=
            if TetrisState_eqb (state t1) ATTACHING && check_collide t1
            then with_state SPAWN t1 else t1 in
          if level (game t2) >? MAX_LEVEL then with_state GAMEOVER t2 else t2).
  clearbody t1. rewrite Hst1.
  change (TetrisState_eqb ATTACHING ATTACHING) with true.
  cbv zeta. rewrite andb_true_l.
  destruct (check_collide t1);
    [ change (game (with_state SPAWN t1)) with (game t1) |];
    destruct (level (game t1) >? MAX_LEVEL); split; reflexivity || exact Hst1.
Qed.

(** C1, where the code departs from it. The bar lies on the bottom row and
    completes it. The step in state ATTACHING attaches the bar, clears the
    row and scores it; the level is 1, yet the controller is left in
    ATTACHING, not in SPAWN, because the bar no longer collides with the
    emptied field. The next step attaches the bar a second time, and only
    then goes to SPAWN, with four cells of the cleared row filled again. *)
Theorem attaching_stays_attaching :
  state bar_completes_bottom = ATTACHING
  /\ exists t1 t2 : Tetris,
       userInput 0 0 No_signal bar_completes_bottom = Some t1
       /\ state t1 = ATTACHING
       /\ level (game t1) = 1
       /\ score (game t1) = 100
       /\ field (game t1) = replicate ROWS_MAP zero_row
       /\ userInput 0 0 No_signal t1 = Some t2
       /\ state t2 = SPAWN
       /\ field (game t2)
          = replicate 19 zero_row ++ [[0; 0; 0; 0; 0; 0; 1; 1; 1; 1]].
Proof.
  split; [reflexivity |].
  eexists. eexists.
  split; [vm_compute; reflexivity |].
  split; [reflexivity |]. split; [reflexivity |]. split; [reflexivity |].
  split; [reflexivity |].
  split; [vm_compute; reflexivity |].
  split; reflexivity.
Qed.

(** ** The record of the high score *)

(** *** The text of a number *)

Lemma code_digit_char d : 0 <= d < 10 -> code (digit_char d) = 48 + d.
Proof.
  intros Hd. unfold code, digit_char.
  rewrite N_ascii_embedding by lia. lia.
Qed.

Lemma is_digit_digit_char d : 0 <= d < 10 -> is_digit (digit_char d) = true.
Proof.
  intros Hd. unfold is_digit. rewrite (code_digit_char d Hd).
  apply andb_true_iff. split; apply Z.leb_le; lia.
Qed.

Lemma is_digit_not_space c : is_digit c = true -> is_space c = false.
Proof.
  unfold is_digit, is_space. intros Hd.
  apply andb_true_iff in Hd as [H1 H2]. apply Z.leb_le in H1, H2.
  apply orb_false_iff. split; [apply Z.eqb_neq; lia |].
  apply andb_false_iff. right. apply Z.leb_gt. lia.
Qed.

Lemma scan_digits_app fuel : forall n acc rest,
  0 <= n < 10 ^ Z.of_nat fuel ->
  scan_digits acc (digits_of fuel n ++ rest)
  = scan_digits (acc * 10 ^ Z.of_nat (length (digits_of fuel n)) + n) rest.
Proof.
  induction fuel as [| fuel IH]; intros n acc rest Hn.
  - change (10 ^ Z.of_nat 0) with 1 in Hn. cbn [digits_of app length].
    apply (f_equal (fun a => scan_digits a rest)).
    change (10 ^ Z.of_nat 0) with 1. lia.
  - cbn [digits_of]. destruct (Z.ltb_spec n 10) as [Hlt | Hge].
    + cbn [app length scan_digits].
      rewrite is_digit_digit_char, code_digit_char by lia.
      apply (f_equal (fun a => scan_digits a rest)).
      change (10 ^ Z.of_nat 1) with 10. lia.
    + rewrite <- app_assoc. rewrite IH.
      * cbn [app scan_digits].
        rewrite is_digit_digit_char, code_digit_char
          by (apply Z.mod_pos_bound; lia).
        apply (f_equal (fun a => scan_digits a rest)).
        rewrite length_app. cbn [length].
        rewrite Nat.add_1_r, Nat2Z.inj_succ, Z.pow_succ_r by lia.
        pose proof (Z.div_mod n 10 ltac:(lia)). nia.
      * rewrite Nat2Z.inj_succ, Z.pow_succ_r in Hn by lia.
        split; [apply Z.div_pos; lia | apply Z.div_lt_upper_bound; lia].
Qed.

Lemma digits_of_head fuel n :
  0 <= n ->
  exists c l, digits_of (S fuel) n = c :: l /\ is_digit c = true.
Proof.
  revert n. induction fuel as [| fuel IH]; intros n Hn.
  - cbn [digits_of]. destruct (Z.ltb_spec n 10).
    + eexists _, _. split; [reflexivity | apply is_digit_digit_char; lia].
    + eexists _, _. split; [reflexivity |].
      apply is_digit_digit_char, Z.mod_pos_bound. lia.
  - change (digits_of (S (S fuel)) n)
      with (if n <? 10 then [digit_char n]
            else digits_of (S fuel) (n / 10) ++ [digit_char (n mod 10)]).
    destruct (Z.ltb_spec n 10).
    + eexists _, _. split; [reflexivity | apply is_digit_digit_char; lia].
    + destruct (IH (n / 10) ltac:(apply Z.div_pos; lia)) as (c & l & -> & Hc).
      eexists _, _. split; [reflexivity | exact Hc].
Qed.

Lemma scan_number_digits fuel n :
  0 <= n < 10 ^ Z.of_nat (S fuel) ->
  scan_number (digits_of (S fuel) n) = Some n.
Proof.
  intros Hn. destruct (digits_of_head fuel n ltac:(lia)) as (c & l & Heq & Hc).
  unfold scan_number. rewrite Heq, Hc, <- Heq.
  rewrite <- (app_nil_r (digits_of (S fuel) n)), scan_digits_app by exact Hn.
  reflexivity.
Qed.

(** What the program writes, it reads back. *)
Lemma scan_int_print_int v : in_range v -> scan_int (print_int v) = Some v.
Proof.
  unfold in_range, INT_MIN, INT_MAX. intros Hv.
  unfold print_int. destruct (Z.ltb_spec v 0) as [Hneg | Hpos].
  - unfold scan_int. cbn [skip_space]. change (is_space "-") with false.
    cbv iota. change (code "-" =? 45) with true. cbv iota.
    rewrite (scan_number_digits 9) by (change (10 ^ Z.of_nat 10) with 10000000000; lia).
    cbn [fmap option_fmap option_map]. f_equal. lia.
  - destruct (digits_of_head 9 v Hpos) as (c & l & Heq & Hc).
    pose proof (scan_number_digits 9 v
                  ltac:(change (10 ^ Z.of_nat 10) with 10000000000; lia)) as Hscan.
    rewrite Heq in *. unfold scan_int. cbn [skip_space].
    rewrite (is_digit_not_space c Hc).
    assert (Hcode : 48 <= code c <= 57).
    { unfold is_digit in Hc. apply andb_true_iff in Hc as [H1 H2].
      apply Z.leb_le in H1, H2. lia. }
    destruct (Z.eqb_spec (code c) 45); [lia |].
    destruct (Z.eqb_spec (code c) 43); [lia |].
    exact Hscan.
Qed.

Lemma digits_of_length_mono fuel : forall n m,
  0 <= n <= m -> (length (digits_of fuel n) <= length (digits_of fuel m))%nat.
Proof.
  induction fuel as [| fuel IH]; intros n m Hnm; [reflexivity |].
  cbn [digits_of].
  destruct (Z.ltb_spec m 10) as [Hm | Hm].
  - destruct (Z.ltb_spec n 10); [reflexivity | lia].
  - rewrite (length_app (digits_of fuel (m / 10))). cbn [length].
    destruct (Z.ltb_spec n 10) as [Hn | Hn]; [cbn [length]; lia |].
    rewrite length_app. cbn [length].
    specialize (IH (n / 10) (m / 10)
                  ltac:(split; [apply Z.div_pos; lia | apply Z.div_le_mono; lia])).
    lia.
Qed.

(** A score above a record that is not negative covers its text. *)
Lemma overwrite_print_int v s :
  0 <= v <= s -> overwrite (print_int s) (print_int v) = print_int s.
Proof.
  intros Hvs. unfold overwrite, print_int.
  destruct (Z.ltb_spec s 0); [lia |]. destruct (Z.ltb_spec v 0); [lia |].
  rewrite drop_ge by (apply digits_of_length_mono; lia).
  apply app_nil_r.
Qed.

(** *** The update *)

Lemma consults_note_guard g :
  (high_score g =? 0) || (score g >? high_score g) = true <-> consults_note g.
Proof.
  unfold consults_note. rewrite orb_true_iff, Z.eqb_eq, Z.gtb_ltb, Z.ltb_lt. lia.
Qed.

(** The error code of [high_score_update]. *)
Lemma high_score_update_code t :
  fst (high_score_update t)
  = if (high_score (game t) =? 0) || (score (game t) >? high_score (game t)) then
      match fopen_update (record_note t) with
      | Some _ => NO_ERROR
      | None => if fopen_write (record_note t) then NO_ERROR else ERROR
      end
    else NO_ERROR.
Proof.
  unfold high_score_update.
  destruct ((high_score (game t) =? 0) || (score (game t) >? high_score (game t)));
    [| reflexivity].
  destruct (fopen_update (record_note t)) as [content |].
  - destruct (score (fscanf_high_score content (game t))
              >? high_score (fscanf_high_score content (game t))); reflexivity.
  - destruct (fopen_write (record_note t)); reflexivity.
Qed.

Lemma high_score_update_error t :
  fst (high_score_update t) = ERROR <->
  consults_note (game t) /\ note_unreachable (record_note t).
Proof.
  rewrite high_score_update_code, <- consults_note_guard. unfold note_unreachable.
  destruct ((high_score (game t) =? 0) || (score (game t) >? high_score (game t)));
    destruct (fopen_update (record_note t)) as [content |];
    destruct (fopen_write (record_note t));
    unfold NO_ERROR, ERROR; split; try discriminate; try tauto;
    intros (? & ? & ?); discriminate.
Qed.

Lemma fopen_update_text r txt :
  fopen_update r = Some txt -> note_text r = Some txt.
Proof.
  unfold fopen_update. destruct (note_text r) as [old |]; [| discriminate].
  destruct (update_ok r); [| discriminate]. intros Heq. exact Heq.
Qed.

Lemma stored_print_int r v :
  note_text r = Some (print_int v) -> in_range v -> stored r = Some v.
Proof. intros Htext Hv. unfold stored. rewrite Htext. now apply scan_int_print_int. Qed.

(** Without a look at the file, nothing happens. *)
Lemma high_score_update_skipped t :
  ~ consults_note (game t) -> high_score_update t = (NO_ERROR, t).
Proof.
  intros Hno. unfold high_score_update.
  destruct ((high_score (game t) =? 0) || (score (game t) >? high_score (game t)))
    eqn:Hguard; [| reflexivity].
  apply consults_note_guard in Hguard. contradiction.
Qed.

(** The update on a file opened for update whose text denotes [n], a number
    that fits in an [int]. *)
Lemma high_score_update_read t txt n :
  consults_note (game t) ->
  fopen_update (record_note t) = Some txt ->
  scan_int txt = Some n -> in_range n ->
  high_score (game (snd (high_score_update t))) = Z.max n (score (game t))
  /\ note_text (record_note (snd (high_score_update t)))
     = Some (if score (game t) >? n
             then overwrite (print_int (score (game t))) txt else txt).
Proof.
  intros Hguard Hopen Hscan Hn.
  pose proof (fopen_update_text _ _ Hopen) as Htext.
  apply consults_note_guard in Hguard.
  unfold high_score_update. rewrite Hguard, Hopen.
  unfold fscanf_high_score. rewrite Hscan, (wrap_in_range n Hn). cbv zeta.
  change (score (with_high_score n (game t))) with (score (game t)).
  change (high_score (with_high_score n (game t))) with n.
  destruct (Z.gtb_spec (score (game t)) n) as [Hgt | Hle].
  - split; [| reflexivity].
    cbn [snd game high_score with_game with_high_score]. lia.
  - split; [| exact Htext].
    cbn [snd game high_score with_game with_high_score]. lia.
Qed.

(** The update on a file opened for update that holds the text of [v], a
    number that is not negative: the larger of [v] and the score. *)
Lemma high_score_update_opened t v :
  consults_note (game t) ->
  in_range (score (game t)) -> 0 <= v <= INT_MAX ->
  fopen_update (record_note t) = Some (print_int v) ->
  note_text (record_note (snd (high_score_update t)))
  = Some (print_int (Z.max v (score (game t))))
  /\ high_score (game (snd (high_score_update t))) = Z.max v (score (game t)).
Proof.
  intros Hguard Hs Hv Hopen.
  assert (Hr : in_range v) by (unfold in_range, INT_MIN, INT_MAX in *; lia).
  pose proof (scan_int_print_int v Hr) as Hscan.
  destruct (high_score_update_read t _ v Hguard Hopen Hscan Hr) as [Hh Hn].
  split; [| exact Hh]. rewrite Hn.
  destruct (Z.gtb_spec (score (game t)) v) as [Hgt | Hle].
  - rewrite overwrite_print_int by lia. now rewrite Z.max_r by lia.
  - now rewrite Z.max_l by lia.
Qed.

(** C9, as the code has it. [high_score_update] goes to the record file only
    when the high score in memory is 0 or the score exceeds it: otherwise it
    succeeds and changes nothing. It fails exactly when it goes to the file
    and the file can be opened neither for update nor for writing. In a new
    session (high score 0) with score 100, no record and a file that can be
    created, it succeeds and the record becomes the text 100; a later new
    session with score 50 that opens this record for update succeeds and
    leaves it as it is. Whenever the record holds the decimal text of a
    number from 0 to [INT_MAX], as the program writes it, and can be opened
    for update, the update (of a score that is an [int]) succeeds and leaves
    the text of such a number, not less than the one before. *)
Theorem high_score_update_record (t : Tetris) :
  (~ consults_note (game t) -> high_score_update t = (NO_ERROR, t))
  /\ (fst (high_score_update t) = ERROR <->
      consults_note (game t) /\ note_unreachable (record_note t))
  /\ (fst (high_score_update t) = NO_ERROR \/ fst (high_score_update t) = ERROR)
  /\ (note_text (record_note t) = None ->
      write_ok (record_note t) = true ->
      high_score (game t) = 0 ->
      score (game t) = 100 ->
      fst (high_score_update t) = NO_ERROR
      /\ note_text (record_note (snd (high_score_update t)))
         = Some ["1"; "0"; "0"]%char
      /\ stored (record_note (snd (high_score_update t))) = Some 100
      /\ forall t2 : Tetris,
           note_text (record_note t2)
           = note_text (record_note (snd (high_score_update t))) ->
           update_ok (record_note t2) = true ->
           high_score (game t2) = 0 ->
           score (game t2) = 50 ->
           fst (high_score_update t2) = NO_ERROR
           /\ note_text (record_note (snd (high_score_update t2)))
              = Some ["1"; "0"; "0"]%char
           /\ stored (record_note (snd (high_score_update t2))) = Some 100)
  /\ (forall v : Z,
         0 <= v <= INT_MAX ->
         in_range (score (game t)) ->
         note_text (record_note t) = Some (print_int v) ->
         update_ok (record_note t) = true ->
         fst (high_score_update t) = NO_ERROR
         /\ exists v' : Z,
              0 <= v' <= INT_MAX
              /\ note_text (record_note (snd (high_score_update t)))
                 = Some (print_int v')
              /\ stored (record_note (snd (high_score_update t))) = Some v'
              /\ v <= v').
Proof.
  split; [apply high_score_update_skipped |].
  split; [apply high_score_update_error |].
  split.
  { rewrite high_score_update_code.
    destruct (_ || _); [| now left].
    destruct (fopen_update _); [now left |].
    destruct (fopen_write _); [now left | now right]. }
  split.
  - intros Hnone Hwrite Hh Hs.
    assert (Hfirst : high_score_update t
                     = (NO_ERROR,
                        with_record_note (fprintf_note 100 [] (record_note t)) t)).
    { unfold high_score_update, fopen_update, fopen_write.
      rewrite Hh, Hs, Hnone, Hwrite. reflexivity. }
    rewrite Hfirst. split; [reflexivity |].
    assert (Htext : note_text
                      (record_note
                         (snd (NO_ERROR,
                               with_record_note
                                 (fprintf_note 100 [] (record_note t)) t)))
                    = Some ["1"; "0"; "0"]%char) by reflexivity.
    split; [exact Htext |].
    split; [unfold stored; rewrite Htext; vm_compute; reflexivity |].
    intros t2 Hnote Hupd Hh2 Hs2. rewrite Htext in Hnote.
    assert (Hopen : fopen_update (record_note t2) = Some (print_int 100)).
    { unfold fopen_update. rewrite Hnote, Hupd. reflexivity. }
    assert (Hguard : consults_note (game t2)) by (left; exact Hh2).
    assert (Hs2r : in_range (score (game t2))).
    { rewrite Hs2. unfold in_range, INT_MIN, INT_MAX. lia. }
    split.
    + rewrite high_score_update_code, Hopen.
      now destruct (_ || _).
    + destruct (high_score_update_opened t2 100 Hguard Hs2r
                  ltac:(unfold INT_MAX; lia) Hopen) as [Hn _].
      rewrite Hs2 in Hn. split; [exact Hn |].
      unfold stored. rewrite Hn. vm_compute. reflexivity.
  - intros v Hv Hs Hnote Hupd.
    assert (Hopen : fopen_update (record_note t) = Some (print_int v)).
    { unfold fopen_update. now rewrite Hnote, Hupd. }
    split.
    + rewrite high_score_update_code, Hopen. now destruct (_ || _).
    + destruct (consults_note_guard (game t)) as [Hto _].
      destruct ((high_score (game t) =? 0) || (score (game t) >? high_score (game t)))
        eqn:Hguard.
      * destruct (high_score_update_opened t v (Hto eq_refl) Hs Hv Hopen) as [Hn _].
        assert (Hmax : 0 <= Z.max v (score (game t)) <= INT_MAX).
        { unfold in_range, INT_MIN, INT_MAX in *. lia. }
        exists (Z.max v (score (game t))). split; [exact Hmax |].
        split; [exact Hn |]. split; [| lia].
        apply (stored_print_int _ _ Hn).
        unfold in_range, INT_MIN, INT_MAX in *. lia.
      * unfold high_score_update. rewrite Hguard. exists v.
        split; [exact Hv |]. split; [exact Hnote |]. split; [| lia].
        apply (stored_print_int _ _ Hnote).
        unfold in_range, INT_MIN, INT_MAX in *. lia.
Qed.

Lemma high_score_update_record_witness :
  fst (high_score_update (scoring_session 100 0 no_note)) = NO_ERROR
  /\ stored (record_note (snd (high_score_update (scoring_session 100 0 no_note))))
     = Some 100
  /\ fst (high_score_update
            (scoring_session 50 0
               (record_note (snd (high_score_update (scoring_session 100 0 no_note))))))
     = NO_ERROR
  /\ stored
       (record_note
          (snd (high_score_update
                  (scoring_session 50 0
                     (record_note
                        (snd (high_score_update (scoring_session 100 0 no_note))))))))
     = Some 100
  /\ high_score_update (scoring_session 50 100 lost_note)
     = (NO_ERROR, scoring_session 50 100 lost_note).
Proof.
  destruct (high_score_update_record (scoring_session 100 0 no_note))
    as (_ & _ & _ & Hscenario & _).
  destruct (Hscenario eq_refl eq_refl eq_refl eq_refl)
    as (Hcode & _ & Hnote & Hlater).
  split; [exact Hcode |]. split; [exact Hnote |].
  destruct (Hlater
              (scoring_session 50 0
                 (record_note (snd (high_score_update (scoring_session 100 0 no_note)))))
              eq_refl eq_refl eq_refl eq_refl) as (Hcode2 & _ & Hnote2).
  split; [exact Hcode2 |]. split; [exact Hnote2 |].
  destruct (high_score_update_record (scoring_session 50 100 lost_note))
    as (Hskip & _).
  apply Hskip. unfold consults_note. cbn. lia.
Defined.

(** Two configurations where the update is not as the specification words
    it. With a high score of 100 in memory and a score of 50 the update does
    not go to the file: it succeeds although the file can be neither read nor
    written. With a record of 100 that can be opened for writing only, a new
    session with score 50 succeeds and overwrites the record with 50. *)
Lemma high_score_update_not_as_stated :
  ~ fails_when_unreachable (scoring_session 50 100 lost_note)
  /\ ~ record_not_lowered (scoring_session 50 0 write_only_note).
Proof.
  split.
  - intros [_ Hfail].
    assert (Hcode : fst (high_score_update (scoring_session 50 100 lost_note))
                    = ERROR).
    { apply Hfail. split; reflexivity. }
    vm_compute in Hcode. discriminate Hcode.
  - intros Hkeep.
    assert (Hle : 100 <= 50).
    { apply (Hkeep eq_refl 100 50); vm_compute; reflexivity. }
    lia.
Qed.

(** ** Clearing rows *)

(** [check_finished_row] on a row of the field. *)
Lemma check_finished_row_loop (row : list Z) i0 n :
  for_while (fun finished_row => finished_row =? 1)
    (fun j finished_row =>
       if negb (default 0 (row !! j) =? 1) then 0 else finished_row)
    i0 n 1
  = if forallb (fun j => default 0 (row !! j) =? 1) (seq i0 n) then 1 else 0.
Proof.
  revert i0. induction n as [| n IH]; intros i0; [reflexivity |].
  change (seq i0 (S n)) with (i0 :: seq (S i0) n).
  unfold for_while; fold (@for_while Z). simpl forallb.
  change (1 =? 1) with true. cbv iota.
  destruct (default 0 (row !! i0) =? 1); simpl.
  - apply IH.
  - destruct n; reflexivity.
Qed.

Lemma forallb_row_complete (row : list Z) :
  forallb (fun j => default 0 (row !! j) =? 1) (seq 0 (length row)) = true
  <-> complete_row row.
Proof.
  unfold complete_row. rewrite forallb_forall, Forall_lookup. split.
  - intros Hall j c Hc.
    specialize (Hall j). rewrite Hc in Hall. simpl in Hall.
    apply Z.eqb_eq, Hall, in_seq. apply lookup_lt_Some in Hc. lia.
  - intros Hall j Hj. apply in_seq in Hj.
    destruct (row !! j) as [c |] eqn:Hc.
    + simpl. apply Z.eqb_eq. exact (Hall j c Hc).
    + apply lookup_ge_None in Hc. lia.
Qed.

Lemma check_finished_row_complete (row : list Z) :
  length row = COLS_MAP ->
  check_finished_row row = if decide (complete_row row) then 1 else 0.
Proof.
  intros Hlen. unfold check_finished_row. rewrite check_finished_row_loop.
  rewrite <- Hlen.
  destruct (forallb _ _) eqn:Hall.
  - apply forallb_row_complete in Hall. now rewrite decide_True.
  - rewrite decide_False; [reflexivity |].
    intros Hc. apply forallb_row_complete in Hc. congruence.
Qed.

(** [m[i][j] = v] on a matrix whose row [i] is given. *)
Lemma set_cell_insert (m : Matrix) i j v (row : list Z) :
  (i < length m)%nat ->
  set_cell (<[i := row]> m) i j v = <[i := <[j := v]> row]> m.
Proof.
  unfold set_cell. revert i. induction m as [| r m IH]; intros i Hi; simpl in Hi.
  - lia.
  - destruct i as [| i]; simpl; [reflexivity |]. f_equal. apply IH. lia.
Qed.

Lemma cell_insert_ne (m : Matrix) i i' j (row : list Z) :
  i <> i' -> cell (<[i := row]> m) i' j = cell m i' j.
Proof. intros Hne. unfold cell. now rewrite list_lookup_insert_ne. Qed.

(** Overwriting one more cell of a row that is copied from left to right. *)
Lemma insert_copied_prefix (new old : list Z) k v :
  new !! k = Some v -> (k < length old)%nat ->
  <[k := v]> (take k new ++ drop k old) = take (S k) new ++ drop (S k) old.
Proof.
  intros Hnew Hold.
  assert (Hk : length (take k new) = k).
  { rewrite length_take. apply lookup_lt_Some in Hnew. lia. }
  rewrite insert_app_r_alt by lia. rewrite Hk, Nat.sub_diag.
  destruct (lookup_lt_is_Some_2 old k Hold) as [o Ho].
  rewrite (drop_S old o k Ho). simpl.
  rewrite (take_S_r new k v Hnew). now rewrite <- app_assoc.
Qed.

(** The inner loop of [shift_rows_down] puts the row above, or zeros at the
    top, in place of row [i]. *)
Lemma shift_one_row (f : Matrix) i :
  field_dims f -> (i < length f)%nat ->
  for_up
    (fun j f => set_cell f i j (if (0 <? i)%nat then cell f (i - 1) j else 0))
    0 COLS_MAP f
  = <[i := if (0 <? i)%nat then default [] (f !! (i - 1)%nat) else zero_row]> f.
Proof.
  intros [Hlen Hrows] Hi.
  destruct (lookup_lt_is_Some_2 f i Hi) as [old Hold].
  set (new := if (0 <? i)%nat then default [] (f !! (i - 1)%nat) else zero_row).
  assert (Hnewlen : length new = COLS_MAP).
  { unfold new. destruct (Nat.ltb_spec 0 i) as [Hpos | _]; [| reflexivity].
    destruct (lookup_lt_is_Some_2 f (i - 1) ltac:(lia)) as [above Habove].
    rewrite Habove. simpl. rewrite Forall_lookup in Hrows. exact (Hrows _ _ Habove). }
  assert (Holdlen : length old = COLS_MAP).
  { rewrite Forall_lookup in Hrows. exact (Hrows _ _ Hold). }
  assert (Hsrc : forall (g : Matrix) (row : list Z) j,
             (j < COLS_MAP)%nat ->
             g = <[i := row]> f ->
             new !! j = Some (if (0 <? i)%nat then cell g (i - 1) j else 0)).
  { intros g row j Hj ->. unfold new.
    destruct (Nat.ltb_spec 0 i) as [Hpos | _].
    - rewrite cell_insert_ne by lia. unfold cell.
      destruct (lookup_lt_is_Some_2 f (i - 1) ltac:(lia)) as [above Habove].
      rewrite Habove. simpl.
      assert (Hab : length above = COLS_MAP).
      { rewrite Forall_lookup in Hrows. exact (Hrows _ _ Habove). }
      destruct (lookup_lt_is_Some_2 above j ltac:(lia)) as [c Hc].
      now rewrite Hc.
    - unfold zero_row. now apply lookup_replicate_2. }
  pose proof (for_up_inv_at
                (fun k (g : Matrix) => g = <[i := take k new ++ drop k old]> f)
                (fun j f => set_cell f i j
                              (if (0 <? i)%nat then cell f (i - 1) j else 0))
                0 COLS_MAP f) as Hinv.
  simpl in Hinv. rewrite Hinv.
  - f_equal. rewrite <- Hnewlen at 1. rewrite firstn_all.
    rewrite <- Holdlen. rewrite drop_all. apply app_nil_r.
  - simpl. symmetry. now apply list_insert_id.
  - intros k g Hk ->.
    rewrite set_cell_insert by exact Hi. f_equal.
    apply insert_copied_prefix; [| lia].
    apply (Hsrc _ (take k new ++ drop k old)); [lia | reflexivity].
Qed.

Lemma insert_field_dims (f : Matrix) i (row : list Z) :
  field_dims f -> length row = COLS_MAP -> field_dims (<[i := row]> f).
Proof.
  intros [Hlen Hrows] Hrow. split.
  - now rewrite length_insert.
  - now apply Forall_insert.
Qed.

Lemma field_dims_row (f : Matrix) i (row : list Z) :
  field_dims f -> f !! i = Some row -> length row = COLS_MAP.
Proof. intros [_ Hrows] Hrow. rewrite Forall_lookup in Hrows. eauto. Qed.

(** [shift_rows_down(row)] takes row [row] out and lets the rows above it
    down by one under a new row of zeros. *)
Lemma shift_rows_down_collapse row : forall f : Matrix,
  field_dims f -> (row < length f)%nat ->
  shift_rows_down row f = zero_row :: take row f ++ drop (S row) f.
Proof.
  unfold shift_rows_down.
  induction row as [| i IH]; intros f Hdims Hrow.
  - unfold for_down. rewrite shift_one_row by assumption.
    change (0 <? 0)%nat with false. cbv iota.
    destruct f as [| r f]; [simpl in Hrow; lia | reflexivity].
  - change (for_down ?body (S i) f) with (for_down body i (body (S i) f)).
    cbv beta. rewrite shift_one_row by assumption.
    change (0 <? S i)%nat with true. cbv iota.
    replace (S i - 1)%nat with i by lia.
    destruct (lookup_lt_is_Some_2 f i ltac:(lia)) as [above Habove].
    rewrite Habove. simpl default.
    rewrite IH.
    + f_equal. rewrite take_insert_ge by lia.
      rewrite (drop_S (<[S i := above]> f) above (S i))
        by (now apply list_lookup_insert_eq).
      rewrite drop_insert_lt by lia.
      rewrite (take_S_r f i above Habove), <- app_assoc. reflexivity.
    + apply insert_field_dims; [exact Hdims |].
      exact (field_dims_row f i above Hdims Habove).
    + rewrite length_insert. lia.
Qed.

(** The loop of [destruction_of_rows] from row [length pre] on: the rows of
    [pre] have been looked at, those of [suf] are still to come. *)
Lemma destruction_loop_from (suf : Matrix) : forall (pre : Matrix) (n0 : Z),
  field_dims (pre ++ suf) ->
  for_up
    (fun i st =>
       if negb (check_finished_row (default [] (snd st !! i)) =? 0)
       then (fst st + 1, shift_rows_down i (snd st))
       else st)
    (length pre) (length suf) (n0, pre ++ suf)
  = (n0 + Z.of_nat (length (filter complete_row suf)),
     replicate (length (filter complete_row suf)) zero_row
     ++ pre ++ filter (fun row => ~ complete_row row) suf).
Proof.
  induction suf as [| row suf IH]; intros pre n0 Hdims.
  - simpl. rewrite Z.add_0_r. reflexivity.
  - change (length (row :: suf)) with (S (length suf)).
    change (for_up ?body (length pre) (S (length suf)) ?st)
      with (for_up body (S (length pre)) (length suf) (body (length pre) st)).
    cbv beta. simpl fst. simpl snd.
    assert (Hrow : (pre ++ row :: suf) !! length pre = Some row).
    { rewrite lookup_app_r by lia. now rewrite Nat.sub_diag. }
    assert (Hdrop : drop (S (length pre)) (pre ++ row :: suf) = suf).
    { rewrite (cons_middle row pre suf), app_assoc.
      replace (S (length pre)) with (length (pre ++ [row]))
        by (rewrite length_app; simpl; lia).
      apply drop_app_length. }
    rewrite Hrow. simpl default.
    rewrite (check_finished_row_complete row)
      by exact (field_dims_row _ _ _ Hdims Hrow).
    destruct (decide (complete_row row)) as [Hfull | Hpart].
    + change (negb (1 =? 0)) with true. cbv iota.
      rewrite shift_rows_down_collapse;
        [| exact Hdims | rewrite length_app; simpl; lia].
      rewrite take_app_length, Hdrop.
      change (S (length pre)) with (length (zero_row :: pre)).
      change (zero_row :: pre ++ suf) with ((zero_row :: pre) ++ suf).
      rewrite IH.
      * rewrite filter_cons_True by exact Hfull.
        rewrite (filter_cons_False (fun r => ~ complete_row r)) by tauto.
        simpl length. f_equal; [lia |].
        rewrite replicate_S_end, <- !app_assoc. reflexivity.
      * destruct Hdims as [Hlen Hrows]. split.
        -- rewrite <- Hlen. rewrite !length_app. simpl. lia.
        -- simpl. apply Forall_cons. split; [reflexivity |].
           rewrite Forall_app in Hrows. destruct Hrows as [Hpre Hsuf].
           apply Forall_app. split; [exact Hpre |].
           now apply Forall_cons in Hsuf as [_ Hsuf].
    + change (negb (0 =? 0)) with false. cbv iota.
      replace (S (length pre)) with (length (pre ++ [row]))
        by (rewrite length_app; simpl; lia).
      rewrite (cons_middle row pre suf), app_assoc. rewrite IH.
      * rewrite filter_cons_False by exact Hpart.
        rewrite (filter_cons_True (fun r => ~ complete_row r)) by exact Hpart.
        rewrite <- !app_assoc. reflexivity.
      * now rewrite <- app_assoc.
Qed.

Lemma destruction_loop_collapse (f : Matrix) :
  field_dims f ->
  destruction_loop f
  = (Z.of_nat (length (filter complete_row f)),
     replicate (length (filter complete_row f)) zero_row
     ++ filter (fun row => ~ complete_row row) f).
Proof.
  intros Hdims. unfold destruction_loop.
  replace ROWS_MAP with (length f) by (apply Hdims).
  exact (destruction_loop_from f [] 0 Hdims).
Qed.

(** Settle whether row [r], of index [i], satisfies the predicate that
    [Hrows] describes by the index. *)
Ltac settle_row Hrows i r :=
  let H := fresh "Hrow" in
  pose proof (Hrows i r eq_refl) as H;
  first [ apply proj2 in H; specialize (H ltac:(lia))
        | apply proj1 in H;
          let Hn := fresh "Hn" in
          assert (Hn : forall A B : Prop, (A -> B) -> ~ B -> ~ A) by tauto;
          apply Hn in H; [clear Hn | lia] ].

(** Filtering a list of 20 rows of which exactly those of index 3 and 7
    satisfy [P]. *)
Lemma filter_rows_3_7 (P : list Z -> Prop) `{forall row, Decision (P row)}
    (f : Matrix) :
  length f = ROWS_MAP ->
  (forall (i : nat) (row : list Z),
      f !! i = Some row -> (P row <-> i = 3%nat \/ i = 7%nat)) ->
  length (filter P f) = 2%nat
  /\ filter (fun row => ~ P row) f = take 3 f ++ take 3 (drop 4 f) ++ drop 8 f.
Proof.
  intros Hlen Hrows.
  destruct f as [| r0 [| r1 [| r2 [| r3 [| r4 [| r5 [| r6 [| r7 [| r8 [| r9
    [| r10 [| r11 [| r12 [| r13 [| r14 [| r15 [| r16 [| r17 [| r18 [| r19
    [| r20 f]]]]]]]]]]]]]]]]]]]]]; try discriminate Hlen.
  clear Hlen.
  settle_row Hrows 0%nat r0. settle_row Hrows 1%nat r1. settle_row Hrows 2%nat r2.
  settle_row Hrows 3%nat r3. settle_row Hrows 4%nat r4. settle_row Hrows 5%nat r5.
  settle_row Hrows 6%nat r6. settle_row Hrows 7%nat r7. settle_row Hrows 8%nat r8.
  settle_row Hrows 9%nat r9. settle_row Hrows 10%nat r10.
  settle_row Hrows 11%nat r11. settle_row Hrows 12%nat r12.
  settle_row Hrows 13%nat r13. settle_row Hrows 14%nat r14.
  settle_row Hrows 15%nat r15. settle_row Hrows 16%nat r16.
  settle_row Hrows 17%nat r17. settle_row Hrows 18%nat r18.
  settle_row Hrows 19%nat r19.
  split.
  - repeat first [ rewrite filter_cons_True by assumption
                 | rewrite filter_cons_False by assumption ].
    reflexivity.
  - repeat first [ rewrite filter_cons_True by assumption
                 | rewrite filter_cons_False by tauto ].
    reflexivity.
Qed.

(** C3. On a 20x10 field, [destruction_of_rows] returns the number of rows
    whose cells are all 1 and leaves the field with those rows taken out, as
    many rows of zeros put on top, and the other rows in their order. When
    rows 3 and 7, and only they, are complete it returns 2 and leaves two
    rows of zeros followed by rows 0 to 2, 4 to 6 and 8 to 19. *)
Theorem destruction_of_rows_collapses (t : Tetris)
    (Hdims : field_dims (field (game t))) :
  let f := field (game t) in
  let r := destruction_of_rows t in
  let n := length (filter complete_row f) in
  fst r = Z.of_nat n
  /\ field (game (snd r))
     = replicate n zero_row ++ filter (fun row => ~ complete_row row) f
  /\ ((forall (i : nat) (row : list Z),
          f !! i = Some row -> (complete_row row <-> i = 3%nat \/ i = 7%nat)) ->
      fst r = 2
      /\ field (game (snd r))
         = [zero_row; zero_row] ++ take 3 f ++ take 3 (drop 4 f) ++ drop 8 f).
Proof.
  intros f r n.
  assert (Hloop : destruction_loop f
                  = (Z.of_nat n,
                     replicate n zero_row
                     ++ filter (fun row => ~ complete_row row) f)).
  { exact (destruction_loop_collapse f Hdims). }
  assert (Hcount : fst r = Z.of_nat n).
  { unfold r, destruction_of_rows. fold f. now rewrite Hloop. }
  assert (Hfield : field (game (snd r))
                   = replicate n zero_row
                     ++ filter (fun row => ~ complete_row row) f).
  { unfold r, destruction_of_rows. fold f. now rewrite Hloop. }
  split; [exact Hcount |]. split; [exact Hfield |].
  intros Hrows.
  destruct (filter_rows_3_7 complete_row f (proj1 Hdims) Hrows) as [Hn Hrest].
  rewrite Hcount, Hfield. fold n in Hn. rewrite Hn, Hrest.
  split; reflexivity.
Qed.

Lemma destruction_of_rows_collapses_witness :
  let t := session ATTACHING field_3_7 (spawned_figure 0 0) 3 (-1) in
  fst (destruction_of_rows t) = 2
  /\ field (game (snd (destruction_of_rows t)))
     = [zero_row; zero_row] ++ take 3 field_3_7 ++ take 3 (drop 4 field_3_7)
       ++ drop 8 field_3_7.
Proof.
  intros t.
  assert (Hdims : field_dims (field (game t))) by check_dims.
  assert (Hrows : forall (i : nat) (row : list Z),
             field (game t) !! i = Some row ->
             (complete_row row <-> i = 3%nat \/ i = 7%nat)).
  { intros i row Hi.
    do 20 (destruct i as [| i];
           [ injection Hi as <-; rewrite <- forallb_row_complete; vm_compute;
             split; intros Hx;
             first [ reflexivity | discriminate Hx
                   | left; reflexivity | right; reflexivity
                   | destruct Hx as [Hx | Hx]; discriminate Hx ]
           |]).
    discriminate Hi. }
  destruct (destruction_of_rows_collapses t Hdims) as (_ & _ & Hboth).
  exact (Hboth Hrows).
Defined.

(** * Further properties of the engine and of the controller *)

(** ** Increments and their roll back *)

(** [v++] followed by [v--] gives [v] back, overflow or not, and so does
    [v--] followed by [v++]. *)
Lemma int_sub_add_cancel a b : in_range a -> int_sub (int_add a b) b = a.
Proof.
  intros Ha. unfold int_sub, int_add.
  rewrite <- (wrap_in_range a Ha) at 2. unfold wrap. f_equal.
  replace ((a + b + 2147483648) mod 4294967296 - 2147483648 - b + 2147483648)
    with ((a + b + 2147483648) mod 4294967296 - b) by lia.
  rewrite Zminus_mod_idemp_l. f_equal. lia.
Qed.

Lemma int_add_sub_cancel a b : in_range a -> int_add (int_sub a b) b = a.
Proof.
  intros Ha. unfold int_sub, int_add.
  rewrite <- (wrap_in_range a Ha) at 2. unfold wrap. f_equal.
  replace ((a - b + 2147483648) mod 4294967296 - 2147483648 + b + 2147483648)
    with ((a - b + 2147483648) mod 4294967296 + b) by lia.
  rewrite Zplus_mod_idemp_l. f_equal. lia.
Qed.

Lemma wrap_is_int z : in_range (wrap z).
Proof.
  unfold in_range, INT_MIN, INT_MAX, wrap.
  pose proof (Z.mod_pos_bound (z + 2147483648) 4294967296). lia.
Qed.

Lemma decr_incr_y t : in_range (pos_y (fig_pos t)) -> decr_y (incr_y t) = t.
Proof.
  intros Hy. destruct t as [g fig [x y] st r]. unfold decr_y, incr_y. simpl in *.
  unfold with_fig_pos, with_y. simpl. now rewrite int_sub_add_cancel.
Qed.

Lemma incr_decr_y t : in_range (pos_y (fig_pos t)) -> incr_y (decr_y t) = t.
Proof.
  intros Hy. destruct t as [g fig [x y] st r]. unfold decr_y, incr_y. simpl in *.
  unfold with_fig_pos, with_y. simpl. now rewrite int_add_sub_cancel.
Qed.

Lemma decr_incr_x t : in_range (pos_x (fig_pos t)) -> decr_x (incr_x t) = t.
Proof.
  intros Hx. destruct t as [g fig [x y] st r]. unfold decr_x, incr_x. simpl in *.
  unfold with_fig_pos, with_x. simpl. now rewrite int_sub_add_cancel.
Qed.

Lemma incr_decr_x t : in_range (pos_x (fig_pos t)) -> incr_x (decr_x t) = t.
Proof.
  intros Hx. destruct t as [g fig [x y] st r]. unfold decr_x, incr_x. simpl in *.
  unfold with_fig_pos, with_x. simpl. now rewrite int_add_sub_cancel.
Qed.

(** [check_collide] looks at the figure, its position and the field only. *)
Lemma check_collide_ext t1 t2 :
  figure t1 = figure t2 -> fig_pos t1 = fig_pos t2 ->
  field (game t1) = field (game t2) ->
  check_collide t1 = check_collide t2.
Proof.
  intros Hfig Hpos Hfield. rewrite !check_collide_existsb.
  unfold collide_at. now rewrite Hfig, Hpos, Hfield.
Qed.

Lemma check_collide_with_state st t : check_collide (with_state st t) = check_collide t.
Proof. now apply check_collide_ext. Qed.

(** ** The keys *)

(** X1. In state START the keys R and r, and no other, lead to SPAWN, with a
    next figure prepared; the escape key, and no other, leads to GAMEOVER;
    every other key leaves the controller in START. The field, the figure,
    its position and the score are as before in every case. *)
Theorem start_state_keys (fuel : nat) (random key : Z) (t : Tetris)
    (Hstate : state t = START) :
  exists t' : Tetris,
    userInput fuel random (get_action key) t = Some t'
    /\ (state t' = SPAWN <-> key = 82 \/ key = 114)
    /\ (state t' = GAMEOVER <-> key = 27)
    /\ (state t' = START <-> key <> 82 /\ key <> 114 /\ key <> 27)
    /\ (state t' = SPAWN -> game t' = game (assign_next_figure random t))
    /\ (state t' <> SPAWN -> game t' = game t)
    /\ figure t' = figure t
    /\ fig_pos t' = fig_pos t
    /\ record_note t' = record_note t.
Proof.
  unfold userInput. rewrite Hstate.
  exists (on_start_state random (get_action key) t).
  split; [reflexivity |].
  unfold get_action, KEY_UP, KEY_DOWN, KEY_LEFT, KEY_RIGHT, CHAR_R_UPPER,
    CHAR_R_LOWER, CHAR_SPACE, CHAR_P_UPPER, CHAR_P_LOWER, ESCAPE.
  repeat match goal with
         | |- context [?a =? ?b] =>
             destruct (Z.eqb_spec a b); cbn [orb]
         end;
    cbn [on_start_state with_state state game figure fig_pos record_note
         assign_next_figure with_game];
    repeat split; intros; try congruence; try lia; try discriminate.
Qed.

Lemma start_state_keys_witness :
  exists t' : Tetris,
    userInput 0 5 (get_action 114) (fresh_session no_note) = Some t'
    /\ state t' = SPAWN.
Proof.
  destruct (start_state_keys 0 5 114 (fresh_session no_note) eq_refl)
    as (t' & Hstep & Hspawn & _).
  exists t'. split; [exact Hstep |]. apply Hspawn. right. reflexivity.
Defined.

(** ** Moving sideways *)

Lemma incr_x_at_x t :
  in_range (pos_x (fig_pos t) + 1) -> incr_x t = at_x (pos_x (fig_pos t) + 1) t.
Proof. intros Hr. unfold incr_x, at_x. now rewrite int_add_exact. Qed.

Lemma decr_x_at_x t :
  in_range (pos_x (fig_pos t) - 1) -> decr_x t = at_x (pos_x (fig_pos t) - 1) t.
Proof. intros Hr. unfold decr_x, at_x. now rewrite int_sub_exact. Qed.

Lemma moveright_cases t :
  in_range (pos_x (fig_pos t)) -> pos_x (fig_pos t) < INT_MAX ->
  moveright t
  = if check_collide (at_x (pos_x (fig_pos t) + 1) t) then t
    else at_x (pos_x (fig_pos t) + 1) t.
Proof.
  intros Hx Hroom. unfold moveright.
  assert (Hnext : in_range (pos_x (fig_pos t) + 1)).
  { unfold in_range, INT_MIN, INT_MAX in *. lia. }
  rewrite <- (incr_x_at_x t Hnext).
  destruct (check_collide (incr_x t)); [now apply decr_incr_x | reflexivity].
Qed.

Lemma moveleft_cases t :
  in_range (pos_x (fig_pos t)) -> INT_MIN < pos_x (fig_pos t) ->
  moveleft t
  = if check_collide (at_x (pos_x (fig_pos t) - 1) t) then t
    else at_x (pos_x (fig_pos t) - 1) t.
Proof.
  intros Hx Hroom. unfold moveleft.
  assert (Hnext : in_range (pos_x (fig_pos t) - 1)).
  { unfold in_range, INT_MIN, INT_MAX in *. lia. }
  rewrite <- (decr_x_at_x t Hnext).
  destruct (check_collide (decr_x t)); [now apply incr_decr_x | reflexivity].
Qed.

(** X2. In state MOVING, action Right (Left) moves the figure one column to
    the right (left) when it does not collide there, and leaves it where it
    is when it does; the y offset, the figure and the game data are unchanged
    and the state becomes SHIFTING. (The x offset is a C [int] with room for
    the step.) *)
Theorem moving_sideways (fuel : nat) (random : Z) (t : Tetris)
    (Hstate : state t = MOVING)
    (Hx : INT_MIN < pos_x (fig_pos t) < INT_MAX) :
  (exists t' : Tetris,
      userInput fuel random Right t = Some t'
      /\ state t' = SHIFTING /\ game t' = game t /\ figure t' = figure t
      /\ pos_y (fig_pos t') = pos_y (fig_pos t)
      /\ pos_x (fig_pos t')
         = if check_collide (at_x (pos_x (fig_pos t) + 1) t)
           then pos_x (fig_pos t) else pos_x (fig_pos t) + 1)
  /\ (exists t' : Tetris,
         userInput fuel random Left t = Some t'
         /\ state t' = SHIFTING /\ game t' = game t /\ figure t' = figure t
         /\ pos_y (fig_pos t') = pos_y (fig_pos t)
         /\ pos_x (fig_pos t')
            = if check_collide (at_x (pos_x (fig_pos t) - 1) t)
              then pos_x (fig_pos t) else pos_x (fig_pos t) - 1).
Proof.
  assert (Hin : in_range (pos_x (fig_pos t))).
  { unfold in_range. lia. }
  unfold userInput. rewrite Hstate. unfold on_moving_state.
  rewrite (moveright_cases t Hin) by lia.
  rewrite (moveleft_cases t Hin) by lia.
  split.
  - destruct (check_collide (at_x (pos_x (fig_pos t) + 1) t));
      cbn [state at_x with_fig_pos]; rewrite Hstate; cbn;
      eexists; (split; [reflexivity |]); repeat split.
  - destruct (check_collide (at_x (pos_x (fig_pos t) - 1) t));
      cbn [state at_x with_fig_pos]; rewrite Hstate; cbn;
      eexists; (split; [reflexivity |]); repeat split.
Qed.

Lemma moving_sideways_witness :
  exists t' : Tetris,
    userInput 0 0 Right square_over_ledge = Some t'
    /\ state t' = SHIFTING
    /\ pos_x (fig_pos t') = 3.
Proof.
  assert (Hstate : state square_over_ledge = MOVING) by reflexivity.
  assert (Hx : INT_MIN < pos_x (fig_pos square_over_ledge) < INT_MAX)
    by (split; reflexivity).
  destruct (moving_sideways 0 0 square_over_ledge Hstate Hx)
    as [(t' & Hstep & Hst & _ & _ & _ & Hpos) _].
  exists t'. split; [exact Hstep |]. split; [exact Hst | exact Hpos].
Defined.

Lemma at_x_same t : at_x (pos_x (fig_pos t)) t = t.
Proof. destruct t as [g fig [x y] st r]. reflexivity. Qed.

(** X3. A move to the right that succeeds is undone by a move to the left,
    and a move to the left that succeeds by a move to the right, for a figure
    that does not collide where it is. *)
Theorem move_there_and_back (t : Tetris)
    (Hx : INT_MIN < pos_x (fig_pos t) < INT_MAX)
    (Hfree : check_collide t = false) :
  (check_collide (at_x (pos_x (fig_pos t) + 1) t) = false ->
   moveleft (moveright t) = t)
  /\ (check_collide (at_x (pos_x (fig_pos t) - 1) t) = false ->
      moveright (moveleft t) = t).
Proof.
  assert (Hin : in_range (pos_x (fig_pos t))) by (unfold in_range; lia).
  split; intros Hthere.
  - rewrite (moveright_cases t Hin), Hthere by lia.
    rewrite moveleft_cases; cbn [at_x with_fig_pos fig_pos with_x pos_x];
      try (unfold in_range, INT_MIN, INT_MAX in *; lia).
    replace (pos_x (fig_pos t) + 1 - 1) with (pos_x (fig_pos t)) by lia.
    change (at_x (pos_x (fig_pos t)) (at_x (pos_x (fig_pos t) + 1) t))
      with (at_x (pos_x (fig_pos t)) t).
    now rewrite at_x_same, Hfree.
  - rewrite (moveleft_cases t Hin), Hthere by lia.
    rewrite moveright_cases; cbn [at_x with_fig_pos fig_pos with_x pos_x];
      try (unfold in_range, INT_MIN, INT_MAX in *; lia).
    replace (pos_x (fig_pos t) - 1 + 1) with (pos_x (fig_pos t)) by lia.
    change (at_x (pos_x (fig_pos t)) (at_x (pos_x (fig_pos t) - 1) t))
      with (at_x (pos_x (fig_pos t)) t).
    now rewrite at_x_same, Hfree.
Qed.

Lemma move_there_and_back_witness :
  moveleft (moveright square_over_ledge) = square_over_ledge.
Proof.
  assert (Hx : INT_MIN < pos_x (fig_pos square_over_ledge) < INT_MAX)
    by (split; reflexivity).
  assert (Hfree : check_collide square_over_ledge = false) by reflexivity.
  apply (proj1 (move_there_and_back square_over_ledge Hx Hfree)).
  reflexivity.
Defined.

(** ** Rotating the figure in play *)

Lemma rotate_three_more fig :
  figure_dims fig ->
  for_up (fun _ m => rotate_figure m) 0 3 (rotate_figure fig) = fig.
Proof. intros Hd. exact (rotate_figure_four fig Hd). Qed.

Lemma with_figure_same t : with_figure (figure t) t = t.
Proof. destruct t. reflexivity. Qed.

Lemma rotate_action_cases t :
  figure_dims (figure t) ->
  rotate_action t
  = if check_collide (with_figure (rotate_figure (figure t)) t) then t
    else with_figure (rotate_figure (figure t)) t.
Proof.
  intros Hd. unfold rotate_action.
  destruct (check_collide (with_figure (rotate_figure (figure t)) t));
    [| reflexivity].
  cbn [figure with_figure]. rewrite (rotate_three_more _ Hd).
  destruct t. reflexivity.
Qed.

(** X4. In state MOVING, action Action rotates the figure once when the
    rotated figure does not collide at the same position, and otherwise
    leaves the figure exactly as it was (the three further rotations restore
    it); position and game data are unchanged, the state becomes SHIFTING,
    and a figure that did not collide before does not collide after. *)
Theorem rotate_all_or_nothing (fuel : nat) (random : Z) (t : Tetris)
    (Hstate : state t = MOVING)
    (Hdims : figure_dims (figure t)) :
  exists t' : Tetris,
    userInput fuel random Action t = Some t'
    /\ state t' = SHIFTING /\ game t' = game t /\ fig_pos t' = fig_pos t
    /\ figure t'
       = (if check_collide (with_figure (rotate_figure (figure t)) t)
          then figure t else rotate_figure (figure t))
    /\ (check_collide t = false -> check_collide t' = false).
Proof.
  unfold userInput. rewrite Hstate. unfold on_moving_state.
  rewrite (rotate_action_cases t Hdims).
  destruct (check_collide (with_figure (rotate_figure (figure t)) t)) eqn:Hc.
  - rewrite Hstate. cbn. eexists. split; [reflexivity |].
    split; [reflexivity |]. split; [reflexivity |]. split; [reflexivity |].
    split; [reflexivity |]. intros Hfree. now rewrite check_collide_with_state.
  - cbn [state with_figure]. rewrite Hstate. cbn. eexists.
    split; [reflexivity |].
    split; [reflexivity |]. split; [reflexivity |]. split; [reflexivity |].
    split; [reflexivity |]. intros _. now rewrite check_collide_with_state.
Qed.

Lemma rotate_all_or_nothing_witness :
  exists t' : Tetris,
    userInput 0 0 Action square_over_ledge = Some t'
    /\ state t' = SHIFTING
    /\ check_collide t' = false.
Proof.
  assert (Hstate : state square_over_ledge = MOVING) by reflexivity.
  assert (Hdims : figure_dims (figure square_over_ledge)) by check_dims.
  destruct (rotate_all_or_nothing 0 0 square_over_ledge Hstate Hdims)
    as (t' & Hstep & Hst & _ & _ & _ & Hfree).
  exists t'. split; [exact Hstep |]. split; [exact Hst |].
  apply Hfree. reflexivity.
Defined.

(** ** The figures that are dealt *)

Lemma tabulate_binary rows cols f :
  (forall i j, f i j = 0 \/ f i j = 1) -> binary (tabulate rows cols f).
Proof.
  intros Hf. unfold binary, tabulate.
  apply Forall_fmap, Forall_forall. intros i _. cbn.
  apply Forall_fmap, Forall_forall. intros j _. apply Hf.
Qed.

Lemma rotate_figure_binary fig : binary fig -> binary (rotate_figure fig).
Proof.
  intros Hb. unfold rotate_figure. apply tabulate_binary. intros i j.
  apply binary_cell, tabulate_binary. intros i' j'. now apply binary_cell.
Qed.

Lemma rotate_figure_cell_sum fig :
  figure_dims fig -> cell_sum (rotate_figure fig) = cell_sum fig.
Proof.
  intros Hd. apply dims_4x4 in Hd.
  destruct Hd as (a0 & a1 & a2 & a3 & b0 & b1 & b2 & b3 & c0 & c1 & c2 & c3
                  & d0 & d1 & d2 & d3 & ->).
  cbv [rotate_figure tabulate cell_sum SIDE_OF_FIGURE_SQUARE]. cbn. lia.
Qed.

(** X5. [rotate_figure] moves the cells of a 4x4 matrix around without
    changing them: the result is 4x4, the sum of the cells (the number of set
    cells) is the same, and cells that were all 0 or 1 still are. *)
Theorem rotate_figure_keeps_cells (fig : Matrix) (Hdims : figure_dims fig) :
  figure_dims (rotate_figure fig)
  /\ cell_sum (rotate_figure fig) = cell_sum fig
  /\ (binary fig -> binary (rotate_figure fig)).
Proof.
  split; [apply rotate_figure_dims |].
  split; [now apply rotate_figure_cell_sum | apply rotate_figure_binary].
Qed.

Lemma rotate_figure_keeps_cells_witness :
  cell_sum (rotate_figure (spawned_figure 2 1)) = cell_sum (spawned_figure 2 1)
  /\ binary (rotate_figure (spawned_figure 2 1)).
Proof.
  assert (Hdims : figure_dims (spawned_figure 2 1)) by check_dims.
  destruct (rotate_figure_keeps_cells (spawned_figure 2 1) Hdims)
    as (_ & Hsum & Hbin).
  split; [exact Hsum |]. apply Hbin. check_binary.
Defined.

Lemma figures_choice_ok n : figure_ok (figures_choice n).
Proof.
  split; [apply figures_choice_dims |].
  unfold figures_choice. apply tabulate_binary. intros i j.
  apply binary_cell.
  destruct n as [| [| [| [| [| [| [| n]]]]]]]; try check_binary.
  destruct n; check_binary.
Qed.

Lemma figures_choice_cell_sum n :
  (n < NUMBER_OF_FIGURES)%nat -> cell_sum (figures_choice n) = 4.
Proof.
  unfold NUMBER_OF_FIGURES. intros Hn.
  destruct n as [| [| [| [| [| [| [| n]]]]]]]; try lia; reflexivity.
Qed.

Lemma spawned_figure_ok n r :
  figure_ok (spawned_figure n r)
  /\ ((n < NUMBER_OF_FIGURES)%nat -> cell_sum (spawned_figure n r) = 4).
Proof.
  unfold spawned_figure.
  apply (for_up_inv
           (fun m => figure_ok m
                     /\ ((n < NUMBER_OF_FIGURES)%nat -> cell_sum m = 4))).
  - split; [apply figures_choice_ok | apply figures_choice_cell_sum].
  - intros _ m _ [[Hd Hb] Hsum]. split.
    + split; [apply rotate_figure_dims | now apply rotate_figure_binary].
    + intros Hn. rewrite rotate_figure_cell_sum by exact Hd. now apply Hsum.
Qed.

(** X6. Whatever non-negative number [rand()] returns, [assign_next_figure]
    leaves as next figure one of the 7 shapes rotated 0 to 3 times: a 4x4
    matrix of cells 0 or 1 with exactly four cells set. Nothing else of the
    state changes. *)
Theorem assign_next_figure_tetromino (random : Z) (t : Tetris)
    (Hrand : 0 <= random <= INT_MAX) :
  let t' := assign_next_figure random t in
  next (game t')
  = spawned_figure (Z.to_nat (random mod 7)) (Z.to_nat (random mod 4))
  /\ figure_ok (next (game t'))
  /\ cell_sum (next (game t')) = 4
  /\ with_next (next (game t)) (game t') = game t
  /\ figure t' = figure t /\ fig_pos t' = fig_pos t
  /\ state t' = state t /\ record_note t' = record_note t.
Proof.
  intros t'.
  destruct (assign_next_figure_spawned random t Hrand) as (Hnext & Hn & _).
  fold t' in Hnext.
  destruct (spawned_figure_ok (Z.to_nat (random mod 7)) (Z.to_nat (random mod 4)))
    as [Hok Hsum].
  split; [exact Hnext |]. rewrite Hnext.
  split; [exact Hok |]. split; [exact (Hsum Hn) |].
  split; [| repeat split].
  destruct t as [[f nx s h l sp pa] fig p st r]. reflexivity.
Qed.

Lemma assign_next_figure_tetromino_witness :
  cell_sum (next (game (assign_next_figure 23 (fresh_session no_note)))) = 4.
Proof.
  assert (Hrand : 0 <= 23 <= INT_MAX) by (split; discriminate).
  destruct (assign_next_figure_tetromino 23 (fresh_session no_note) Hrand)
    as (_ & _ & Hsum & _).
  exact Hsum.
Defined.

(** ** What a step keeps true *)

(** Split the conjunctions of the goal, and nothing else. *)
Ltac split_conj := repeat match goal with |- _ /\ _ => split end.

(** A flagged loop with an invariant that follows the counter: the loop
    stops at some index at or before the last one. *)
Lemma for_while_inv_at {St : Type} (P : nat -> St -> Prop) (cond : St -> bool)
    (body : nat -> St -> St) i0 n st :
  P i0 st ->
  (forall i s, (i0 <= i < i0 + n)%nat -> cond s = true -> P i s -> P (S i) (body i s)) ->
  exists k : nat, (k <= n)%nat /\ P (i0 + k)%nat (for_while cond body i0 n st).
Proof.
  revert i0 st. induction n as [| n IH]; intros i0 st Hst Hbody.
  - exists 0%nat. rewrite Nat.add_0_r. split; [lia | exact Hst].
  - unfold for_while; fold (@for_while St).
    destruct (cond st) eqn:Hc.
    + destruct (IH (S i0) (body i0 st)) as (k & Hk & HP).
      * apply Hbody; [lia | exact Hc | exact Hst].
      * intros i s Hi. apply Hbody. lia.
      * exists (S k). split; [lia |].
        replace (i0 + S k)%nat with (S i0 + k)%nat by lia. exact HP.
    + exists 0%nat. rewrite Nat.add_0_r. split; [lia | exact Hst].
Qed.

(** [init_figure_position] takes the figure from the state and nothing else,
    and places it between 0 and 4 rows above the field and columns left of
    column 3, whatever the figure. *)
Lemma init_figure_position_range t :
  let t' := init_figure_position t in
  game t' = game t /\ figure t' = figure t /\ state t' = state t
  /\ record_note t' = record_note t
  /\ -4 <= pos_y (fig_pos t') <= 0
  /\ -1 <= pos_x (fig_pos t') <= 3.
Proof.
  intros t'. unfold t', init_figure_position.
  split; [reflexivity |]. split; [reflexivity |]. split; [reflexivity |].
  split; [reflexivity |].
  cbv zeta. cbn [fig_pos with_fig_pos].
  set (p0 := {| pos_x := FIGURESTART_X; pos_y := FIGURESTART_Y |}).
  match goal with
  | |- context [for_while ?c ?b 0 SIDE_OF_FIGURE_SQUARE (0, p0)] =>
      set (st1 := for_while c b 0 SIDE_OF_FIGURE_SQUARE (0, p0));
      assert (H1 : exists k : nat,
                 (k <= SIDE_OF_FIGURE_SQUARE)%nat
                 /\ (- Z.of_nat (0 + k) <= pos_y (snd st1) <= 0
                     /\ pos_x (snd st1) = 3))
        by (apply (for_while_inv_at
                     (fun k (st : Z * FigurePos_t) =>
                        - Z.of_nat k <= pos_y (snd st) <= 0 /\ pos_x (snd st) = 3)
                     c b 0 SIDE_OF_FIGURE_SQUARE (0, p0));
            [ cbn; unfold FIGURESTART_Y; split; [lia | reflexivity]
            | intros i [sum p] Hi _ [Hy Hx]; cbn [fst snd] in *;
              destruct (_ =? 0); cbn [snd]; [| split; [lia | exact Hx]];
              cbn [pos_y pos_x with_y]; split; [| exact Hx];
              rewrite int_sub_exact;
              unfold in_range, INT_MIN, INT_MAX, SIDE_OF_FIGURE_SQUARE in *; lia ])
  end.
  destruct H1 as (k1 & Hk1 & Hy1 & Hx1). clearbody st1.
  match goal with
  | |- context [for_while ?c ?b 0 SIDE_OF_FIGURE_SQUARE (0, snd st1)] =>
      destruct (for_while_inv_at
                  (fun k (st : Z * FigurePos_t) =>
                     pos_y (snd st) = pos_y (snd st1)
                     /\ 3 - Z.of_nat k <= pos_x (snd st) <= 3)
                  c b 0 SIDE_OF_FIGURE_SQUARE (0, snd st1))
        as (k2 & Hk2 & Hy2 & Hx2)
  end.
  { cbn [snd]. split; [reflexivity | lia]. }
  { intros i [sum p] Hi _ [Hy Hx]. cbn [fst snd] in *.
    destruct (_ =? 0); cbn [snd]; [| split; [exact Hy | lia]].
    cbn [pos_y pos_x with_x]. split; [exact Hy |].
    rewrite int_sub_exact; unfold in_range, INT_MIN, INT_MAX, SIDE_OF_FIGURE_SQUARE in *;
      lia. }
  unfold SIDE_OF_FIGURE_SQUARE in *. rewrite Hy2. lia.
Qed.

(** [high_score_update] changes the high score in memory and the number in
    the record file, nothing else. *)
Lemma high_score_update_keeps t :
  let t' := snd (high_score_update t) in
  with_high_score (high_score (game t)) (game t') = game t
  /\ figure t' = figure t /\ fig_pos t' = fig_pos t /\ state t' = state t
  /\ update_ok (record_note t') = update_ok (record_note t)
  /\ write_ok (record_note t') = write_ok (record_note t).
Proof.
  destruct t as [[f nx s h l sp pa] fig p st r].
  unfold high_score_update. cbn.
  destruct ((h =? 0) || (s >? h)); [| repeat split].
  destruct (fopen_update r) as [txt |].
  - unfold fscanf_high_score. destruct (scan_int txt) as [n |]; cbn.
    + destruct (s >? wrap n); repeat split.
    + destruct (s >? h); repeat split.
  - cbn. destruct (fopen_write r); repeat split.
Qed.

Lemma high_score_update_field t :
  field (game (snd (high_score_update t))) = field (game t)
  /\ next (game (snd (high_score_update t))) = next (game t)
  /\ score (game (snd (high_score_update t))) = score (game t).
Proof.
  destruct (high_score_update_keeps t) as (Hg & _). cbv zeta in Hg.
  destruct (game (snd (high_score_update t))) as [f nx s h l sp pa].
  rewrite <- Hg. repeat split.
Qed.

(** The loop of [movedown], when it ends on a figure that did not collide at
    first: it stopped one row under a position where the figure does not
    collide, in the same column. *)
Lemma movedown_loop_last fuel : forall t t1,
  in_range (pos_y (fig_pos t)) ->
  check_collide t = false ->
  movedown_loop fuel t = Some t1 ->
  exists t0 : Tetris,
    t1 = incr_y t0 /\ check_collide t0 = false
    /\ in_range (pos_y (fig_pos t0))
    /\ game t0 = game t /\ figure t0 = figure t /\ state t0 = state t
    /\ record_note t0 = record_note t
    /\ pos_x (fig_pos t0) = pos_x (fig_pos t).
Proof.
  induction fuel as [| fuel IH]; intros t t1 Hy Hfree Hloop; [discriminate |].
  cbn [movedown_loop] in Hloop. rewrite Hfree in Hloop.
  destruct (check_collide (incr_y t)) eqn:Hnext.
  - destruct fuel; [discriminate |]. cbn [movedown_loop] in Hloop.
    rewrite Hnext in Hloop. injection Hloop as <-.
    exists t. split_conj; first [assumption | reflexivity].
  - destruct (IH (incr_y t) t1) as (t0 & H1 & H2 & H3 & H4 & H5 & H6 & H7 & H8);
      [apply wrap_is_int | exact Hnext | exact Hloop |].
    exists t0. split_conj; first [assumption | reflexivity].
Qed.

Lemma moveright_keeps t :
  in_range (pos_x (fig_pos t)) -> check_collide t = false ->
  let t' := moveright t in
  check_collide t' = false /\ in_range (pos_x (fig_pos t'))
  /\ pos_y (fig_pos t') = pos_y (fig_pos t)
  /\ game t' = game t /\ figure t' = figure t /\ state t' = state t.
Proof.
  intros Hx Hfree. unfold moveright. cbv zeta.
  destruct (check_collide (incr_x t)) eqn:Hc.
  - rewrite (decr_incr_x t Hx). split_conj; first [assumption | reflexivity].
  - split; [exact Hc |]. split; [apply wrap_is_int |]. split_conj; reflexivity.
Qed.

Lemma moveleft_keeps t :
  in_range (pos_x (fig_pos t)) -> check_collide t = false ->
  let t' := moveleft t in
  check_collide t' = false /\ in_range (pos_x (fig_pos t'))
  /\ pos_y (fig_pos t') = pos_y (fig_pos t)
  /\ game t' = game t /\ figure t' = figure t /\ state t' = state t.
Proof.
  intros Hx Hfree. unfold moveleft. cbv zeta.
  destruct (check_collide (decr_x t)) eqn:Hc.
  - rewrite (incr_decr_x t Hx). split_conj; first [assumption | reflexivity].
  - split; [exact Hc |]. split; [apply wrap_is_int |]. split_conj; reflexivity.
Qed.

(** The state that [on_moving_state] leaves, from what the action has
    done. *)
Lemma on_moving_state_after m :
  state m = MOVING ->
  (if negb (TetrisState_eqb (state m) GAMEOVER)
      && negb (TetrisState_eqb (state m) EXIT_ERROR)
   then Some (with_state SHIFTING m) else Some m)
  = Some (with_state SHIFTING m).
Proof. intros ->. reflexivity. Qed.

(** A step in state MOVING that moves a well formed figure which does not
    collide leaves such a figure, with the game data untouched. *)
Lemma on_moving_state_keeps fuel action t t' :
  state t = MOVING ->
  figure_ok (figure t) ->
  in_range (pos_x (fig_pos t)) -> in_range (pos_y (fig_pos t)) ->
  check_collide t = false ->
  on_moving_state fuel action t = Some t' ->
  game t' = game t
  /\ figure_ok (figure t')
  /\ in_range (pos_x (fig_pos t')) /\ in_range (pos_y (fig_pos t'))
  /\ check_collide t' = false
  /\ state t' = (match action with Terminate => GAMEOVER | _ => SHIFTING end).
Proof.
  intros Hstate Hok Hx Hy Hfree Hstep. pose proof Hok as [Hd Hb].
  unfold on_moving_state in Hstep.
  destruct action.
  all: try (unfold moveup, pause_game in Hstep;
            rewrite (on_moving_state_after t Hstate) in Hstep;
            injection Hstep as <-; rewrite check_collide_with_state;
            split_conj; first [assumption | reflexivity]).
  - (* Terminate *)
    cbn in Hstep. injection Hstep as <-. rewrite check_collide_with_state.
    split_conj; first [assumption | reflexivity].
  - (* Left *)
    destruct (moveleft_keeps t Hx Hfree) as (H1 & H2 & H3 & H4 & H5 & H6).
    rewrite (on_moving_state_after (moveleft t)) in Hstep by congruence.
    injection Hstep as <-. rewrite check_collide_with_state.
    cbn [game figure fig_pos state with_state]. rewrite H3, H4, H5.
    split_conj; first [assumption | reflexivity].
  - (* Right *)
    destruct (moveright_keeps t Hx Hfree) as (H1 & H2 & H3 & H4 & H5 & H6).
    rewrite (on_moving_state_after (moveright t)) in Hstep by congruence.
    injection Hstep as <-. rewrite check_collide_with_state.
    cbn [game figure fig_pos state with_state]. rewrite H3, H4, H5.
    split_conj; first [assumption | reflexivity].
  - (* Down *)
    unfold movedown in Hstep.
    destruct (movedown_loop fuel t) as [t1 |] eqn:Hloop; [| discriminate].
    destruct (movedown_loop_last fuel t t1 Hy Hfree Hloop)
      as (t0 & -> & H2 & H3 & H4 & H5 & H6 & H7 & H8).
    rewrite (decr_incr_y t0 H3) in Hstep.
    rewrite (on_moving_state_after t0) in Hstep by congruence.
    injection Hstep as <-. rewrite check_collide_with_state.
    cbn [game figure fig_pos state with_state]. rewrite H4, H5, H8.
    split_conj; first [assumption | reflexivity].
  - (* Action *)
    rewrite (rotate_action_cases t Hd) in Hstep.
    destruct (check_collide (with_figure (rotate_figure (figure t)) t)) eqn:Hc.
    + rewrite (on_moving_state_after t Hstate) in Hstep.
      injection Hstep as <-. rewrite check_collide_with_state.
      split_conj; first [assumption | reflexivity].
    + rewrite on_moving_state_after in Hstep by exact Hstate.
      injection Hstep as <-. rewrite check_collide_with_state.
      cbn [game figure fig_pos state with_state with_figure].
      split_conj; try assumption; try reflexivity.
      split; [apply rotate_figure_dims | now apply rotate_figure_binary].
Qed.

(** The two outcomes of [on_shifting_state]. *)
Lemma on_shifting_state_cases t :
  in_range (pos_y (fig_pos t)) ->
  on_shifting_state t
  = if check_collide (incr_y t) then with_state ATTACHING t
    else with_state MOVING (incr_y t).
Proof.
  intros Hy. unfold on_shifting_state.
  destruct (check_collide (incr_y t)).
  - now rewrite (decr_incr_y t Hy).
  - change (decr_y (with_state MOVING (incr_y t)))
      with (with_state MOVING (decr_y (incr_y t))).
    rewrite (decr_incr_y t Hy). reflexivity.
Qed.

(** Rows of zeros are not complete. *)
Lemma zero_row_not_complete : ~ complete_row zero_row.
Proof. intros Hc. inversion Hc as [| c row Hone _]. discriminate Hone. Qed.

Lemma filter_lengths (P : list Z -> Prop) `{forall row, Decision (P row)}
    (f : Matrix) :
  (length (filter P f) + length (filter (fun row => ~ P row) f) = length f)%nat.
Proof.
  induction f as [| row f IH]; [reflexivity |].
  rewrite !filter_cons. destruct (decide (P row)) as [Hp | Hn].
  - rewrite decide_False by tauto. simpl. lia.
  - rewrite decide_True by exact Hn. simpl. lia.
Qed.

(** The field that [destruction_of_rows] leaves is well formed, and none of
    its rows is complete. *)
Lemma destruction_loop_ok (f : Matrix) :
  field_dims f ->
  field_dims (snd (destruction_loop f))
  /\ (binary f -> binary (snd (destruction_loop f)))
  /\ Forall (fun row => ~ complete_row row) (snd (destruction_loop f))
  /\ 0 <= fst (destruction_loop f) <= Z.of_nat ROWS_MAP.
Proof.
  intros Hdims. rewrite (destruction_loop_collapse f Hdims). cbn [fst snd].
  pose proof (filter_lengths complete_row f) as Hlen.
  destruct Hdims as [Hl Hrows].
  split; [| split; [| split]].
  - split.
    + rewrite length_app, length_replicate. lia.
    + apply Forall_app. split.
      * apply Forall_replicate. reflexivity.
      * apply Forall_forall. intros row Hrow.
        apply list_elem_of_filter in Hrow as [_ Hrow].
        rewrite Forall_forall in Hrows. now apply Hrows.
  - intros Hb. apply Forall_app. split.
    + apply Forall_replicate. apply Forall_replicate. now left.
    + apply Forall_forall. intros row Hrow.
      apply list_elem_of_filter in Hrow as [_ Hrow].
      unfold binary in Hb. rewrite Forall_forall in Hb. now apply Hb.
  - apply Forall_app. split.
    + apply Forall_replicate. exact zero_row_not_complete.
    + apply Forall_forall. intros row Hrow.
      now apply list_elem_of_filter in Hrow as [Hrow _].
  - lia.
Qed.

(** The next figure that [assign_next_figure] leaves is well formed,
    whatever number it is given. *)
Lemma assign_next_figure_ok random t :
  figure_ok (next (game (assign_next_figure random t))).
Proof.
  unfold assign_next_figure. cbn [game next with_game with_next].
  apply for_up_inv.
  - apply figures_choice_ok.
  - intros _ m _ [Hd Hb].
    split; [apply rotate_figure_dims | now apply rotate_figure_binary].
Qed.

(** [recalculate_stats] changes score, level and speed, nothing else. *)
Lemma recalculate_stats_keeps n_rows t :
  let t' := recalculate_stats n_rows t in
  field (game t') = field (game t) /\ next (game t') = next (game t)
  /\ high_score (game t') = high_score (game t)
  /\ figure t' = figure t /\ fig_pos t' = fig_pos t /\ state t' = state t
  /\ record_note t' = record_note t.
Proof.
  unfold recalculate_stats. cbv zeta.
  destruct (n_rows =? 0); [split_conj; reflexivity |].
  destruct (n_rows =? 1), (n_rows =? 2), (n_rows =? 3), (n_rows =? 4);
    split_conj; reflexivity.
Qed.

(** [on_attaching_state] computes the new game data and then only sets the
    state. *)
Lemma on_attaching_state_shape t :
  exists st : TetrisState_t,
    on_attaching_state t
    = with_state st
        (recalculate_stats
           (fst (destruction_of_rows (attach_figure_to_field t)))
           (snd (destruction_of_rows (attach_figure_to_field t)))).
Proof.
  set (t1 := recalculate_stats
               (fst (destruction_of_rows (attach_figure_to_field t)))
               (snd (destruction_of_rows (attach_figure_to_field t)))).
  change (on_attaching_state t)
    with (let t2 :=
            if TetrisState_eqb (state t1) ATTACHING && check_collide t1
            then with_state SPAWN t1 else t1 in
          if level (game t2) >? MAX_LEVEL then with_state GAMEOVER t2 else t2).
  clearbody t1. cbv zeta.
  destruct (TetrisState_eqb (state t1) ATTACHING && check_collide t1).
  - change (level (game (with_state SPAWN t1))) with (level (game t1)).
    destruct (level (game t1) >? MAX_LEVEL).
    + exists GAMEOVER. reflexivity.
    + exists SPAWN. reflexivity.
  - destruct (level (game t1) >? MAX_LEVEL).
    + exists GAMEOVER. reflexivity.
    + exists (state t1). destruct t1. reflexivity.
Qed.

Lemma in_range_small z : -4 <= z <= 3 -> in_range z.
Proof. unfold in_range, INT_MIN, INT_MAX. lia. Qed.

(** One step of the controller keeps [engine_ok]. *)
Lemma userInput_engine_ok fuel random action t t' :
  engine_ok t -> userInput fuel random action t = Some t' -> engine_ok t'.
Proof.
  intros (Hfield & Hnext & Hplay) Hstep. unfold userInput in Hstep.
  destruct (state t) eqn:Hstate.
  - (* START *)
    injection Hstep as <-. unfold on_start_state.
    destruct action; cbn [game state with_state];
      (split; [exact Hfield || exact Hfield |]);
      (split; [first [exact Hnext | apply assign_next_figure_ok] |]);
      discriminate.
  - (* SPAWN *)
    injection Hstep as <-. unfold on_spawn_state.
    destruct (high_score_update_field t) as (Hf & Hn & _).
    destruct (fst (high_score_update t) =? NO_ERROR).
    + cbv zeta.
      set (t1 := assign_next_figure random
                   (copy_next_figure_to_figure (snd (high_score_update t)))).
      assert (H1 : figure t1 = next (game t)
                   /\ figure_ok (next (game t1))
                   /\ field (game t1) = field (game t)).
      { split; [| split; [apply assign_next_figure_ok |]].
        - unfold t1, assign_next_figure, copy_next_figure_to_figure.
          cbn [figure with_game with_figure]. rewrite Hn.
          exact (tabulate_cell _ (proj1 Hnext)).
        - unfold t1, assign_next_figure, copy_next_figure_to_figure.
          cbn [game field with_game with_next with_figure]. exact Hf. }
      clearbody t1. destruct H1 as (Hfig1 & Hnext1 & Hf1).
      destruct (init_figure_position_range t1) as (Hg & Hfig & _ & _ & Hy & Hx).
      cbv zeta in Hg, Hfig, Hy, Hx.
      set (t2 := init_figure_position t1) in *. clearbody t2.
      unfold engine_ok. cbn [game state with_state figure fig_pos].
      rewrite check_collide_with_state, Hg, Hfig, Hfig1, Hf1.
      split; [exact Hfield |]. split; [exact Hnext1 |].
      destruct (check_collide t2); [discriminate |].
      intros _. split; [exact Hnext |].
      split; [apply in_range_small; lia |].
      split; [apply in_range_small; lia | reflexivity].
    + unfold engine_ok. cbn [game state with_state]. rewrite Hf, Hn.
      split; [exact Hfield |]. split; [exact Hnext | discriminate].
  - (* MOVING *)
    destruct (Hplay eq_refl) as (Hfig & Hx & Hy & Hfree).
    destruct (on_moving_state_keeps fuel action t t' Hstate Hfig Hx Hy Hfree Hstep)
      as (Hg & Hfig' & Hx' & Hy' & Hfree' & _).
    unfold engine_ok. rewrite Hg.
    split; [exact Hfield |]. split; [exact Hnext |].
    intros _. split_conj; assumption.
  - (* SHIFTING *)
    destruct (Hplay eq_refl) as (Hfig & Hx & Hy & Hfree).
    injection Hstep as <-. rewrite (on_shifting_state_cases t Hy).
    destruct (check_collide (incr_y t)) eqn:Hc; unfold engine_ok;
      cbn [game state with_state figure fig_pos]; rewrite check_collide_with_state;
      (split; [exact Hfield |]); (split; [exact Hnext |]); intros _.
    + split_conj; assumption.
    + split; [exact Hfig |]. split; [exact Hx |].
      split; [apply wrap_is_int | exact Hc].
  - (* ATTACHING *)
    destruct (Hplay eq_refl) as (Hfig & Hx & Hy & Hfree).
    injection Hstep as <-.
    destruct (on_attaching_state_state t Hstate) as [Hg Hst]. cbv zeta in Hg, Hst.
    set (t1 := recalculate_stats
                 (fst (destruction_of_rows (attach_figure_to_field t)))
                 (snd (destruction_of_rows (attach_figure_to_field t)))) in *.
    assert (Hkeep : field (game t1)
                    = snd (destruction_loop (field (game (attach_figure_to_field t))))
                    /\ next (game t1) = next (game t)
                    /\ figure t1 = figure t /\ fig_pos t1 = fig_pos t).
    { unfold t1.
      destruct (recalculate_stats_keeps
                  (fst (destruction_of_rows (attach_figure_to_field t)))
                  (snd (destruction_of_rows (attach_figure_to_field t))))
        as (-> & -> & _ & -> & -> & _).
      split_conj; reflexivity. }
    destruct Hkeep as (Hf1 & Hn1 & Hfig1 & Hpos1).
    pose proof (attach_figure_to_field_ok t Hfield) as [Hd Hb].
    destruct (destruction_loop_ok _ Hd) as (Hd' & Hb' & _ & _).
    assert (Hsame : figure (on_attaching_state t) = figure t
                    /\ fig_pos (on_attaching_state t) = fig_pos t).
    { destruct (on_attaching_state_shape t) as [st ->]. fold t1.
      cbn [figure fig_pos with_state]. split; assumption. }
    destruct Hsame as [Hfig' Hpos'].
    assert (Hcoll : check_collide (on_attaching_state t) = check_collide t1).
    { apply check_collide_ext; [congruence | congruence | now rewrite Hg]. }
    unfold engine_ok. rewrite Hg, Hf1, Hn1, Hfig', Hpos', Hcoll, Hst.
    split; [split; [exact Hd' | exact (Hb' Hb)] |].
    split; [exact Hnext |].
    destruct (level (game t1) >? MAX_LEVEL); [discriminate |].
    destruct (check_collide t1); [discriminate |].
    intros _. split_conj; first [assumption | reflexivity].
  - (* GAMEOVER *)
    injection Hstep as <-. unfold on_gameover_state, engine_ok.
    rewrite Hstate. split; [exact Hfield |]. split; [exact Hnext | discriminate].
  - (* EXIT_ERROR *)
    injection Hstep as <-. unfold on_exit_error_state, engine_ok.
    rewrite Hstate. split; [exact Hfield |]. split; [exact Hnext | discriminate].
Qed.

Lemma fresh_session_engine_ok r : engine_ok (fresh_session r).
Proof.
  unfold engine_ok. cbn [fresh_session game field next state in_play].
  split; [split; [check_dims | check_binary] |].
  split; [split; [check_dims | check_binary] | discriminate].
Qed.

Lemma run_engine_ok steps : forall t t',
  engine_ok t -> run steps t = Some t' -> engine_ok t'.
Proof.
  induction steps as [| [[fuel random] action] steps IH]; intros t t' Hok Hrun.
  - injection Hrun as <-. exact Hok.
  - cbn [run] in Hrun.
    destruct (userInput fuel random action t) as [t1 |] eqn:Hstep; [| discriminate].
    exact (IH t1 t' (userInput_engine_ok _ _ _ _ _ Hok Hstep) Hrun).
Qed.

(** X7. A new game is well formed, and whatever the keys, the numbers drawn
    and the record file, every state that the controller reaches from a well
    formed one is well formed: the field is a 20x10 grid of cells 0 or 1, the
    next figure a 4x4 matrix of cells 0 or 1, and in the states MOVING,
    SHIFTING and ATTACHING the figure is such a matrix, at a position that
    does not collide. So in state ATTACHING every cell that
    [attach_figure_to_field] is about to assign lies inside the field. *)
Theorem engine_ok_reachable (steps : list (nat * Z * UserAction_t))
    (t t' : Tetris)
    (Hok : engine_ok t)
    (Hrun : run steps t = Some t') :
  (forall r : RecordNote, engine_ok (fresh_session r))
  /\ engine_ok t'
  /\ (state t' = ATTACHING -> Forall in_field (attach_writes t')).
Proof.
  split; [exact fresh_session_engine_ok |].
  pose proof (run_engine_ok steps t t' Hok Hrun) as Hok'.
  split; [exact Hok' |].
  intros Hstate. destruct Hok' as (_ & _ & Hplay).
  rewrite Hstate in Hplay. destruct (Hplay eq_refl) as ([_ Hb] & _ & _ & Hfree).
  exact (attach_writes_in_field t' Hb Hfree).
Qed.

Lemma engine_ok_reachable_witness :
  exists t' : Tetris,
    run [(0%nat, 5, Start); (0%nat, 9, No_signal); (30%nat, 0, Down);
         (0%nat, 0, No_signal)] (fresh_session no_note) = Some t'
    /\ state t' = ATTACHING
    /\ engine_ok t'
    /\ Forall in_field (attach_writes t').
Proof.
  destruct (run [(0%nat, 5, Start); (0%nat, 9, No_signal); (30%nat, 0, Down);
                 (0%nat, 0, No_signal)] (fresh_session no_note))
    as [t' |] eqn:Hrun; [| vm_compute in Hrun; discriminate Hrun].
  assert (Hstate : state t' = ATTACHING).
  { vm_compute in Hrun. injection Hrun as <-. reflexivity. }
  destruct (engine_ok_reachable _ _ t' (fresh_session_engine_ok no_note) Hrun)
    as (_ & Hok & Hwrites).
  exists t'. split; [reflexivity |]. split; [exact Hstate |].
  split; [exact Hok | exact (Hwrites Hstate)].
Defined.

(** X8. A step in state MOVING never touches the game data (field, next
    figure, score, level, speed); it leads to GAMEOVER on Terminate and to
    SHIFTING on every other action; and a well formed figure that does not
    collide before the step is well formed and does not collide after it,
    whatever the action. *)
Theorem moving_step_keeps_figure_free (fuel : nat) (random : Z)
    (action : UserAction_t) (t t' : Tetris)
    (Hstate : state t = MOVING)
    (Hfig : figure_ok (figure t))
    (Hx : in_range (pos_x (fig_pos t)))
    (Hy : in_range (pos_y (fig_pos t)))
    (Hfree : check_collide t = false)
    (Hstep : userInput fuel random action t = Some t') :
  game t' = game t
  /\ figure_ok (figure t')
  /\ check_collide t' = false
  /\ (action = Terminate -> state t' = GAMEOVER)
  /\ (action <> Terminate -> state t' = SHIFTING).
Proof.
  unfold userInput in Hstep. rewrite Hstate in Hstep.
  destruct (on_moving_state_keeps fuel action t t' Hstate Hfig Hx Hy Hfree Hstep)
    as (Hg & Hfig' & _ & _ & Hfree' & Hst).
  split; [exact Hg |]. split; [exact Hfig' |]. split; [exact Hfree' |].
  rewrite Hst. split.
  - intros ->. reflexivity.
  - intros Hne. destruct action; try reflexivity. contradiction.
Qed.

Lemma moving_step_keeps_figure_free_witness :
  exists t' : Tetris,
    userInput 30 0 Down square_over_ledge = Some t'
    /\ game t' = game square_over_ledge
    /\ check_collide t' = false
    /\ state t' = SHIFTING.
Proof.
  destruct (userInput 30 0 Down square_over_ledge) as [t' |] eqn:Hstep;
    [| vm_compute in Hstep; discriminate Hstep].
  assert (Hfig : figure_ok (figure square_over_ledge))
    by (split; [check_dims | check_binary]).
  assert (Hx : in_range (pos_x (fig_pos square_over_ledge)))
    by (vm_compute; split; discriminate).
  assert (Hy : in_range (pos_y (fig_pos square_over_ledge)))
    by (vm_compute; split; discriminate).
  destruct (moving_step_keeps_figure_free 30 0 Down square_over_ledge t'
              eq_refl Hfig Hx Hy eq_refl Hstep)
    as (Hg & _ & Hfree & _ & Hst).
  exists t'. split; [reflexivity |]. split; [exact Hg |].
  split; [exact Hfree |]. apply Hst. discriminate.
Defined.

(** ** The step in state SPAWN *)

Lemma high_score_update_error_state t :
  fst (high_score_update t) = ERROR -> snd (high_score_update t) = t.
Proof.
  unfold high_score_update.
  destruct (_ || _); [| discriminate].
  destruct (fopen_update _) as [content |].
  - destruct (_ >? _); discriminate.
  - destruct (fopen_write _); [discriminate | reflexivity].
Qed.

Lemma high_score_update_codes t :
  fst (high_score_update t) = NO_ERROR \/ fst (high_score_update t) = ERROR.
Proof.
  rewrite high_score_update_code.
  destruct (_ || _); [| now left].
  destruct (fopen_update _); [now left |].
  destruct (fopen_write _); [now left | now right].
Qed.

(** X9. A step in state SPAWN whose high score update fails changes the
    state to EXIT_ERROR and nothing else. When the update succeeds, the
    figure becomes the next figure, a new next figure is drawn, the figure is
    placed at most 4 rows above the field and between columns -1 and 3, and
    the state is MOVING when the placed figure does not collide and GAMEOVER
    when it does; field and score are unchanged. *)
Theorem spawn_step (fuel : nat) (random : Z) (action : UserAction_t) (t : Tetris)
    (Hstate : state t = SPAWN)
    (Hnext : figure_dims (next (game t))) :
  exists t' : Tetris,
    userInput fuel random action t = Some t'
    /\ (fst (high_score_update t) = ERROR -> t' = with_state EXIT_ERROR t)
    /\ (fst (high_score_update t) = NO_ERROR ->
        figure t' = next (game t)
        /\ next (game t') = next (game (assign_next_figure random t))
        /\ field (game t') = field (game t)
        /\ score (game t') = score (game t)
        /\ -4 <= pos_y (fig_pos t') <= 0
        /\ -1 <= pos_x (fig_pos t') <= 3
        /\ state t' = (if check_collide t' then GAMEOVER else MOVING)).
Proof.
  unfold userInput. rewrite Hstate.
  exists (on_spawn_state random t). split; [reflexivity |].
  unfold on_spawn_state. split.
  - intros Herr. rewrite Herr, (high_score_update_error_state t Herr). reflexivity.
  - intros Hcode. rewrite Hcode.
    change (NO_ERROR =? NO_ERROR) with true. cbv iota zeta.
    destruct (high_score_update_field t) as (Hf & Hn & Hs).
    set (t1 := assign_next_figure random
                 (copy_next_figure_to_figure (snd (high_score_update t)))).
    assert (H1 : figure t1 = next (game t)
                 /\ next (game t1) = next (game (assign_next_figure random t))
                 /\ field (game t1) = field (game t)
                 /\ score (game t1) = score (game t)).
    { unfold t1, assign_next_figure, copy_next_figure_to_figure.
      cbn [figure game field score next with_game with_figure with_next].
      rewrite Hn, Hf, Hs. split; [exact (tabulate_cell _ Hnext) |].
      split_conj; reflexivity. }
    clearbody t1. destruct H1 as (Hfig1 & Hnext1 & Hf1 & Hs1).
    destruct (init_figure_position_range t1) as (Hg & Hfig & _ & _ & Hy & Hx).
    cbv zeta in Hg, Hfig, Hy, Hx.
    set (t2 := init_figure_position t1) in *. clearbody t2.
    rewrite check_collide_with_state.
    cbn [game state with_state figure fig_pos]. rewrite Hg, Hfig.
    split_conj; first [assumption | reflexivity | lia].
Qed.

Lemma spawn_step_witness :
  exists t' : Tetris,
    userInput 0 9 No_signal
      (with_state SPAWN (assign_next_figure 5 (fresh_session no_note))) = Some t'
    /\ figure t' = spawned_figure 5 1
    /\ state t' = MOVING.
Proof.
  assert (Hnext : figure_dims
                    (next (game (with_state SPAWN
                                   (assign_next_figure 5 (fresh_session no_note))))))
    by check_dims.
  destruct (spawn_step 0 9 No_signal
              (with_state SPAWN (assign_next_figure 5 (fresh_session no_note)))
              eq_refl Hnext)
    as (t' & Hstep & _ & Hok).
  destruct (Hok eq_refl) as (Hfig & _ & _ & _ & _ & _ & Hst).
  exists t'. split; [exact Hstep |]. split; [exact Hfig |].
  rewrite Hst. vm_compute in Hstep. injection Hstep as <-. reflexivity.
Defined.

(** ** The cells of the field after an attachment *)

Lemma cell_set_cell_ne (m : Matrix) i j v i' j' :
  (i <> i' \/ j <> j') -> cell (set_cell m i j v) i' j' = cell m i' j'.
Proof.
  intros Hne. unfold cell, set_cell.
  destruct (Nat.eq_dec i i') as [<- | Hi].
  - rewrite list_lookup_alter_eq. destruct (m !! i) as [row |]; [| reflexivity].
    cbn. rewrite list_lookup_insert_ne by (destruct Hne; congruence). reflexivity.
  - now rewrite list_lookup_alter_ne.
Qed.

Lemma cell_set_cell_eq rows cols (m : Matrix) i j v :
  dims rows cols m -> (i < rows)%nat -> (j < cols)%nat ->
  cell (set_cell m i j v) i j = v.
Proof.
  intros [Hlen Hrows] Hi Hj. unfold cell, set_cell.
  rewrite list_lookup_alter_eq.
  destruct (lookup_lt_is_Some_2 m i ltac:(lia)) as [row Hrow]. rewrite Hrow. cbn.
  rewrite Forall_lookup in Hrows. specialize (Hrows i row Hrow).
  rewrite list_lookup_insert_eq by lia. reflexivity.
Qed.

Lemma store_field_dims (f : Matrix) y x v : field_dims f -> field_dims (store f y x v).
Proof.
  intros Hd. unfold store.
  destruct ((0 <=? y) && (0 <=? x)); [now apply set_cell_dims | exact Hd].
Qed.

(** [field[y][x] = 1] inside the field, seen from cell (r, c). *)
Lemma cell_store (f : Matrix) y x (r c : nat) :
  field_dims f -> in_field (y, x) ->
  cell (store f y x 1) r c
  = if decide (y = Z.of_nat r /\ x = Z.of_nat c) then 1 else cell f r c.
Proof.
  intros Hd [Hy Hx]. cbn [fst snd] in Hy, Hx. unfold store.
  replace ((0 <=? y) && (0 <=? x)) with true by (symmetry; apply andb_true_iff; lia).
  destruct (decide (y = Z.of_nat r /\ x = Z.of_nat c)) as [[-> ->] | Hne].
  - rewrite !Nat2Z.id.
    apply (cell_set_cell_eq ROWS_MAP COLS_MAP); [exact Hd | lia | lia].
  - apply cell_set_cell_ne. lia.
Qed.

(** The assignments of a list of cells inside the field, seen from cell
    (r, c). *)
Lemma cell_fold_store (ws : list (Z * Z)) : forall (f : Matrix) (r c : nat),
  field_dims f -> Forall in_field ws ->
  cell (fold_left (fun f yx => store f (fst yx) (snd yx) 1) ws f) r c
  = if decide ((Z.of_nat r, Z.of_nat c) ∈ ws) then 1 else cell f r c.
Proof.
  induction ws as [| [y x] ws IH]; intros f r c Hd Hws.
  - cbn. rewrite decide_False; [reflexivity | apply not_elem_of_nil].
  - apply Forall_cons in Hws as [Hyx Hws]. cbn [fold_left fst snd].
    rewrite IH by (try apply store_field_dims; assumption).
    rewrite (cell_store f y x r c Hd Hyx).
    destruct (decide ((Z.of_nat r, Z.of_nat c) ∈ ws)) as [Hin | Hout].
    + rewrite decide_True; [reflexivity | apply elem_of_cons; now right].
    + destruct (decide (y = Z.of_nat r /\ x = Z.of_nat c)) as [[-> ->] | Hne].
      * rewrite decide_True; [reflexivity | apply elem_of_cons; now left].
      * rewrite decide_False; [reflexivity |].
        intros Hin. apply elem_of_cons in Hin as [Heq | Hin]; [| contradiction].
        injection Heq as <- <-. apply Hne. split; reflexivity.
Qed.

(** The cells that [attach_figure_to_field] assigns are those of the cells of
    the figure that are not 0. *)
Lemma elem_of_attach_writes t (yx : Z * Z) :
  yx ∈ attach_writes t <->
  exists i j : nat,
    (i < SIDE_OF_FIGURE_SQUARE)%nat /\ (j < SIDE_OF_FIGURE_SQUARE)%nat
    /\ cell (figure t) i j <> 0
    /\ yx = (int_add (pos_y (fig_pos t)) (Z.of_nat i),
             int_add (pos_x (fig_pos t)) (Z.of_nat j)).
Proof.
  unfold attach_writes.
  pose proof (for_up_inv_at
                (fun k (ws : list (Z * Z)) =>
                   forall yx, yx ∈ ws <->
                     exists i j : nat,
                       (i < k)%nat /\ (j < SIDE_OF_FIGURE_SQUARE)%nat
                       /\ cell (figure t) i j <> 0
                       /\ yx = (int_add (pos_y (fig_pos t)) (Z.of_nat i),
                                int_add (pos_x (fig_pos t)) (Z.of_nat j)))) as Hout.
  cbv beta in Hout. apply (Hout _ 0%nat SIDE_OF_FIGURE_SQUARE []); clear Hout.
  - intros yx'. split; [intros Hin; now apply elem_of_nil in Hin |].
    intros (i & _ & Hi & _). lia.
  - intros i ws _ Hws.
    pose proof (for_up_inv_at
                  (fun k (ws' : list (Z * Z)) =>
                     forall yx, yx ∈ ws' <->
                       yx ∈ ws
                       \/ exists j : nat,
                            (j < k)%nat /\ cell (figure t) i j <> 0
                            /\ yx = (int_add (pos_y (fig_pos t)) (Z.of_nat i),
                                     int_add (pos_x (fig_pos t)) (Z.of_nat j)))) as Hin.
    cbv beta in Hin.
    specialize (Hin (fun j ws =>
                       if negb (cell (figure t) i j =? 0)
                       then ws ++ [(int_add (pos_y (fig_pos t)) (Z.of_nat i),
                                    int_add (pos_x (fig_pos t)) (Z.of_nat j))]
                       else ws)
                  0%nat SIDE_OF_FIGURE_SQUARE ws).
    cbn [Nat.add] in Hin. intros yx'. rewrite Hin; clear Hin.
    + rewrite Hws. split.
      * intros [(i' & j & Hi' & Hj & Hc & ->) | (j & Hj & Hc & ->)].
        -- exists i', j. split_conj; try assumption; try reflexivity. lia.
        -- exists i, j. split_conj; try assumption; try reflexivity. lia.
      * intros (i' & j & Hi' & Hj & Hc & ->).
        destruct (Nat.eq_dec i' i) as [-> | Hne].
        -- right. exists j. split_conj; try assumption; reflexivity.
        -- left. exists i', j. split_conj; try assumption; try reflexivity. lia.
    + intros yx''. split; [now left |]. intros [Hin | (j & Hj & _)]; [exact Hin | lia].
    + intros j ws' _ Hws' yx''.
      destruct (Z.eqb_spec (cell (figure t) i j) 0) as [Hz | Hnz]; cbn [negb].
      * rewrite Hws'. split.
        -- intros [Hin | (j' & Hj' & Hc & ->)]; [now left | right].
           exists j'. split_conj; try assumption; try reflexivity. lia.
        -- intros [Hin | (j' & Hj' & Hc & ->)]; [now left | right].
           exists j'. split_conj; try assumption; try reflexivity.
           destruct (Nat.eq_dec j' j) as [-> | Hne]; [contradiction | lia].
      * rewrite elem_of_app, Hws', list_elem_of_singleton. split.
        -- intros [[Hin | (j' & Hj' & Hc & ->)] | ->].
           ++ now left.
           ++ right. exists j'. split_conj; try assumption; try reflexivity. lia.
           ++ right. exists j. split_conj; try assumption; try reflexivity. lia.
        -- intros [Hin | (j' & Hj' & Hc & ->)]; [left; now left |].
           destruct (Nat.eq_dec j' j) as [-> | Hne]; [now right |].
           left. right. exists j'. split_conj; try assumption; try reflexivity. lia.
Qed.

Lemma written_iff_covered t (r c : nat) :
  binary (figure t) ->
  in_range (pos_x (fig_pos t)) -> in_range (pos_y (fig_pos t)) ->
  (r < ROWS_MAP)%nat -> (c < COLS_MAP)%nat ->
  (Z.of_nat r, Z.of_nat c) ∈ attach_writes t <-> covered t r c.
Proof.
  intros Hb Hx Hy Hr Hc. rewrite elem_of_attach_writes. unfold covered.
  unfold ROWS_MAP in Hr. unfold COLS_MAP in Hc. split.
  - intros (i & j & Hi & Hj & Hset & Heq). injection Heq as Hrow Hcol.
    exists i, j. split; [exact Hi |]. split; [exact Hj |]. split.
    + destruct (binary_cell (figure t) i j Hb); [contradiction | assumption].
    + destruct (int_add_offset _ i Hy Hi) as [He | [Hneg _]]; [| lia].
      destruct (int_add_offset _ j Hx Hj) as [He' | [Hneg _]]; [| lia].
      lia.
  - intros (i & j & Hi & Hj & Hset & Hrow & Hcol).
    exists i, j. split; [exact Hi |]. split; [exact Hj |]. split; [lia |].
    destruct (int_add_offset _ i Hy Hi) as [He | [_ Hbig]];
      [| unfold INT_MAX in Hbig; lia].
    destruct (int_add_offset _ j Hx Hj) as [He' | [_ Hbig]];
      [| unfold INT_MAX in Hbig; lia].
    rewrite He, He', Hrow, Hcol. reflexivity.
Qed.

(** The field after an attachment, cell by cell. *)
Lemma attach_cell t (r c : nat) :
  binary (figure t) -> field_dims (field (game t)) ->
  in_range (pos_x (fig_pos t)) -> in_range (pos_y (fig_pos t)) ->
  check_collide t = false ->
  (r < ROWS_MAP)%nat -> (c < COLS_MAP)%nat ->
  (covered t r c -> cell (field (game (attach_figure_to_field t))) r c = 1)
  /\ (~ covered t r c ->
      cell (field (game (attach_figure_to_field t))) r c
      = cell (field (game t)) r c).
Proof.
  intros Hb Hd Hx Hy Hfree Hr Hc.
  rewrite attach_figure_to_field_writes.
  rewrite cell_fold_store by (try apply attach_writes_in_field; assumption).
  pose proof (written_iff_covered t r c Hb Hx Hy Hr Hc) as Hiff.
  destruct (decide ((Z.of_nat r, Z.of_nat c) ∈ attach_writes t)) as [Hin | Hout];
    split; intros Hcov; try reflexivity; tauto.
Qed.

Lemma fold_store_field_dims (ws : list (Z * Z)) : forall f : Matrix,
  field_dims f ->
  field_dims (fold_left (fun f yx => store f (fst yx) (snd yx) 1) ws f).
Proof.
  induction ws as [| yx ws IH]; intros f Hd; [exact Hd |].
  cbn [fold_left]. apply IH. now apply store_field_dims.
Qed.

(** X10. Attaching a figure of cells 0 or 1 that does not collide sets to 1
    exactly the cells of the field that lie under a set cell of the figure:
    those cells become 1 and every other cell keeps its value, so no cell that
    was 1 is lost; the field keeps its size, and figure, position, state and
    score are as before. *)
Theorem attach_figure_to_field_cells (t : Tetris)
    (Hfig : binary (figure t))
    (Hfield : field_dims (field (game t)))
    (Hx : in_range (pos_x (fig_pos t)))
    (Hy : in_range (pos_y (fig_pos t)))
    (Hfree : check_collide t = false) :
  let t' := attach_figure_to_field t in
  (forall r c : nat, (r < ROWS_MAP)%nat -> (c < COLS_MAP)%nat ->
      (covered t r c -> cell (field (game t')) r c = 1)
      /\ (~ covered t r c -> cell (field (game t')) r c = cell (field (game t)) r c))
  /\ (forall r c : nat,
         cell (field (game t)) r c = 1 -> cell (field (game t')) r c = 1)
  /\ field_dims (field (game t'))
  /\ figure t' = figure t /\ fig_pos t' = fig_pos t /\ state t' = state t
  /\ score (game t') = score (game t).
Proof.
  intros t'. split; [| split; [| split]].
  - intros r c Hr Hc. exact (attach_cell t r c Hfig Hfield Hx Hy Hfree Hr Hc).
  - intros r c Hone.
    unfold t'. rewrite attach_figure_to_field_writes.
    rewrite cell_fold_store by (try apply attach_writes_in_field; assumption).
    destruct (decide _); [reflexivity | exact Hone].
  - unfold t'. rewrite attach_figure_to_field_writes.
    now apply fold_store_field_dims.
  - split_conj; reflexivity.
Qed.

Lemma attach_figure_to_field_cells_witness :
  cell (field (game (attach_figure_to_field square_over_ledge))) 0 3 = 1
  /\ cell (field (game (attach_figure_to_field square_over_ledge))) 5 3 = 1
  /\ field_dims (field (game (attach_figure_to_field square_over_ledge))).
Proof.
  assert (Hfig : binary (figure square_over_ledge)) by check_binary.
  assert (Hfield : field_dims (field (game square_over_ledge))) by check_dims.
  assert (Hx : in_range (pos_x (fig_pos square_over_ledge))) by (vm_compute; split; discriminate).
  assert (Hy : in_range (pos_y (fig_pos square_over_ledge))) by (vm_compute; split; discriminate).
  assert (Hfree : check_collide square_over_ledge = false) by reflexivity.
  destruct (attach_figure_to_field_cells square_over_ledge Hfig Hfield Hx Hy Hfree)
    as (Hcells & Hkept & Hdims & _).
  split; [| split; [| exact Hdims]].
  - apply (Hcells 0%nat 3%nat); [unfold ROWS_MAP; lia | unfold COLS_MAP; lia |].
    exists 1%nat, 1%nat. vm_compute. repeat split; lia.
  - apply Hkept. reflexivity.
Defined.

(** A figure cell that is set lies, when the figure does not collide, on a
    cell of the field. *)
Lemma free_set_cell_in_field t i j :
  (i < SIDE_OF_FIGURE_SQUARE)%nat -> (j < SIDE_OF_FIGURE_SQUARE)%nat ->
  cell (figure t) i j = 1 ->
  in_range (pos_x (fig_pos t)) -> in_range (pos_y (fig_pos t)) ->
  check_collide t = false ->
  0 <= pos_y (fig_pos t) + Z.of_nat i < Z.of_nat ROWS_MAP
  /\ 0 <= pos_x (fig_pos t) + Z.of_nat j < Z.of_nat COLS_MAP.
Proof.
  intros Hi Hj Hset Hx Hy Hfree.
  rewrite check_collide_false in Hfree. specialize (Hfree i j Hi Hj).
  apply (collide_at_set t i j Hset) in Hfree. cbv zeta in Hfree.
  destruct (int_add_offset _ i Hy Hi) as [Heq | [Hneg _]]; [| lia].
  destruct (int_add_offset _ j Hx Hj) as [Heq' | [Hneg _]]; lia.
Qed.

(** Once attached, the figure collides with the field. *)
Lemma attached_figure_collides t :
  binary (figure t) -> has_set_cell (figure t) ->
  field_dims (field (game t)) ->
  in_range (pos_x (fig_pos t)) -> in_range (pos_y (fig_pos t)) ->
  check_collide t = false ->
  check_collide (attach_figure_to_field t) = true.
Proof.
  intros Hb (i & j & Hi & Hj & Hset) Hd Hx Hy Hfree.
  destruct (free_set_cell_in_field t i j Hi Hj Hset Hx Hy Hfree) as [Hrow Hcol].
  apply check_collide_true. exists i, j. split; [exact Hi |]. split; [exact Hj |].
  apply collide_at_blocked; [exact Hx | exact Hy | exact Hi | exact Hj |].
  split; [exact Hset |].
  change (fig_pos (attach_figure_to_field t)) with (fig_pos t).
  unfold blocked. do 4 right. unfold load.
  replace (0 <=? pos_y (fig_pos t) + Z.of_nat i) with true by (symmetry; apply Z.leb_le; lia).
  replace (0 <=? pos_x (fig_pos t) + Z.of_nat j) with true by (symmetry; apply Z.leb_le; lia).
  cbn [andb].
  apply (attach_cell t _ _ Hb Hd Hx Hy Hfree).
  - unfold ROWS_MAP in *. lia.
  - unfold COLS_MAP in *. lia.
  - exists i, j. split; [exact Hi |]. split; [exact Hj |]. split; [exact Hset |]. lia.
Qed.

Lemma filter_none {A} (P : A -> Prop) `{forall x, Decision (P x)} (l : list A) :
  Forall (fun x => ~ P x) l ->
  filter P l = [] /\ filter (fun x => ~ P x) l = l.
Proof.
  induction 1 as [| x l Hx _ [IH1 IH2]]; [split; reflexivity |].
  rewrite !filter_cons. rewrite decide_False by exact Hx.
  rewrite decide_True by exact Hx. rewrite IH1, IH2. split; reflexivity.
Qed.

(** X11. The step in state ATTACHING, when the attached figure completes no
    row and the level is at most 10: the figure is attached, nothing else of
    the game changes, and the controller goes to SPAWN. *)
Theorem attaching_without_row_spawns (fuel : nat) (random : Z)
    (action : UserAction_t) (t : Tetris)
    (Hstate : state t = ATTACHING)
    (Hfig : binary (figure t))
    (Hset : has_set_cell (figure t))
    (Hfield : field_dims (field (game t)))
    (Hx : in_range (pos_x (fig_pos t)))
    (Hy : in_range (pos_y (fig_pos t)))
    (Hfree : check_collide t = false)
    (Hlevel : level (game t) <= MAX_LEVEL)
    (Hnone : Forall (fun row => ~ complete_row row)
               (field (game (attach_figure_to_field t)))) :
  userInput fuel random action t
  = Some (with_state SPAWN (attach_figure_to_field t)).
Proof.
  unfold userInput. rewrite Hstate. f_equal.
  pose proof (attached_figure_collides t Hfig Hset Hfield Hx Hy Hfree) as Hhit.
  assert (Hdims : field_dims (field (game (attach_figure_to_field t)))).
  { rewrite attach_figure_to_field_writes. now apply fold_store_field_dims. }
  assert (Hlev : level (game (attach_figure_to_field t)) = level (game t))
    by reflexivity.
  assert (Hst : state (attach_figure_to_field t) = ATTACHING) by exact Hstate.
  unfold on_attaching_state.
  set (ta := attach_figure_to_field t) in *. clearbody ta.
  assert (Hrows : destruction_of_rows ta = (0, ta)).
  { unfold destruction_of_rows. rewrite (destruction_loop_collapse _ Hdims).
    destruct (filter_none complete_row _ Hnone) as [-> ->].
    cbn [fst snd length replicate app Z.of_nat].
    destruct ta as [[f nx s h l sp pa] fig p st r]. reflexivity. }
  cbv zeta. rewrite Hrows. cbn [fst snd]. rewrite recalculate_stats_zero.
  rewrite Hst, Hhit. cbn [TetrisState_eqb andb].
  change (level (game (with_state SPAWN ta))) with (level (game ta)).
  rewrite Hlev. replace (level (game t) >? MAX_LEVEL) with false; [reflexivity |].
  symmetry. rewrite Z.gtb_ltb. apply Z.ltb_ge. exact Hlevel.
Qed.

Lemma attaching_without_row_spawns_witness :
  userInput 0 7 No_signal
    (session ATTACHING (replicate ROWS_MAP zero_row) (spawned_figure 1 0) 2 17)
  = Some (with_state SPAWN
            (attach_figure_to_field
               (session ATTACHING (replicate ROWS_MAP zero_row)
                  (spawned_figure 1 0) 2 17))).
Proof.
  apply attaching_without_row_spawns.
  - reflexivity.
  - check_binary.
  - exists 1%nat, 1%nat. vm_compute. repeat split; lia.
  - check_dims.
  - vm_compute. split; discriminate.
  - vm_compute. split; discriminate.
  - reflexivity.
  - vm_compute. discriminate.
  - apply (bool_decide_unpack _). vm_compute. reflexivity.
Defined.

(** ** Destroying rows, once more *)

Lemma cell_sum_cons row (m : Matrix) :
  cell_sum (row :: m) = foldr Z.add 0 row + cell_sum m.
Proof.
  unfold cell_sum. cbn [concat]. rewrite foldr_app.
  generalize (foldr Z.add 0 (concat m)). intros z.
  induction row as [| c row IH]; cbn [foldr]; lia.
Qed.

Lemma cell_sum_app (a b : Matrix) : cell_sum (a ++ b) = cell_sum a + cell_sum b.
Proof.
  induction a as [| row a IH]; [reflexivity |].
  change ((row :: a) ++ b) with (row :: (a ++ b)).
  rewrite !cell_sum_cons, IH. lia.
Qed.

Lemma cell_sum_zero_rows n : cell_sum (replicate n zero_row) = 0.
Proof.
  induction n as [| n IH]; [reflexivity |].
  cbn [replicate]. rewrite cell_sum_cons, IH. reflexivity.
Qed.

Lemma complete_row_sum row : complete_row row -> foldr Z.add 0 row = Z.of_nat (length row).
Proof.
  induction 1 as [| c row Hc _ IH]; [reflexivity |].
  cbn [foldr length]. rewrite IH, Hc. lia.
Qed.

(** The cells that a pass of [destruction_of_rows] takes out. *)
Lemma cell_sum_filter (f : Matrix) :
  Forall (fun row => length row = COLS_MAP) f ->
  cell_sum f
  = Z.of_nat COLS_MAP * Z.of_nat (length (filter complete_row f))
    + cell_sum (filter (fun row => ~ complete_row row) f).
Proof.
  induction 1 as [| row f Hlen _ IH]; [reflexivity |].
  rewrite !filter_cons, cell_sum_cons. destruct (decide (complete_row row)) as [Hc | Hn].
  - rewrite decide_False by tauto. cbn [length].
    rewrite (complete_row_sum row Hc), Hlen. lia.
  - rewrite decide_True by exact Hn. rewrite cell_sum_cons. lia.
Qed.

(** X12. A pass of [destruction_of_rows] over a 20x10 field settles it: the
    field it leaves is 20x10, of cells 0 or 1 if the field was, and has no
    complete row; the number returned is between 0 and 20, each row counted
    takes ten set cells out of the field, nothing but the field changes, and
    a second pass returns 0 and changes nothing. *)
Theorem destruction_of_rows_settles (t : Tetris)
    (Hdims : field_dims (field (game t))) :
  let r := destruction_of_rows t in
  field_dims (field (game (snd r)))
  /\ (binary (field (game t)) -> binary (field (game (snd r))))
  /\ Forall (fun row => ~ complete_row row) (field (game (snd r)))
  /\ 0 <= fst r <= 20
  /\ cell_sum (field (game (snd r))) = cell_sum (field (game t)) - 10 * fst r
  /\ snd r = with_game (with_field (field (game (snd r))) (game t)) t
  /\ destruction_of_rows (snd r) = (0, snd r).
Proof.
  intros r.
  destruct (destruction_loop_ok (field (game t)) Hdims) as (Hd & Hb & Hnone & Hcount).
  pose proof (destruction_loop_collapse _ Hdims) as Hloop.
  pose proof (cell_sum_filter (field (game t)) (proj2 Hdims)) as Hsum.
  unfold r, destruction_of_rows.
  set (l := destruction_loop (field (game t))) in *. clearbody l.
  cbn [fst snd game field with_game with_field].
  split; [exact Hd |]. split; [exact Hb |]. split; [exact Hnone |].
  split; [exact Hcount |]. split; [| split].
  - rewrite Hloop. cbn [fst snd].
    rewrite cell_sum_app, cell_sum_zero_rows, Hsum.
    unfold COLS_MAP. lia.
  - reflexivity.
  - rewrite (destruction_loop_collapse _ Hd).
    destruct (filter_none complete_row _ Hnone) as [Hnil Hsame].
    rewrite Hnil, Hsame.
    cbn [fst snd length replicate app Z.of_nat]. reflexivity.
Qed.

Lemma destruction_of_rows_settles_witness :
  fst (destruction_of_rows (session ATTACHING field_3_7 (spawned_figure 0 0) 0 0)) = 2
  /\ cell_sum (field (game (snd (destruction_of_rows
                 (session ATTACHING field_3_7 (spawned_figure 0 0) 0 0)))))
     = cell_sum field_3_7 - 20.
Proof.
  assert (Hdims : field_dims
                    (field (game (session ATTACHING field_3_7 (spawned_figure 0 0) 0 0))))
    by check_dims.
  destruct (destruction_of_rows_settles _ Hdims) as (_ & _ & _ & _ & Hsum & _).
  split; [vm_compute; reflexivity |]. rewrite Hsum. vm_compute. reflexivity.
Defined.

(** ** Score, level and speed along a session *)

Lemma recalculate_stats_other n_rows t :
  n_rows <> 0 -> ~ 1 <= n_rows <= 4 ->
  in_range (score (game t)) ->
  game (recalculate_stats n_rows t)
  = with_speed (500 - (1 + Z.quot (score (game t)) 600 - 1) * 30)
      (with_level (1 + Z.quot (score (game t)) 600) (game t)).
Proof.
  intros Hnz Hout Hs.
  destruct (recalculate_level_speed (score (game t)) Hs) as [Hlevel Hspeed].
  unfold recalculate_stats.
  destruct (Z.eqb_spec n_rows 0); [contradiction |].
  destruct (Z.eqb_spec n_rows 1); [lia |].
  destruct (Z.eqb_spec n_rows 2); [lia |].
  destruct (Z.eqb_spec n_rows 3); [lia |].
  destruct (Z.eqb_spec n_rows 4); [lia |].
  cbv zeta. cbn [game with_game score level with_level with_speed].
  rewrite Hlevel, Hspeed. reflexivity.
Qed.

(** From a score under 6000, whatever the number of rows. *)
Lemma recalculate_stats_derived n_rows t :
  n_rows <> 0 ->
  0 <= score (game t) < 6000 ->
  let t' := recalculate_stats n_rows t in
  score (game t) <= score (game t') < 7500
  /\ level (game t') = 1 + score (game t') / 600
  /\ speed (game t') = INITIAL_TIMEOUT - (level (game t') - 1) * SPEED_DECREMENT.
Proof.
  intros Hnz Hs t'. unfold INITIAL_TIMEOUT, SPEED_DECREMENT.
  assert (Hr : in_range (score (game t)))
    by (unfold in_range, INT_MIN, INT_MAX; lia).
  destruct (Z_le_gt_dec 1 n_rows) as [H1 | H0];
    [destruct (Z_le_gt_dec n_rows 4) as [H4 | H5] |].
  - assert (Hgame := recalculate_stats_rows n_rows t (conj H1 H4) Hr
                       ltac:(unfold INT_MAX; lia)).
    cbv zeta in Hgame. unfold t'. rewrite Hgame.
    cbn [score level speed with_score with_level with_speed].
    assert (Hb : 0 <= score_bonus n_rows <= 1500).
    { unfold score_bonus.
      assert (Hc : n_rows = 1 \/ n_rows = 2 \/ n_rows = 3 \/ n_rows = 4) by lia.
      destruct Hc as [-> | [-> | [-> | ->]]]; simpl; lia. }
    rewrite Z.quot_div_nonneg by lia. lia.
  - unfold t'. rewrite recalculate_stats_other by (assumption || lia).
    cbn [score level speed with_score with_level with_speed].
    rewrite Z.quot_div_nonneg by lia. lia.
  - unfold t'. rewrite recalculate_stats_other by (assumption || lia).
    cbn [score level speed with_score with_level with_speed].
    rewrite Z.quot_div_nonneg by lia. lia.
Qed.

Lemma movedown_loop_game fuel : forall t t1,
  movedown_loop fuel t = Some t1 -> game t1 = game t /\ state t1 = state t.
Proof.
  induction fuel as [| fuel IH]; intros t t1 Hloop; [discriminate |].
  cbn [movedown_loop] in Hloop. destruct (check_collide t).
  - injection Hloop as <-. split; reflexivity.
  - destruct (IH _ _ Hloop) as [Hg Hs]. rewrite Hg, Hs. split; reflexivity.
Qed.

(** A step in state MOVING leaves the game data, and goes to SHIFTING, or to
    GAMEOVER on [Terminate]. *)
Lemma on_moving_state_game fuel action t t' :
  state t = MOVING ->
  on_moving_state fuel action t = Some t' ->
  game t' = game t
  /\ state t' = (match action with Terminate => GAMEOVER | _ => SHIFTING end).
Proof.
  intros Hstate Hstep. unfold on_moving_state in Hstep.
  assert (Hgen : forall m, game m = game t -> state m = MOVING ->
            (if negb (TetrisState_eqb (state m) GAMEOVER)
                && negb (TetrisState_eqb (state m) EXIT_ERROR)
             then Some (with_state SHIFTING m) else Some m) = Some t' ->
            game t' = game t /\ state t' = SHIFTING).
  { intros m Hg Hs Heq. rewrite Hs in Heq. cbn in Heq. injection Heq as <-.
    split; [exact Hg | reflexivity]. }
  destruct action.
  - apply (Hgen t); [reflexivity | exact Hstate | exact Hstep].
  - apply (Hgen (pause_game t)); [reflexivity | exact Hstate | exact Hstep].
  - cbn in Hstep. injection Hstep as <-. split; reflexivity.
  - apply (Hgen (moveleft t)); [| | exact Hstep];
      unfold moveleft; destruct (check_collide _); (reflexivity || exact Hstate).
  - apply (Hgen (moveright t)); [| | exact Hstep];
      unfold moveright; destruct (check_collide _); (reflexivity || exact Hstate).
  - apply (Hgen (moveup t)); [reflexivity | exact Hstate | exact Hstep].
  - unfold movedown in Hstep.
    destruct (movedown_loop fuel t) as [t1 |] eqn:Hloop; [| discriminate].
    destruct (movedown_loop_game _ _ _ Hloop) as [Hg Hs].
    apply (Hgen (decr_y t1)); [exact Hg | | exact Hstep].
    change (state (decr_y t1)) with (state t1). now rewrite Hs.
  - apply (Hgen (rotate_action t)); [| | exact Hstep];
      unfold rotate_action; destruct (check_collide _); (reflexivity || exact Hstate).
  - apply (Hgen t); [reflexivity | exact Hstate | exact Hstep].
Qed.

Lemma attach_figure_to_field_shape t :
  exists f : Matrix, attach_figure_to_field t = with_game (with_field f (game t)) t.
Proof. unfold attach_figure_to_field. eexists. reflexivity. Qed.

Lemma destruction_of_rows_shape t :
  exists f : Matrix,
    snd (destruction_of_rows t) = with_game (with_field f (game t)) t.
Proof. unfold destruction_of_rows. eexists. reflexivity. Qed.

(** A state with the same score, level and speed, that is over if the first
    one is. *)
Lemma stats_ok_same t t' :
  stats_ok t ->
  score (game t') = score (game t) -> level (game t') = level (game t) ->
  speed (game t') = speed (game t) ->
  (state t = GAMEOVER -> state t' = GAMEOVER) ->
  stats_ok t'.
Proof.
  intros (Hs & Hl & Hsp & Hrun) Es El Esp Hover. unfold stats_ok.
  rewrite Es, El, Esp. split; [exact Hs |]. split; [exact Hl |].
  split; [exact Hsp |]. intros Hne. apply Hrun. intros Hg. auto.
Qed.

Lemma level_over s : 0 <= s -> (1 + s / 600 <= MAX_LEVEL <-> s < 6000).
Proof.
  intros Hs. unfold MAX_LEVEL. split; intros H.
  - destruct (Z_lt_ge_dec s 6000) as [Hlt | Hge]; [exact Hlt |].
    assert (10 <= s / 600) by (apply Z.div_le_lower_bound; lia). lia.
  - assert (s / 600 < 10) by (apply Z.div_lt_upper_bound; lia). lia.
Qed.

(** One step of the controller keeps [stats_ok] and does not lower the
    score. *)
Lemma userInput_stats_ok fuel random action t t' :
  stats_ok t -> userInput fuel random action t = Some t' ->
  stats_ok t' /\ score (game t) <= score (game t').
Proof.
  intros Hok Hstep. unfold userInput in Hstep.
  destruct (state t) eqn:Hstate.
  - (* START *)
    injection Hstep as <-. split.
    + apply (stats_ok_same t); [exact Hok | | | | rewrite Hstate; discriminate];
        unfold on_start_state; destruct action; reflexivity.
    + unfold on_start_state; destruct action; cbn; lia.
  - (* SPAWN *)
    injection Hstep as <-.
    destruct (high_score_update_keeps t) as (Hg & _). cbv zeta in Hg.
    assert (Hsc : score (game (snd (high_score_update t))) = score (game t)
                  /\ level (game (snd (high_score_update t))) = level (game t)
                  /\ speed (game (snd (high_score_update t))) = speed (game t)).
    { destruct (game (snd (high_score_update t))). rewrite <- Hg.
      split; [| split]; reflexivity. }
    destruct Hsc as (Es & El & Esp).
    assert (Hall : score (game (on_spawn_state random t)) = score (game t)
                   /\ level (game (on_spawn_state random t)) = level (game t)
                   /\ speed (game (on_spawn_state random t)) = speed (game t)).
    { unfold on_spawn_state. destruct (_ =? NO_ERROR).
      - cbv zeta.
        set (t1 := assign_next_figure random
                     (copy_next_figure_to_figure (snd (high_score_update t)))).
        assert (Hg0 : game t1
                      = with_next (next (game t1)) (game (snd (high_score_update t))))
          by reflexivity.
        destruct (init_figure_position_range t1) as (Hg1 & _). cbv zeta in Hg1.
        clearbody t1.
        set (t2 := init_figure_position t1) in *. clearbody t2.
        cbn [game with_state]. rewrite Hg1, Hg0.
        cbn [score level speed with_next]. split; [| split]; assumption.
      - cbn [game with_state]. split; [| split]; assumption. }
    destruct Hall as (Es' & El' & Esp'). split; [| lia].
    apply (stats_ok_same t); try assumption. rewrite Hstate. discriminate.
  - (* MOVING *)
    destruct (on_moving_state_game _ _ _ _ Hstate Hstep) as [Hg _].
    split; [| rewrite Hg; lia].
    apply (stats_ok_same t); try (rewrite Hg; reflexivity); [exact Hok |].
    rewrite Hstate. discriminate.
  - (* SHIFTING *)
    injection Hstep as <-.
    assert (Hg : game (on_shifting_state t) = game t).
    { unfold on_shifting_state. destruct (check_collide _); reflexivity. }
    split; [| rewrite Hg; lia].
    apply (stats_ok_same t); try (rewrite Hg; reflexivity); [exact Hok |].
    rewrite Hstate. discriminate.
  - (* ATTACHING *)
    injection Hstep as <-.
    destruct (on_attaching_state_state t Hstate) as [Hg Hst]. cbv zeta in Hg, Hst.
    destruct (attach_figure_to_field_shape t) as [f1 ->] in Hg, Hst.
    destruct (destruction_of_rows_shape (with_game (with_field f1 (game t)) t))
      as [f2 Hsnd].
    rewrite Hsnd in Hg, Hst.
    set (n := fst (destruction_of_rows (with_game (with_field f1 (game t)) t))) in *.
    clearbody n. clear Hsnd.
    set (t0 := with_game
                 (with_field f2 (game (with_game (with_field f1 (game t)) t)))
                 (with_game (with_field f1 (game t)) t)) in *.
    assert (E0 : score (game t0) = score (game t) /\ level (game t0) = level (game t)
                 /\ speed (game t0) = speed (game t)) by (split; [| split]; reflexivity).
    destruct E0 as (Es & El & Esp). clearbody t0.
    destruct Hok as (Hs & Hl & Hsp & Hrun).
    assert (Hlt : score (game t) < 6000) by (apply Hrun; rewrite Hstate; discriminate).
    unfold stats_ok. rewrite Hg.
    destruct (Z.eq_dec n 0) as [-> | Hnz].
    + rewrite recalculate_stats_zero in *. rewrite Es, El, Esp.
      split; [| lia]. split; [exact Hs |]. split; [exact Hl |].
      split; [exact Hsp |]. intros _. exact Hlt.
    + destruct (recalculate_stats_derived n t0 Hnz ltac:(lia)) as (Hs' & Hl' & Hsp').
      split; [| lia]. split; [lia |]. split; [exact Hl' |]. split; [exact Hsp' |].
      intros Hne. rewrite Hst in Hne.
      destruct (Z.gtb_spec (level (game (recalculate_stats n t0))) MAX_LEVEL)
        as [Hgt | Hle]; [contradiction |].
      rewrite Hl' in Hle. apply level_over in Hle; lia.
  - (* GAMEOVER *)
    injection Hstep as <-. split; [exact Hok | reflexivity].
  - (* EXIT_ERROR *)
    injection Hstep as <-. split; [exact Hok | reflexivity].
Qed.

Lemma run_stats_ok steps : forall t t',
  stats_ok t -> run steps t = Some t' ->
  stats_ok t' /\ score (game t) <= score (game t').
Proof.
  induction steps as [| [[fuel random] action] steps IH]; intros t t' Hok Hrun.
  - injection Hrun as <-. split; [exact Hok | reflexivity].
  - cbn [run] in Hrun.
    destruct (userInput fuel random action t) as [t1 |] eqn:Hstep; [| discriminate].
    destruct (userInput_stats_ok _ _ _ _ _ Hok Hstep) as [Hok1 Hle1].
    destruct (IH t1 t' Hok1 Hrun) as [Hok' Hle']. split; [exact Hok' | lia].
Qed.

(** X13. In a new game the score is 0, the level 1 and the speed 500, and
    whatever the keys and the numbers drawn, at every state reached from there
    (or from any state where this holds) the level is 1 + score / 600 and the
    speed 500 - 30 (level - 1); the score never goes down and stays under
    7500; and as long as the game is not over the score is under 6000, so the
    level is between 1 and 10 and the speed between 230 and 500. *)
Theorem stats_ok_reachable (steps : list (nat * Z * UserAction_t))
    (t t' : Tetris)
    (Hok : stats_ok t)
    (Hrun : run steps t = Some t') :
  (forall r : RecordNote, stats_ok (fresh_session r))
  /\ stats_ok t'
  /\ score (game t) <= score (game t')
  /\ (state t' <> GAMEOVER ->
      1 <= level (game t') <= MAX_LEVEL /\ 230 <= speed (game t') <= 500).
Proof.
  destruct (run_stats_ok steps t t' Hok Hrun) as [Hok' Hle].
  split; [| split; [exact Hok' | split; [exact Hle |]]].
  - intros r. unfold stats_ok. cbn. split; [lia |]. split; [reflexivity |].
    split; [reflexivity |]. lia.
  - intros Hne. destruct Hok' as (Hs & Hl & Hsp & Hlt). specialize (Hlt Hne).
    assert (Hlev : 1 + score (game t') / 600 <= MAX_LEVEL) by (apply level_over; lia).
    assert (0 <= score (game t') / 600) by (apply Z.div_pos; lia).
    rewrite Hsp, Hl. unfold MAX_LEVEL, INITIAL_TIMEOUT, SPEED_DECREMENT in *. lia.
Qed.

Lemma stats_ok_reachable_witness :
  exists t' : Tetris,
    run [(0%nat, 0, No_signal)] bar_completes_bottom = Some t'
    /\ score (game t') = 100
    /\ stats_ok t'
    /\ 0 <= score (game t').
Proof.
  eexists. split; [vm_compute; reflexivity |]. split; [reflexivity |].
  assert (Hok : stats_ok bar_completes_bottom).
  { unfold stats_ok. cbn. split; [lia |]. split; [reflexivity |].
    split; [reflexivity |]. lia. }
  destruct (stats_ok_reachable [(0%nat, 0, No_signal)] bar_completes_bottom _ Hok
              ltac:(vm_compute; reflexivity)) as (_ & Hok' & Hle & _).
  split; [exact Hok' | exact Hle].
Defined.

(** ** The high score in memory *)

(** X14. What [high_score_update] does to the memory and to the record file.
    Only the high score in memory and the text of the file can change. When
    the high score in memory is not 0 and the score does not exceed it,
    nothing changes. When the file is consulted and opened for update, and
    its text denotes for [fscanf] a number [v] that fits in an [int], the
    high score in memory becomes the greater of [v] and the score, and the
    text of the score (an [int]) is written over the start of the old text if
    the score exceeds [v], the characters after it staying; when [fscanf]
    converts no number there, the same happens with the high score in memory
    in the place of [v]. If the old text is the decimal text of a number from
    0 to [INT_MAX], the file then holds exactly the text of the greater of
    the two. When the file cannot be opened for update the high score in
    memory stays as it is, and the file, if it can be written, holds the
    text of the score. *)
Theorem high_score_update_memory (t : Tetris) :
  let t' := snd (high_score_update t) in
  with_high_score (high_score (game t)) (game t') = game t
  /\ figure t' = figure t /\ fig_pos t' = fig_pos t /\ state t' = state t
  /\ update_ok (record_note t') = update_ok (record_note t)
  /\ write_ok (record_note t') = write_ok (record_note t)
  /\ (~ consults_note (game t) -> t' = t)
  /\ (forall (txt : list ascii) (v : Z),
         consults_note (game t) ->
         in_range (score (game t)) ->
         fopen_update (record_note t) = Some txt ->
         scan_int txt = Some v -> in_range v ->
         high_score (game t') = Z.max v (score (game t))
         /\ note_text (record_note t')
            = Some (if score (game t) >? v
                    then overwrite (print_int (score (game t))) txt else txt))
  /\ (forall txt : list ascii,
         consults_note (game t) ->
         in_range (score (game t)) ->
         fopen_update (record_note t) = Some txt ->
         scan_int txt = None ->
         high_score (game t') = Z.max (high_score (game t)) (score (game t))
         /\ note_text (record_note t')
            = Some (if score (game t) >? high_score (game t)
                    then overwrite (print_int (score (game t))) txt else txt))
  /\ (forall v : Z,
         consults_note (game t) ->
         in_range (score (game t)) -> 0 <= v <= INT_MAX ->
         fopen_update (record_note t) = Some (print_int v) ->
         high_score (game t') = Z.max v (score (game t))
         /\ note_text (record_note t')
            = Some (print_int (Z.max v (score (game t)))))
  /\ (fopen_update (record_note t) = None ->
      high_score (game t') = high_score (game t)
      /\ (consults_note (game t) -> in_range (score (game t)) ->
          fopen_write (record_note t) = true ->
          note_text (record_note t') = Some (print_int (score (game t))))
      /\ (fopen_write (record_note t) = false -> t' = t)).
Proof.
  intros t'.
  destruct (high_score_update_keeps t) as (Hg & Hf & Hp & Hs & Hu & Hw).
  cbv zeta in Hg, Hf, Hp, Hs, Hu, Hw. fold t' in Hg, Hf, Hp, Hs, Hu, Hw.
  split; [exact Hg |]. split; [exact Hf |]. split; [exact Hp |].
  split; [exact Hs |]. split; [exact Hu |]. split; [exact Hw |].
  split; [| split; [| split; [| split]]].
  - intros Hno. unfold t'. now rewrite high_score_update_skipped.
  - intros txt v Hc _ Hopen Hscan Hv.
    exact (high_score_update_read t txt v Hc Hopen Hscan Hv).
  - intros txt Hc _ Hopen Hscan.
    pose proof (fopen_update_text _ _ Hopen) as Htext.
    apply consults_note_guard in Hc.
    unfold t', high_score_update. rewrite Hc, Hopen.
    unfold fscanf_high_score. rewrite Hscan. cbv zeta.
    destruct (Z.gtb_spec (score (game t)) (high_score (game t))) as [Hgt | Hle].
    + split; [| reflexivity].
      cbn [snd game high_score with_game with_high_score]. lia.
    + split; [| exact Htext].
      clear t' Hg Hf Hp Hs Hu Hw Htext Hopen.
      destruct t as [g fig p st r]. cbn in *. lia.
  - intros v Hc Hsc Hv Hopen.
    destruct (high_score_update_opened t v Hc Hsc Hv Hopen) as [Hn Hh].
    split; assumption.
  - intros Hclosed. unfold t', high_score_update. rewrite Hclosed.
    destruct ((high_score (game t) =? 0) || (score (game t) >? high_score (game t)))
      eqn:Hguard.
    + destruct (fopen_write (record_note t)).
      * split; [reflexivity |]. split; [| discriminate].
        intros _ _ _. cbn [snd record_note with_record_note note_text fprintf_note].
        unfold overwrite. rewrite drop_nil. now rewrite app_nil_r.
      * split; [reflexivity |]. split; [discriminate | reflexivity].
    + split; [reflexivity |]. split; [| reflexivity].
      intros Hc. apply consults_note_guard in Hc. congruence.
Qed.

Lemma high_score_update_memory_witness :
  high_score (game (snd (high_score_update (scoring_session 50 0 note_100)))) = 100
  /\ note_text (record_note (snd (high_score_update (scoring_session 50 0 note_100))))
     = Some ["1"; "0"; "0"]%char
  /\ high_score (game (snd (high_score_update (scoring_session 3 0 note_minus_5)))) = 3
  /\ note_text
       (record_note (snd (high_score_update (scoring_session 3 0 note_minus_5))))
     = Some ["3"; "5"]%char.
Proof.
  destruct (high_score_update_memory (scoring_session 50 0 note_100))
    as (_ & _ & _ & _ & _ & _ & _ & _ & _ & Hsane & _).
  destruct (Hsane 100) as [Hh Hn].
  { unfold consults_note. cbn. lia. }
  { vm_compute. split; discriminate. }
  { unfold INT_MAX. lia. }
  { reflexivity. }
  destruct (high_score_update_memory (scoring_session 3 0 note_minus_5))
    as (_ & _ & _ & _ & _ & _ & _ & Hread & _).
  destruct (Hread ["-"; "5"]%char (-5)) as [Hh' Hn'].
  { unfold consults_note. cbn. lia. }
  { vm_compute. split; discriminate. }
  { reflexivity. }
  { vm_compute. reflexivity. }
  { vm_compute. split; discriminate. }
  split; [exact Hh |]. split; [exact Hn |]. split; [exact Hh' | exact Hn'].
Defined.

(** ** The arrows of the controller, and what each state touches *)

Lemma movedown_loop_frame fuel : forall t t1,
  movedown_loop fuel t = Some t1 ->
  game t1 = game t /\ figure t1 = figure t /\ state t1 = state t
  /\ record_note t1 = record_note t /\ pos_x (fig_pos t1) = pos_x (fig_pos t).
Proof.
  induction fuel as [| fuel IH]; intros t t1 Hloop; [discriminate |].
  cbn [movedown_loop] in Hloop. destruct (check_collide t).
  - injection Hloop as <-. split_conj; reflexivity.
  - destruct (IH _ _ Hloop) as (Hg & Hf & Hs & Hr & Hx).
    rewrite Hg, Hf, Hs, Hr, Hx. split_conj; reflexivity.
Qed.

(** A step in state MOVING touches the figure, its position and the state. *)
Lemma on_moving_state_frame fuel action t t' :
  on_moving_state fuel action t = Some t' ->
  game t' = game t /\ record_note t' = record_note t.
Proof.
  intros Hstep. unfold on_moving_state in Hstep.
  assert (Hgen : forall m, game m = game t -> record_note m = record_note t ->
            (if negb (TetrisState_eqb (state m) GAMEOVER)
                && negb (TetrisState_eqb (state m) EXIT_ERROR)
             then Some (with_state SHIFTING m) else Some m) = Some t' ->
            game t' = game t /\ record_note t' = record_note t).
  { intros m Hg Hr Heq. destruct (_ && _); injection Heq as <-; split; assumption. }
  destruct action.
  - apply (Hgen t); [reflexivity | reflexivity | exact Hstep].
  - apply (Hgen (pause_game t)); [reflexivity | reflexivity | exact Hstep].
  - apply (Hgen (with_state GAMEOVER t)); [reflexivity | reflexivity | exact Hstep].
  - apply (Hgen (moveleft t)); [| | exact Hstep];
      unfold moveleft; destruct (check_collide _); reflexivity.
  - apply (Hgen (moveright t)); [| | exact Hstep];
      unfold moveright; destruct (check_collide _); reflexivity.
  - apply (Hgen (moveup t)); [reflexivity | reflexivity | exact Hstep].
  - unfold movedown in Hstep.
    destruct (movedown_loop fuel t) as [t1 |] eqn:Hloop; [| discriminate].
    destruct (movedown_loop_frame _ _ _ Hloop) as (Hg & _ & _ & Hr & _).
    apply (Hgen (decr_y t1)); [exact Hg | exact Hr | exact Hstep].
  - apply (Hgen (rotate_action t)); [| | exact Hstep];
      unfold rotate_action; destruct (check_collide _); reflexivity.
  - apply (Hgen t); [reflexivity | reflexivity | exact Hstep].
Qed.

(** The step in state ATTACHING touches the field, the score, the level, the
    speed and the state. *)
Lemma on_attaching_state_frame t :
  next (game (on_attaching_state t)) = next (game t)
  /\ high_score (game (on_attaching_state t)) = high_score (game t)
  /\ pause (game (on_attaching_state t)) = pause (game t)
  /\ figure (on_attaching_state t) = figure t
  /\ fig_pos (on_attaching_state t) = fig_pos t
  /\ record_note (on_attaching_state t) = record_note t.
Proof.
  destruct (on_attaching_state_shape t) as [st ->].
  destruct (attach_figure_to_field_shape t) as [f1 ->].
  destruct (destruction_of_rows_shape (with_game (with_field f1 (game t)) t))
    as [f2 ->].
  generalize (fst (destruction_of_rows (with_game (with_field f1 (game t)) t))).
  intros n.
  set (t0 := with_game
               (with_field f2 (game (with_game (with_field f1 (game t)) t)))
               (with_game (with_field f1 (game t)) t)).
  assert (E0 : next (game t0) = next (game t)
               /\ high_score (game t0) = high_score (game t)
               /\ pause (game t0) = pause (game t)
               /\ figure t0 = figure t /\ fig_pos t0 = fig_pos t
               /\ record_note t0 = record_note t) by (split_conj; reflexivity).
  clearbody t0. destruct E0 as (E1 & E2 & E3 & E4 & E5 & E6).
  rewrite <- E1, <- E2, <- E3, <- E4, <- E5, <- E6.
  cbn [game figure fig_pos record_note with_state].
  unfold recalculate_stats. cbv zeta.
  destruct (n =? 0); [split_conj; reflexivity |].
  destruct (n =? 1), (n =? 2), (n =? 3), (n =? 4); split_conj; reflexivity.
Qed.

Lemma on_attaching_state_arrow t :
  state t = ATTACHING -> transition ATTACHING (state (on_attaching_state t)) = true.
Proof.
  intros Hstate. destruct (on_attaching_state_state t Hstate) as [_ Hst].
  cbv zeta in Hst. rewrite Hst.
  destruct (_ >? MAX_LEVEL); [reflexivity |]. destruct (check_collide _); reflexivity.
Qed.

(** The step in state SPAWN touches neither the field nor the score, the
    level, the speed or the pause flag. *)
Lemma on_spawn_state_frame random t :
  with_high_score (high_score (game t))
    (with_next (next (game t)) (game (on_spawn_state random t)))
  = game t
  /\ transition SPAWN (state (on_spawn_state random t)) = true.
Proof.
  destruct (high_score_update_keeps t) as (Hg & _). cbv zeta in Hg.
  unfold on_spawn_state. destruct (_ =? NO_ERROR).
  - cbv zeta.
    set (t1 := assign_next_figure random
                 (copy_next_figure_to_figure (snd (high_score_update t)))).
    assert (Hg0 : game t1
                  = with_next (next (game t1)) (game (snd (high_score_update t))))
      by reflexivity.
    destruct (init_figure_position_range t1) as (Hg1 & _). cbv zeta in Hg1.
    clearbody t1.
    set (t2 := init_figure_position t1) in *. clearbody t2.
    cbn [game state with_state]. rewrite Hg1, Hg0. split.
    + generalize (next (game t1)). intros nx1. revert Hg.
      generalize (game (snd (high_score_update t))) (game t).
      intros [f nx s h l sp pa] [f' nx' s' h' l' sp' pa'] Hg.
      cbn in *. inversion Hg; subst. reflexivity.
    + destruct (check_collide t2); reflexivity.
  - cbn [game state with_state]. split; [| reflexivity].
    revert Hg. generalize (game (snd (high_score_update t))) (game t).
    intros [f nx s h l sp pa] [f' nx' s' h' l' sp' pa'] Hg.
    cbn in *. inversion Hg; subst. reflexivity.
Qed.

(** X15. The arrows of the controller. A step goes from START to START,
    SPAWN or GAMEOVER, from SPAWN to MOVING, GAMEOVER or EXIT_ERROR, from
    MOVING to SHIFTING or GAMEOVER, from SHIFTING to MOVING or ATTACHING, from
    ATTACHING to SPAWN, ATTACHING or GAMEOVER; in GAMEOVER and in EXIT_ERROR
    it changes nothing at all. *)
Theorem userInput_transitions (fuel : nat) (random : Z) (action : UserAction_t)
    (t t' : Tetris)
    (Hstep : userInput fuel random action t = Some t') :
  transition (state t) (state t') = true
  /\ (is_over t = true -> t' = t).
Proof.
  unfold userInput in Hstep. unfold is_over.
  destruct (state t) eqn:Hstate; cbn [TetrisState_eqb orb].
  - injection Hstep as <-. split; [| discriminate].
    unfold on_start_state. destruct action; reflexivity.
  - injection Hstep as <-. split; [| discriminate].
    apply on_spawn_state_frame.
  - destruct (on_moving_state_game _ _ _ _ Hstate Hstep) as [_ ->].
    split; [| discriminate]. destruct action; reflexivity.
  - injection Hstep as <-. split; [| discriminate].
    unfold on_shifting_state. destruct (check_collide _); reflexivity.
  - injection Hstep as <-. split; [| discriminate].
    now apply on_attaching_state_arrow.
  - injection Hstep as <-. unfold on_gameover_state. rewrite Hstate.
    split; reflexivity.
  - injection Hstep as <-. unfold on_exit_error_state. rewrite Hstate.
    split; reflexivity.
Qed.

Lemma userInput_transitions_witness :
  exists t' : Tetris,
    userInput 0 5 Start (fresh_session no_note) = Some t'
    /\ transition (state (fresh_session no_note)) (state t') = true.
Proof.
  eexists. split; [vm_compute; reflexivity |].
  apply (userInput_transitions 0 5 Start (fresh_session no_note)).
  vm_compute. reflexivity.
Defined.

(** X16. What a step can touch, by the state it starts in. The pause flag is
    never touched. The field, the score, the level and the speed are touched
    in ATTACHING only; the high score and the record file in SPAWN only; the
    next figure in START and SPAWN only; the figure in SPAWN and MOVING only,
    and its position in SPAWN, MOVING and SHIFTING only. *)
Theorem userInput_frame (fuel : nat) (random : Z) (action : UserAction_t)
    (t t' : Tetris)
    (Hstep : userInput fuel random action t = Some t') :
  pause (game t') = pause (game t)
  /\ (state t <> ATTACHING ->
      field (game t') = field (game t) /\ score (game t') = score (game t)
      /\ level (game t') = level (game t) /\ speed (game t') = speed (game t))
  /\ (state t <> SPAWN ->
      high_score (game t') = high_score (game t)
      /\ record_note t' = record_note t)
  /\ (state t <> START -> state t <> SPAWN -> next (game t') = next (game t))
  /\ (state t <> SPAWN -> state t <> MOVING -> figure t' = figure t)
  /\ (state t <> SPAWN -> state t <> MOVING -> state t <> SHIFTING ->
      fig_pos t' = fig_pos t).
Proof.
  unfold userInput in Hstep.
  destruct (state t) eqn:Hstate.
  - injection Hstep as <-. unfold on_start_state.
    destruct action; cbn; split_conj; intros; split_conj;
      first [reflexivity | contradiction].
  - injection Hstep as <-.
    destruct (on_spawn_state_frame random t) as [Hg _].
    destruct (game (on_spawn_state random t)) as [f nx s h l sp pa].
    rewrite <- Hg. cbn. split_conj; intros; split_conj;
      first [reflexivity | contradiction].
  - destruct (on_moving_state_frame _ _ _ _ Hstep) as [-> ->].
    split_conj; intros; split_conj; first [reflexivity | contradiction].
  - injection Hstep as <-.
    assert (Hs : game (on_shifting_state t) = game t
                 /\ figure (on_shifting_state t) = figure t
                 /\ record_note (on_shifting_state t) = record_note t).
    { unfold on_shifting_state. destruct (check_collide _); split_conj; reflexivity. }
    destruct Hs as (-> & -> & ->).
    split_conj; intros; split_conj; first [reflexivity | contradiction].
  - injection Hstep as <-.
    destruct (on_attaching_state_frame t) as (-> & -> & -> & -> & -> & ->).
    split_conj; intros; split_conj; first [reflexivity | contradiction].
  - injection Hstep as <-. unfold on_gameover_state.
    split_conj; intros; split_conj; reflexivity.
  - injection Hstep as <-. unfold on_exit_error_state.
    split_conj; intros; split_conj; reflexivity.
Qed.

Lemma userInput_frame_witness :
  exists t' : Tetris,
    userInput 30 0 Down square_over_ledge = Some t'
    /\ field (game t') = field (game square_over_ledge)
    /\ record_note t' = record_note square_over_ledge.
Proof.
  eexists. split; [vm_compute; reflexivity |].
  destruct (userInput_frame 30 0 Down square_over_ledge _
              ltac:(vm_compute; reflexivity))
    as (_ & Hf & Hr & _).
  split.
  - apply Hf. discriminate.
  - apply Hr. discriminate.
Defined.

(** ** The loop of the game *)

Lemma userInput_over fuel random action t :
  is_over t = true -> userInput fuel random action t = Some t.
Proof.
  unfold is_over, userInput. destruct (state t); try discriminate; reflexivity.
Qed.

Lemma game_loop_from_over sf keys rands fuel : forall n signal t t',
  game_loop_from fuel sf keys rands n signal t = Some t' ->
  is_over t' = true
  /\ exists steps : list (nat * Z * UserAction_t), run steps t = Some t'.
Proof.
  induction fuel as [| fuel IH]; intros n signal t t' Hloop; [discriminate |].
  cbn [game_loop_from] in Hloop.
  destruct (userInput sf (rands n) (get_action signal) t) as [t1 |] eqn:Hstep;
    [| discriminate].
  destruct (is_over t) eqn:Hover; cbn [negb] in Hloop.
  - injection Hloop as <-.
    rewrite (userInput_over _ _ _ _ Hover) in Hstep. injection Hstep as <-.
    split; [exact Hover |]. exists []. reflexivity.
  - destruct (IH _ _ _ _ Hloop) as [Hover' [steps Hrun]].
    split; [exact Hover' |].
    exists ((sf, rands n, get_action signal) :: steps).
    cbn [run]. rewrite Hstep. exact Hrun.
Qed.

(** X17. The loop of [game_loop] returns only in GAMEOVER or EXIT_ERROR, with
    a state that calls of [userInput] reach, so what every step keeps holds
    when the loop returns; started in a state that is over, it makes one call
    that changes nothing and returns; and from START, when the first key read
    is the escape key, it returns after three calls with the state GAMEOVER
    and nothing else changed. *)
Theorem game_loop_returns_over (fuel step_fuel : nat) (keys rands : nat -> Z)
    (t : Tetris) :
  (forall t' : Tetris,
      game_loop fuel step_fuel keys rands t = Some t' ->
      is_over t' = true
      /\ (exists steps : list (nat * Z * UserAction_t), run steps t = Some t')
      /\ (engine_ok t -> engine_ok t')
      /\ (stats_ok t -> stats_ok t' /\ score (game t) <= score (game t')))
  /\ (is_over t = true -> game_loop (S fuel) step_fuel keys rands t = Some t)
  /\ (state t = START -> keys 0%nat = ESCAPE ->
      game_loop (S (S (S fuel))) step_fuel keys rands t
      = Some (with_state GAMEOVER t)).
Proof.
  split; [| split].
  - intros t' Hloop.
    destruct (game_loop_from_over _ _ _ _ _ _ _ _ Hloop) as [Hover [steps Hrun]].
    split; [exact Hover |]. split; [exists steps; exact Hrun |]. split.
    + intros Hok. exact (run_engine_ok steps t t' Hok Hrun).
    + intros Hok. exact (run_stats_ok steps t t' Hok Hrun).
  - intros Hover. unfold game_loop. cbn [game_loop_from].
    rewrite (userInput_over _ _ _ _ Hover), Hover. reflexivity.
  - intros Hstate Hkey. unfold game_loop. cbn [game_loop_from].
    unfold is_over, userInput. rewrite Hstate.
    change (get_action 0) with No_signal.
    cbn [on_start_state state with_state TetrisState_eqb orb negb].
    rewrite Hkey. change (get_action ESCAPE) with Terminate.
    cbn [on_start_state state with_state TetrisState_eqb orb negb on_gameover_state].
    reflexivity.
Qed.

Lemma game_loop_returns_over_witness :
  game_loop 3 0 (fun _ => ESCAPE) (fun _ => 0) (fresh_session no_note)
  = Some (with_state GAMEOVER (fresh_session no_note))
  /\ is_over (with_state GAMEOVER (fresh_session no_note)) = true.
Proof.
  destruct (game_loop_returns_over 0 0 (fun _ => ESCAPE) (fun _ => 0)
              (fresh_session no_note)) as (_ & _ & Hesc).
  destruct (game_loop_returns_over 3 0 (fun _ => ESCAPE) (fun _ => 0)
              (fresh_session no_note)) as (Hret & _ & _).
  split; [apply Hesc; reflexivity |].
  apply (Hret (with_state GAMEOVER (fresh_session no_note))).
  apply Hesc; reflexivity.
Defined.

(** ** A new game *)

Lemma init_figure_position_pos t1 t2 :
  figure t1 = figure t2 ->
  fig_pos (init_figure_position t1) = fig_pos (init_figure_position t2).
Proof.
  intros Hfig. unfold init_figure_position. cbv zeta.
  cbn [fig_pos with_fig_pos]. rewrite Hfig. reflexivity.
Qed.

(** A figure as [assign_next_figure] prepares it, placed over an empty
    field, does not collide. *)
Lemma spawn_on_empty_field t n r :
  (n < NUMBER_OF_FIGURES)%nat -> (r < 4)%nat ->
  figure t = spawned_figure n r ->
  field (game t) = replicate ROWS_MAP zero_row ->
  check_collide (init_figure_position t) = false.
Proof.
  intros Hn Hr Hfig Hfield.
  rewrite (check_collide_ext (init_figure_position t)
             (init_figure_position
                (session SPAWN (replicate ROWS_MAP zero_row) (spawned_figure n r) 0 0))).
  - unfold NUMBER_OF_FIGURES in Hn.
    destruct n as [| [| [| [| [| [| [| n]]]]]]]; try lia;
      destruct r as [| [| [| [| r]]]]; try lia; vm_compute; reflexivity.
  - destruct (init_figure_position_range t) as (_ & -> & _).
    destruct (init_figure_position_range
                (session SPAWN (replicate ROWS_MAP zero_row) (spawned_figure n r) 0 0))
      as (_ & -> & _).
    exact Hfig.
  - apply init_figure_position_pos. exact Hfig.
  - destruct (init_figure_position_range t) as (-> & _).
    destruct (init_figure_position_range
                (session SPAWN (replicate ROWS_MAP zero_row) (spawned_figure n r) 0 0))
      as (-> & _).
    exact Hfield.
Qed.

(** X18. A new game, from the state [init_game] leaves: after the key that
    starts it and one more step, the controller is in EXIT_ERROR, with
    nothing else changed, when the record file can be neither opened nor
    created; otherwise it is in MOVING, the figure is the one drawn with the
    first number, it does not collide, and the field is empty and the score
    0. *)
Theorem new_game_starts (fuel1 fuel2 : nat) (random1 random2 : Z)
    (action : UserAction_t) (r : RecordNote)
    (Hrandom : 0 <= random1 <= INT_MAX) :
  exists t2 : Tetris,
    run [(fuel1, random1, Start); (fuel2, random2, action)] (fresh_session r)
    = Some t2
    /\ (note_unreachable r ->
        t2 = with_state EXIT_ERROR (assign_next_figure random1 (fresh_session r)))
    /\ (~ note_unreachable r ->
        state t2 = MOVING
        /\ figure t2
           = spawned_figure (Z.to_nat (random1 mod 7)) (Z.to_nat (random1 mod 4))
        /\ check_collide t2 = false
        /\ field (game t2) = replicate ROWS_MAP zero_row
        /\ score (game t2) = 0).
Proof.
  destruct (assign_next_figure_spawned random1 (fresh_session r) Hrandom)
    as (Hnext & Hn & Hr).
  set (t1 := with_state SPAWN (assign_next_figure random1 (fresh_session r))).
  assert (Hrun : run [(fuel1, random1, Start); (fuel2, random2, action)]
                   (fresh_session r)
                 = Some (on_spawn_state random2 t1)) by reflexivity.
  assert (H1 : next (game t1)
               = spawned_figure (Z.to_nat (random1 mod 7)) (Z.to_nat (random1 mod 4))
               /\ field (game t1) = replicate ROWS_MAP zero_row
               /\ score (game t1) = 0 /\ high_score (game t1) = 0
               /\ record_note t1 = r /\ state t1 = SPAWN).
  { split; [exact Hnext |]. split_conj; reflexivity. }
  destruct H1 as (Hnx & Hfield & Hscore & Hhigh & Hnote & Hstate).
  assert (Hexit : with_state EXIT_ERROR t1
                  = with_state EXIT_ERROR (assign_next_figure random1 (fresh_session r)))
    by reflexivity.
  exists (on_spawn_state random2 t1). split; [exact Hrun |].
  clear Hrun Hnext. clearbody t1.
  assert (Hc : consults_note (game t1)) by (left; exact Hhigh).
  split.
  - intros Hlost.
    assert (Herr : fst (high_score_update t1) = ERROR).
    { apply high_score_update_error. rewrite Hnote. split; assumption. }
    unfold on_spawn_state. rewrite Herr, (high_score_update_error_state t1 Herr).
    exact Hexit.
  - intros Hreach.
    assert (Hcode : fst (high_score_update t1) = NO_ERROR).
    { destruct (high_score_update_codes t1) as [Hno | Herr]; [exact Hno |].
      apply high_score_update_error in Herr as [_ Hlost].
      rewrite Hnote in Hlost. contradiction. }
    destruct (high_score_update_field t1) as (Hf & Hnx' & Hs).
    unfold on_spawn_state. rewrite Hcode.
    change (NO_ERROR =? NO_ERROR) with true. cbv iota zeta.
    set (t2 := assign_next_figure random2
                 (copy_next_figure_to_figure (snd (high_score_update t1)))).
    assert (H2 : figure t2
                 = spawned_figure (Z.to_nat (random1 mod 7)) (Z.to_nat (random1 mod 4))
                 /\ field (game t2) = replicate ROWS_MAP zero_row
                 /\ score (game t2) = 0).
    { unfold t2, assign_next_figure, copy_next_figure_to_figure.
      cbn [figure game field score with_game with_figure with_next].
      rewrite Hnx', Hnx, Hf, Hs. split; [| split; assumption].
      apply tabulate_cell, spawned_figure_dims. }
    destruct H2 as (Hfig2 & Hfield2 & Hscore2). clearbody t2.
    pose proof (spawn_on_empty_field t2 _ _ Hn Hr Hfig2 Hfield2) as Hfree.
    destruct (init_figure_position_range t2) as (Hg3 & Hfig3 & _).
    cbv zeta in Hg3, Hfig3.
    set (t3 := init_figure_position t2) in *. clearbody t3.
    rewrite Hfree. rewrite check_collide_with_state.
    cbn [state figure game with_state]. rewrite Hfig3, Hg3.
    split_conj; first [reflexivity | assumption].
Qed.

Lemma new_game_starts_witness :
  exists t2 : Tetris,
    run [(0%nat, 5, Start); (0%nat, 9, No_signal)] (fresh_session no_note) = Some t2
    /\ state t2 = MOVING
    /\ check_collide t2 = false.
Proof.
  destruct (new_game_starts 0 0 5 9 No_signal no_note) as (t2 & Hrun & _ & Hgo).
  - unfold INT_MAX. lia.
  - exists t2. split; [exact Hrun |].
    destruct Hgo as (Hst & _ & Hfree & _).
    + intros [Hclosed Hw]. discriminate Hw.
    + split; assumption.
Defined.

(** ** Dropping a figure *)

(** Action Down in state MOVING, on the offsets that the loop goes through. *)
Lemma on_moving_state_down fuel t :
  state t = MOVING -> has_set_cell (figure t) ->
  in_range (pos_y (fig_pos t)) -> check_collide t = false ->
  (21 <= fuel)%nat ->
  exists y' : Z,
    pos_y (fig_pos t) < y' /\ in_range y'
    /\ on_moving_state fuel Down t = Some (with_state SHIFTING (at_y (y' - 1) t))
    /\ check_collide (at_y y' t) = true
    /\ (forall k, pos_y (fig_pos t) <= k < y' -> check_collide (at_y k t) = false).
Proof.
  intros Hstate (i & j & Hi & Hj & Hset) Hy Hfree Hfuel.
  pose proof (free_set_cell_row t i j Hi Hj Hset Hy Hfree) as Hrow.
  destruct (movedown_loop_stops fuel t i j Hi Hj Hset Hy)
    as (y' & Hle & Hr & Hloop & Hhit & Hclear).
  { unfold ROWS_MAP in *. lia. }
  assert (Hlt : pos_y (fig_pos t) < y').
  { destruct (Z.eq_dec y' (pos_y (fig_pos t))) as [-> | Hne]; [| lia].
    rewrite at_y_same in Hhit. congruence. }
  assert (Hback : decr_y (at_y y' t) = at_y (y' - 1) t).
  { rewrite decr_y_at_y; rewrite at_y_pos_y; [reflexivity |].
    unfold in_range, INT_MIN, INT_MAX in *. lia. }
  exists y'. split; [exact Hlt |]. split; [exact Hr |].
  split; [| split; assumption].
  unfold on_moving_state, movedown. rewrite Hloop, Hback.
  cbn [state at_y with_fig_pos]. now rewrite Hstate.
Qed.

(** X19. A figure dropped with action Down is attached where it lands: the
    step after the drop is the one of state SHIFTING, which finds the figure
    resting and goes to ATTACHING without moving it, so no key can move or
    turn the figure between the drop and the attachment. The figure, its
    column and the game data are those before the drop, and the figure does
    not collide where it is attached. *)
Theorem dropped_figure_attaches (fuel fuel' : nat) (random random' : Z)
    (action : UserAction_t) (t : Tetris)
    (Hstate : state t = MOVING)
    (Hset : has_set_cell (figure t))
    (Hy : in_range (pos_y (fig_pos t)))
    (Hfree : check_collide t = false)
    (Hfuel : (21 <= fuel)%nat) :
  exists t1 t2 : Tetris,
    userInput fuel random Down t = Some t1
    /\ userInput fuel' random' action t1 = Some t2
    /\ state t1 = SHIFTING
    /\ t2 = with_state ATTACHING t1
    /\ figure t2 = figure t /\ game t2 = game t
    /\ pos_x (fig_pos t2) = pos_x (fig_pos t)
    /\ pos_y (fig_pos t) <= pos_y (fig_pos t2)
    /\ check_collide t2 = false.
Proof.
  destruct (on_moving_state_down fuel t Hstate Hset Hy Hfree Hfuel)
    as (y' & Hlt & Hr & Hdown & Hhit & Hclear).
  assert (Hin : in_range (y' - 1)) by (unfold in_range, INT_MIN, INT_MAX in *; lia).
  exists (with_state SHIFTING (at_y (y' - 1) t)),
         (with_state ATTACHING (with_state SHIFTING (at_y (y' - 1) t))).
  split; [unfold userInput; rewrite Hstate; exact Hdown |].
  assert (Hnext : incr_y (with_state SHIFTING (at_y (y' - 1) t))
                  = with_state SHIFTING (at_y y' t)).
  { rewrite incr_y_at_y.
    - cbn [fig_pos pos_y at_y with_state with_fig_pos with_y].
      replace (y' - 1 + 1) with y' by lia. reflexivity.
    - cbn [fig_pos pos_y at_y with_state with_fig_pos with_y].
      replace (y' - 1 + 1) with y' by lia. exact Hr. }
  split.
  - unfold userInput. cbn [state with_state]. f_equal.
    rewrite on_shifting_state_cases by exact Hin.
    rewrite Hnext, check_collide_with_state, Hhit. reflexivity.
  - split; [reflexivity |]. split; [reflexivity |]. split; [reflexivity |].
    split; [reflexivity |]. split; [reflexivity |].
    split; [cbn [fig_pos pos_y at_y with_state with_fig_pos with_y]; lia |].
    rewrite !check_collide_with_state. apply Hclear. lia.
Qed.

Lemma dropped_figure_attaches_witness :
  exists t1 t2 : Tetris,
    userInput 21 0 Down square_over_ledge = Some t1
    /\ userInput 0 0 No_signal t1 = Some t2
    /\ state t2 = ATTACHING
    /\ check_collide t2 = false.
Proof.
  assert (Hstate : state square_over_ledge = MOVING) by reflexivity.
  assert (Hset : has_set_cell (figure square_over_ledge)).
  { exists 1%nat, 1%nat. repeat split; unfold SIDE_OF_FIGURE_SQUARE; lia. }
  assert (Hy : in_range (pos_y (fig_pos square_over_ledge)))
    by (vm_compute; split; discriminate).
  assert (Hfree : check_collide square_over_ledge = false) by reflexivity.
  assert (Hfuel : (21 <= 21)%nat) by lia.
  destruct (dropped_figure_attaches 21 0 0 0 No_signal square_over_ledge
              Hstate Hset Hy Hfree Hfuel)
    as (t1 & t2 & H1 & H2 & _ & Heq & _ & _ & _ & _ & Hok).
  exists t1, t2. split; [exact H1 |]. split; [exact H2 |].
  split; [rewrite Heq; reflexivity | exact Hok].
Defined.

(** ** A figure without a set cell *)

Lemma check_collide_empty t :
  (forall i j : nat, cell (figure t) i j <> 1) -> check_collide t = false.
Proof.
  intros Hempty. apply check_collide_false. intros i j _ _.
  apply collide_at_unset, Hempty.
Qed.

(** X20. A figure none of whose cells is 1 collides nowhere, so the loop of
    [movedown] does not end on it: action Down in state MOVING gives no
    result, however many iterations the loop is given before the y offset
    leaves the range of [int], while every other action gives one. *)
Theorem movedown_empty_figure (fuel : nat) (random : Z) (t : Tetris)
    (Hstate : state t = MOVING)
    (Hempty : forall i j : nat, cell (figure t) i j <> 1)
    (Hroom : pos_y (fig_pos t) + Z.of_nat fuel <= INT_MAX) :
  check_collide t = false
  /\ userInput fuel random Down t = None
  /\ (forall action : UserAction_t,
         action <> Down -> exists t', userInput fuel random action t = Some t').
Proof.
  split; [now apply check_collide_empty |]. split.
  - unfold userInput. rewrite Hstate. unfold on_moving_state, movedown.
    assert (Hloop : forall t0, figure t0 = figure t -> movedown_loop fuel t0 = None).
    { clear Hroom. induction fuel as [| fuel IH]; intros t0 Hfig; [reflexivity |].
      cbn [movedown_loop]. rewrite check_collide_empty.
      - apply IH. exact Hfig.
      - rewrite Hfig. exact Hempty. }
    rewrite (Hloop t eq_refl). reflexivity.
  - intros action Hne. unfold userInput. rewrite Hstate. unfold on_moving_state.
    destruct action; try contradiction; destruct (_ && _); eexists; reflexivity.
Qed.

Lemma movedown_empty_figure_witness :
  userInput 1000 0 Down (with_state MOVING (fresh_session no_note)) = None.
Proof.
  apply (movedown_empty_figure 1000 0 (with_state MOVING (fresh_session no_note))).
  - reflexivity.
  - intros i j.
    destruct i as [| [| [| [| i]]]]; destruct j as [| [| [| [| j]]]];
      try discriminate; vm_compute; discriminate.
  - vm_compute. discriminate.
Defined.

(** ** The keys in state MOVING *)

(** The keys of each action. *)
Lemma get_action_cases key :
  (get_action key = Up <-> key = KEY_UP)
  /\ (get_action key = Down <-> key = KEY_DOWN)
  /\ (get_action key = Left <-> key = KEY_LEFT)
  /\ (get_action key = Right <-> key = KEY_RIGHT)
  /\ (get_action key = Start <-> key = CHAR_R_UPPER \/ key = CHAR_R_LOWER)
  /\ (get_action key = Action <-> key = CHAR_SPACE)
  /\ (get_action key = Pause <-> key = CHAR_P_UPPER \/ key = CHAR_P_LOWER)
  /\ (get_action key = Terminate <-> key = ESCAPE).
Proof.
  unfold get_action, KEY_UP, KEY_DOWN, KEY_LEFT, KEY_RIGHT, CHAR_R_UPPER,
    CHAR_R_LOWER, CHAR_SPACE, CHAR_P_UPPER, CHAR_P_LOWER, ESCAPE.
  repeat match goal with
         | |- context [key =? ?b] => destruct (Z.eqb_spec key b)
         end;
    cbn [orb]; split_conj; split; intros H;
    first [discriminate H | reflexivity | lia].
Qed.

(** X21. The keys in state MOVING. When the step on the key read returns, the
    state is GAMEOVER exactly for the escape key and SHIFTING for every other
    key; the game data are unchanged; the figure can differ only after the
    space key, the x offset only after the left or right arrow, and the y
    offset only after the down arrow. *)
Theorem moving_state_keys (fuel : nat) (random key : Z) (t t' : Tetris)
    (Hstate : state t = MOVING)
    (Hstep : userInput fuel random (get_action key) t = Some t') :
  (state t' = GAMEOVER <-> key = ESCAPE)
  /\ (state t' = SHIFTING <-> key <> ESCAPE)
  /\ game t' = game t
  /\ (figure t' <> figure t -> key = CHAR_SPACE)
  /\ (pos_x (fig_pos t') <> pos_x (fig_pos t) -> key = KEY_LEFT \/ key = KEY_RIGHT)
  /\ (pos_y (fig_pos t') <> pos_y (fig_pos t) -> key = KEY_DOWN).
Proof.
  destruct (get_action_cases key)
    as (Hup & Hdown & Hleft & Hright & Hstart & Haction & Hpause & Hterm).
  unfold userInput in Hstep. rewrite Hstate in Hstep.
  unfold on_moving_state in Hstep.
  assert (Hsame : forall m,
             state m = MOVING -> game m = game t ->
             (if negb (TetrisState_eqb (state m) GAMEOVER)
                 && negb (TetrisState_eqb (state m) EXIT_ERROR)
              then Some (with_state SHIFTING m) else Some m) = Some t' ->
             state t' = SHIFTING /\ game t' = game t /\ figure t' = figure m
             /\ fig_pos t' = fig_pos m).
  { intros m Hs Hg Heq. rewrite (on_moving_state_after m Hs) in Heq.
    injection Heq as <-. split_conj; first [reflexivity | assumption]. }
  destruct (get_action key) eqn:Ha.
  - (* Start *)
    destruct (Hsame t Hstate eq_refl Hstep) as (Hs & Hg & Hf & Hp).
    rewrite Hs, Hg, Hf, Hp.
    split; [split; [discriminate | intros He; apply Hterm in He; discriminate] |].
    split; [split; [intros _ He; apply Hterm in He; discriminate | reflexivity] |].
    split; [reflexivity |]. split_conj; intros Hne; contradiction.
  - (* Pause *)
    destruct (Hsame (pause_game t) Hstate eq_refl Hstep) as (Hs & Hg & Hf & Hp).
    rewrite Hs, Hg, Hf, Hp. unfold pause_game.
    split; [split; [discriminate | intros He; apply Hterm in He; discriminate] |].
    split; [split; [intros _ He; apply Hterm in He; discriminate | reflexivity] |].
    split; [reflexivity |]. split_conj; intros Hne; contradiction.
  - (* Terminate *)
    cbn in Hstep. injection Hstep as <-. cbn [state game figure fig_pos with_state].
    pose proof (proj1 Hterm eq_refl) as Hesc.
    split; [split; [intros _; exact Hesc | reflexivity] |].
    split; [split; [discriminate | intros Hne; contradiction] |].
    split; [reflexivity |]. split_conj; intros Hne; contradiction.
  - (* Left *)
    assert (Hm : state (moveleft t) = MOVING /\ game (moveleft t) = game t
                 /\ figure (moveleft t) = figure t
                 /\ pos_y (fig_pos (moveleft t)) = pos_y (fig_pos t)).
    { unfold moveleft. destruct (check_collide _); split_conj;
        first [exact Hstate | reflexivity]. }
    destruct Hm as (Hms & Hmg & Hmf & Hmy).
    destruct (Hsame (moveleft t) Hms Hmg Hstep) as (Hs & Hg & Hf & Hp).
    rewrite Hs, Hg, Hf, Hp, Hmf, Hmy.
    split; [split; [discriminate | intros He; apply Hterm in He; discriminate] |].
    split; [split; [intros _ He; apply Hterm in He; discriminate | reflexivity] |].
    split; [reflexivity |]. split; [intros Hne; contradiction |].
    split; [intros _; left; now apply Hleft | intros Hne; contradiction].
  - (* Right *)
    assert (Hm : state (moveright t) = MOVING /\ game (moveright t) = game t
                 /\ figure (moveright t) = figure t
                 /\ pos_y (fig_pos (moveright t)) = pos_y (fig_pos t)).
    { unfold moveright. destruct (check_collide _); split_conj;
        first [exact Hstate | reflexivity]. }
    destruct Hm as (Hms & Hmg & Hmf & Hmy).
    destruct (Hsame (moveright t) Hms Hmg Hstep) as (Hs & Hg & Hf & Hp).
    rewrite Hs, Hg, Hf, Hp, Hmf, Hmy.
    split; [split; [discriminate | intros He; apply Hterm in He; discriminate] |].
    split; [split; [intros _ He; apply Hterm in He; discriminate | reflexivity] |].
    split; [reflexivity |]. split; [intros Hne; contradiction |].
    split; [intros _; right; now apply Hright | intros Hne; contradiction].
  - (* Up *)
    destruct (Hsame (moveup t) Hstate eq_refl Hstep) as (Hs & Hg & Hf & Hp).
    rewrite Hs, Hg, Hf, Hp. unfold moveup.
    split; [split; [discriminate | intros He; apply Hterm in He; discriminate] |].
    split; [split; [intros _ He; apply Hterm in He; discriminate | reflexivity] |].
    split; [reflexivity |]. split_conj; intros Hne; contradiction.
  - (* Down *)
    unfold movedown in Hstep.
    destruct (movedown_loop fuel t) as [t1 |] eqn:Hloop; [| discriminate].
    destruct (movedown_loop_frame _ _ _ Hloop) as (Hg1 & Hf1 & Hs1 & _ & Hx1).
    assert (Hms : state (decr_y t1) = MOVING) by (rewrite <- Hstate, <- Hs1; reflexivity).
    destruct (Hsame (decr_y t1) Hms Hg1 Hstep) as (Hs & Hg & Hf & Hp).
    rewrite Hs, Hg, Hf, Hp.
    change (figure (decr_y t1)) with (figure t1).
    change (pos_x (fig_pos (decr_y t1))) with (pos_x (fig_pos t1)).
    rewrite Hf1, Hx1.
    split; [split; [discriminate | intros He; apply Hterm in He; discriminate] |].
    split; [split; [intros _ He; apply Hterm in He; discriminate | reflexivity] |].
    split; [reflexivity |]. split; [intros Hne; contradiction |].
    split; [intros Hne; contradiction | intros _; now apply Hdown].
  - (* Action *)
    assert (Hm : state (rotate_action t) = MOVING /\ game (rotate_action t) = game t
                 /\ fig_pos (rotate_action t) = fig_pos t).
    { unfold rotate_action. destruct (check_collide _); split_conj;
        first [exact Hstate | reflexivity]. }
    destruct Hm as (Hms & Hmg & Hmp).
    destruct (Hsame (rotate_action t) Hms Hmg Hstep) as (Hs & Hg & Hf & Hp).
    rewrite Hs, Hg, Hp, Hmp.
    split; [split; [discriminate | intros He; apply Hterm in He; discriminate] |].
    split; [split; [intros _ He; apply Hterm in He; discriminate | reflexivity] |].
    split; [reflexivity |]. split; [intros _; now apply Haction |].
    split_conj; intros Hne; contradiction.
  - (* No_signal *)
    destruct (Hsame t Hstate eq_refl Hstep) as (Hs & Hg & Hf & Hp).
    rewrite Hs, Hg, Hf, Hp.
    split; [split; [discriminate | intros He; apply Hterm in He; discriminate] |].
    split; [split; [intros _ He; apply Hterm in He; discriminate | reflexivity] |].
    split; [reflexivity |]. split_conj; intros Hne; contradiction.
Qed.

Lemma moving_state_keys_witness :
  exists t' : Tetris,
    userInput 0 0 (get_action KEY_LEFT) square_over_ledge = Some t'
    /\ state t' = SHIFTING
    /\ game t' = game square_over_ledge.
Proof.
  eexists. split; [vm_compute; reflexivity |].
  destruct (moving_state_keys 0 0 KEY_LEFT square_over_ledge _ eq_refl
              ltac:(vm_compute; reflexivity))
    as (_ & Hs & Hg & _).
  split; [apply Hs; discriminate | exact Hg].
Defined.

(** ** The figure only falls *)

(** The loop of [movedown] only increases the y offset. *)
Lemma movedown_loop_falls fuel : forall t t1 i j,
  (i < SIDE_OF_FIGURE_SQUARE)%nat -> (j < SIDE_OF_FIGURE_SQUARE)%nat ->
  cell (figure t) i j = 1 ->
  in_range (pos_y (fig_pos t)) ->
  movedown_loop fuel t = Some t1 ->
  pos_y (fig_pos t) <= pos_y (fig_pos t1) /\ in_range (pos_y (fig_pos t1))
  /\ (check_collide t = false -> pos_y (fig_pos t) < pos_y (fig_pos t1)).
Proof.
  induction fuel as [| fuel IH]; intros t t1 i j Hi Hj Hset Hy Hloop; [discriminate |].
  cbn [movedown_loop] in Hloop. destruct (check_collide t) eqn:Hc.
  - injection Hloop as <-. split; [lia |]. split; [exact Hy | discriminate].
  - pose proof (free_set_cell_row t i j Hi Hj Hset Hy Hc) as Hrow.
    assert (Hnext : in_range (pos_y (fig_pos t) + 1)).
    { unfold in_range, INT_MIN, INT_MAX, ROWS_MAP in *. lia. }
    rewrite (incr_y_at_y t Hnext) in Hloop.
    destruct (IH (at_y (pos_y (fig_pos t) + 1) t) t1 i j Hi Hj Hset Hnext Hloop)
      as (Hle & Hr & _).
    rewrite at_y_pos_y in Hle. split; [lia |]. split; [exact Hr |]. intros _. lia.
Qed.

(** X22. The figure only falls. A step taken in MOVING, SHIFTING or ATTACHING
    with a figure that has a set cell and does not collide never decreases
    the y offset and changes the x offset by at most one; and the y offset
    grows by at most one, except by action Down in state MOVING. *)
Theorem figure_only_falls (fuel : nat) (random : Z) (action : UserAction_t)
    (t t' : Tetris)
    (Hplay : in_play (state t) = true)
    (Hset : has_set_cell (figure t))
    (Hx : in_range (pos_x (fig_pos t)))
    (Hy : in_range (pos_y (fig_pos t)))
    (Hfree : check_collide t = false)
    (Hstep : userInput fuel random action t = Some t') :
  pos_y (fig_pos t) <= pos_y (fig_pos t')
  /\ pos_x (fig_pos t) - 1 <= pos_x (fig_pos t') <= pos_x (fig_pos t) + 1
  /\ (~ (state t = MOVING /\ action = Down) ->
      pos_y (fig_pos t') <= pos_y (fig_pos t) + 1).
Proof.
  destruct Hset as (i & j & Hi & Hj & Hset).
  destruct (free_set_cell_in_field t i j Hi Hj Hset Hx Hy Hfree) as [Hrow Hcol].
  assert (Hxs : INT_MIN < pos_x (fig_pos t) < INT_MAX).
  { unfold INT_MIN, INT_MAX, COLS_MAP, SIDE_OF_FIGURE_SQUARE in *. lia. }
  assert (Hys : INT_MIN < pos_y (fig_pos t) < INT_MAX).
  { unfold INT_MIN, INT_MAX, ROWS_MAP, SIDE_OF_FIGURE_SQUARE in *. lia. }
  unfold userInput in Hstep.
  destruct (state t) eqn:Hstate; try discriminate Hplay.
  - (* MOVING *)
    unfold on_moving_state in Hstep.
    assert (Hsame : forall m,
               state m = MOVING ->
               (if negb (TetrisState_eqb (state m) GAMEOVER)
                   && negb (TetrisState_eqb (state m) EXIT_ERROR)
                then Some (with_state SHIFTING m) else Some m) = Some t' ->
               fig_pos t' = fig_pos m).
    { intros m Hs Heq. rewrite (on_moving_state_after m Hs) in Heq.
      injection Heq as <-. reflexivity. }
    destruct action.
    + rewrite (Hsame t Hstate Hstep). lia.
    + rewrite (Hsame (pause_game t) Hstate Hstep). unfold pause_game. lia.
    + cbn in Hstep. injection Hstep as <-. cbn [fig_pos with_state]. lia.
    + assert (Hm : state (moveleft t) = MOVING).
      { unfold moveleft. destruct (check_collide (decr_x t)); exact Hstate. }
      rewrite (Hsame (moveleft t) Hm Hstep).
      rewrite moveleft_cases by (assumption || lia).
      destruct (check_collide (at_x _ t)); cbn [at_x fig_pos with_fig_pos pos_x pos_y with_x]; lia.
    + assert (Hm : state (moveright t) = MOVING).
      { unfold moveright. destruct (check_collide (incr_x t)); exact Hstate. }
      rewrite (Hsame (moveright t) Hm Hstep).
      rewrite moveright_cases by (assumption || lia).
      destruct (check_collide (at_x _ t)); cbn [at_x fig_pos with_fig_pos pos_x pos_y with_x]; lia.
    + rewrite (Hsame (moveup t) Hstate Hstep). unfold moveup. lia.
    + unfold movedown in Hstep.
      destruct (movedown_loop fuel t) as [t1 |] eqn:Hloop; [| discriminate].
      destruct (movedown_loop_frame _ _ _ Hloop) as (_ & _ & Hs1 & _ & Hx1).
      destruct (movedown_loop_falls _ _ _ i j Hi Hj Hset Hy Hloop) as (_ & Hr1 & Hlt).
      specialize (Hlt Hfree).
      assert (Hms : state (decr_y t1) = MOVING)
        by (rewrite <- Hstate, <- Hs1; reflexivity).
      rewrite (Hsame (decr_y t1) Hms Hstep).
      rewrite decr_y_at_y by (unfold in_range, INT_MIN, INT_MAX in *; lia).
      cbn [at_y fig_pos with_fig_pos pos_x pos_y with_y]. rewrite Hx1.
      split; [lia |]. split; [lia |]. intros Hno. exfalso. apply Hno.
      split; reflexivity.
    + assert (Hm : state (rotate_action t) = MOVING
                   /\ fig_pos (rotate_action t) = fig_pos t).
      { unfold rotate_action. destruct (check_collide (with_figure _ t)); split;
          first [exact Hstate | reflexivity]. }
      destruct Hm as [Hm Hp]. rewrite (Hsame (rotate_action t) Hm Hstep), Hp. lia.
    + rewrite (Hsame t Hstate Hstep). lia.
  - (* SHIFTING *)
    injection Hstep as <-. rewrite on_shifting_state_cases by exact Hy.
    rewrite incr_y_at_y by (unfold in_range, INT_MIN, INT_MAX in *; lia).
    destruct (check_collide (at_y _ t));
      cbn [at_y fig_pos with_fig_pos with_state pos_x pos_y with_y]; lia.
  - (* ATTACHING *)
    injection Hstep as <-.
    destruct (on_attaching_state_frame t) as (_ & _ & _ & _ & -> & _). lia.
Qed.

Lemma figure_only_falls_witness :
  exists t' : Tetris,
    userInput 30 0 Down square_over_ledge = Some t'
    /\ pos_y (fig_pos square_over_ledge) <= pos_y (fig_pos t').
Proof.
  eexists. split; [vm_compute; reflexivity |].
  assert (Hset : has_set_cell (figure square_over_ledge)).
  { exists 1%nat, 1%nat. repeat split; unfold SIDE_OF_FIGURE_SQUARE; lia. }
  assert (Hx : in_range (pos_x (fig_pos square_over_ledge)))
    by (vm_compute; split; discriminate).
  assert (Hy : in_range (pos_y (fig_pos square_over_ledge)))
    by (vm_compute; split; discriminate).
  destruct (figure_only_falls 30 0 Down square_over_ledge _ eq_refl Hset Hx Hy
              eq_refl ltac:(vm_compute; reflexivity)) as (Hle & _).
  exact Hle.
Defined.

(** ** The rows that an attachment completes *)

(** A store in another row leaves a row as it is. *)
Lemma store_other_row (f : Matrix) y x v (r : nat) :
  y <> Z.of_nat r -> store f y x v !! r = f !! r.
Proof.
  intros Hne. unfold store. destruct ((0 <=? y) && (0 <=? x)) eqn:Hpos; [| reflexivity].
  apply andb_true_iff in Hpos as [Hy _]. apply Z.leb_le in Hy.
  unfold set_cell. apply list_lookup_alter_ne. lia.
Qed.

Lemma fold_store_other_row (ws : list (Z * Z)) (r : nat) : forall f : Matrix,
  Forall (fun yx => fst yx <> Z.of_nat r) ws ->
  fold_left (fun f yx => store f (fst yx) (snd yx) 1) ws f !! r = f !! r.
Proof.
  induction ws as [| yx ws IH]; intros f Hws; [reflexivity |].
  apply Forall_cons in Hws as [Hyx Hws]. cbn [fold_left].
  rewrite IH by exact Hws. now apply store_other_row.
Qed.

(** [attach_figure_to_field] leaves the rows that are not under the 4x4 box
    of the figure as they are. *)
Lemma attach_other_row t (r : nat) :
  binary (figure t) -> in_range (pos_y (fig_pos t)) ->
  check_collide t = false ->
  ~ pos_y (fig_pos t) <= Z.of_nat r < pos_y (fig_pos t) + 4 ->
  field (game (attach_figure_to_field t)) !! r = field (game t) !! r.
Proof.
  intros Hb Hy Hfree Hout. rewrite attach_figure_to_field_writes.
  apply fold_store_other_row.
  pose proof (attach_writes_in_field t Hb Hfree) as Hin.
  rewrite Forall_forall in Hin. apply Forall_forall. intros yx Hyx.
  specialize (Hin yx Hyx). destruct Hin as [Hrow _].
  apply elem_of_attach_writes in Hyx as (i & j & Hi & _ & _ & ->).
  cbn [fst] in *.
  destruct (int_add_offset _ i Hy Hi) as [He | [Hneg _]]; [| lia].
  rewrite He. unfold SIDE_OF_FIGURE_SQUARE in Hi. lia.
Qed.

(** At most four elements of a list satisfy a predicate that holds only at
    indices of a window of four. *)
Lemma filter_window {A} (P : A -> Prop) `{forall x, Decision (P x)} (a : Z)
    (l : list A) : forall k : nat,
  (forall (r : nat) (x : A),
      l !! r = Some x -> P x -> a <= Z.of_nat (k + r) < a + 4) ->
  Z.of_nat (length (filter P l)) <= Z.max 0 (Z.min 4 (a + 4 - Z.of_nat k)).
Proof.
  induction l as [| x l IH]; intros k Hwin; [cbn; lia |].
  assert (Hrest : forall (r : nat) (y : A),
             l !! r = Some y -> P y -> a <= Z.of_nat (S k + r) < a + 4).
  { intros r y Hr Hy. specialize (Hwin (S r) y Hr Hy). lia. }
  specialize (IH (S k) Hrest). rewrite filter_cons.
  destruct (decide (P x)) as [Hx | Hx].
  - specialize (Hwin 0%nat x eq_refl Hx). cbn [length]. lia.
  - lia.
Qed.

(** The rows that [destruction_of_rows] finds complete after an attachment
    on a field without complete row. *)
Lemma attach_then_destruction t :
  binary (figure t) -> field_dims (field (game t)) ->
  Forall (fun row => ~ complete_row row) (field (game t)) ->
  in_range (pos_y (fig_pos t)) -> check_collide t = false ->
  0 <= fst (destruction_loop (field (game (attach_figure_to_field t)))) <= 4
  /\ Forall (fun row => ~ complete_row row)
       (snd (destruction_loop (field (game (attach_figure_to_field t))))).
Proof.
  intros Hfig Hfield Hnone Hy Hfree.
  assert (Hdims : field_dims (field (game (attach_figure_to_field t)))).
  { rewrite attach_figure_to_field_writes. now apply fold_store_field_dims. }
  assert (Hwin : forall (k : nat) (row : list Z),
             field (game (attach_figure_to_field t)) !! k = Some row ->
             complete_row row ->
             pos_y (fig_pos t) <= Z.of_nat (0 + k) < pos_y (fig_pos t) + 4).
  { intros k row Hk Hc.
    destruct (Z_le_gt_dec (pos_y (fig_pos t)) (Z.of_nat k)) as [Hle | Hgt];
      [destruct (Z_lt_ge_dec (Z.of_nat k) (pos_y (fig_pos t) + 4)) as [Hlt | Hge] |].
    - cbn. lia.
    - exfalso. rewrite attach_other_row in Hk by (assumption || lia).
      rewrite Forall_forall in Hnone. apply (Hnone row); [| exact Hc].
      now apply list_elem_of_lookup_2 in Hk.
    - exfalso. rewrite attach_other_row in Hk by (assumption || lia).
      rewrite Forall_forall in Hnone. apply (Hnone row); [| exact Hc].
      now apply list_elem_of_lookup_2 in Hk. }
  set (fa := field (game (attach_figure_to_field t))) in *. clearbody fa.
  destruct (destruction_loop_ok _ Hdims) as (_ & _ & Hnone' & _).
  pose proof (filter_window complete_row (pos_y (fig_pos t)) fa 0%nat Hwin) as Hfour.
  split; [| exact Hnone'].
  rewrite (destruction_loop_collapse _ Hdims). cbn [fst]. lia.
Qed.

(** The game data after the step of state ATTACHING, on the loop of
    [destruction_of_rows]. *)
Lemma on_attaching_state_game t :
  state t = ATTACHING ->
  let l := destruction_loop (field (game (attach_figure_to_field t))) in
  field (game (on_attaching_state t)) = snd l
  /\ (0 <= fst l <= 4 -> 0 <= score (game t) < 6000 ->
      score (game (on_attaching_state t)) = score (game t) + score_bonus (fst l)).
Proof.
  intros Hstate l.
  destruct (on_attaching_state_state t Hstate) as [Hg _]. cbv zeta in Hg.
  rewrite Hg. clear Hg.
  destruct (attach_figure_to_field_shape t) as [f1 Hf1].
  assert (Hrows : destruction_of_rows (attach_figure_to_field t)
                  = (fst l, with_game (with_field (snd l)
                                         (game (attach_figure_to_field t)))
                              (attach_figure_to_field t))) by reflexivity.
  rewrite Hrows. cbn [fst snd]. clearbody l. rewrite Hf1.
  set (ts := with_game
               (with_field (snd l) (game (with_game (with_field f1 (game t)) t)))
               (with_game (with_field f1 (game t)) t)).
  assert (Hts : score (game ts) = score (game t) /\ field (game ts) = snd l)
    by (split; reflexivity).
  destruct Hts as [Hs1 Hf]. clearbody ts.
  destruct (recalculate_stats_keeps (fst l) ts) as (Hfk & _). cbv zeta in Hfk.
  split; [now rewrite Hfk |]. intros Hn Hscore.
  destruct (Z.eq_dec (fst l) 0) as [Hz | Hnz].
  - rewrite Hz, recalculate_stats_zero, Hs1. unfold score_bonus. cbn. lia.
  - rewrite recalculate_stats_rows
      by (rewrite ?Hs1; unfold in_range, INT_MIN, INT_MAX; lia).
    cbn [score with_score with_level with_speed]. now rewrite Hs1.
Qed.

(** X23. An attachment completes at most four rows. On a 20x10 field without
    a complete row, after a figure of cells 0 or 1 that does not collide is
    attached, only rows under the 4x4 box of the figure can be complete, so
    [destruction_of_rows] returns a number between 0 and 4 and leaves no
    complete row; the step of state ATTACHING then adds to a score under
    6000 the entry for that number of the table 0, 100, 300, 700, 1500. *)
Theorem attachment_completes_at_most_four (fuel : nat) (random : Z)
    (action : UserAction_t) (t : Tetris)
    (Hstate : state t = ATTACHING)
    (Hfig : binary (figure t))
    (Hfield : field_dims (field (game t)))
    (Hnone : Forall (fun row => ~ complete_row row) (field (game t)))
    (Hy : in_range (pos_y (fig_pos t)))
    (Hfree : check_collide t = false)
    (Hscore : 0 <= score (game t) < 6000) :
  let r := destruction_of_rows (attach_figure_to_field t) in
  0 <= fst r <= 4
  /\ Forall (fun row => ~ complete_row row) (field (game (snd r)))
  /\ exists t' : Tetris,
       userInput fuel random action t = Some t'
       /\ field (game t') = field (game (snd r))
       /\ score (game t') = score (game t) + score_bonus (fst r).
Proof.
  intros r.
  destruct (attach_then_destruction t Hfig Hfield Hnone Hy Hfree) as [Hn Hnone'].
  destruct (on_attaching_state_game t Hstate) as [Hf Hs]. cbv zeta in Hf, Hs.
  unfold r, destruction_of_rows.
  set (l := destruction_loop (field (game (attach_figure_to_field t)))) in *.
  clearbody l. cbn [fst snd game field with_game with_field].
  split; [exact Hn |]. split; [exact Hnone' |].
  exists (on_attaching_state t). split; [unfold userInput; now rewrite Hstate |].
  split; [exact Hf | exact (Hs Hn Hscore)].
Qed.

Lemma attachment_completes_at_most_four_witness :
  exists t' : Tetris,
    userInput 0 0 No_signal bar_completes_bottom = Some t'
    /\ score (game t') = 100.
Proof.
  assert (Hfig : binary (figure bar_completes_bottom)) by check_binary.
  assert (Hfield : field_dims (field (game bar_completes_bottom))) by check_dims.
  assert (Hnone : Forall (fun row => ~ complete_row row)
                    (field (game bar_completes_bottom))).
  { apply (bool_decide_unpack _). vm_compute. reflexivity. }
  assert (Hy : in_range (pos_y (fig_pos bar_completes_bottom)))
    by (vm_compute; split; discriminate).
  assert (Hscore : 0 <= score (game bar_completes_bottom) < 6000)
    by (vm_compute; split; [discriminate | reflexivity]).
  destruct (attachment_completes_at_most_four 0 0 No_signal bar_completes_bottom
              eq_refl Hfig Hfield Hnone Hy eq_refl Hscore)
    as (_ & _ & t' & Hstep & _ & Hs).
  exists t'. split; [exact Hstep |]. rewrite Hs. vm_compute. reflexivity.
Defined.

(** Outside ATTACHING a step leaves the field as it is. *)
Lemma userInput_field fuel random action t t' :
  userInput fuel random action t = Some t' ->
  state t <> ATTACHING -> field (game t') = field (game t).
Proof.
  intros Hstep Hne. unfold userInput in Hstep.
  destruct (state t) eqn:Hstate; try contradiction.
  - injection Hstep as <-. unfold on_start_state. destruct action; reflexivity.
  - injection Hstep as <-.
    destruct (on_spawn_state_frame random t) as [Hg _].
    destruct (game (on_spawn_state random t)). rewrite <- Hg. reflexivity.
  - destruct (on_moving_state_frame _ _ _ _ Hstep) as [-> _]. reflexivity.
  - injection Hstep as <-. unfold on_shifting_state.
    destruct (check_collide (incr_y t)); reflexivity.
  - injection Hstep as <-. reflexivity.
  - injection Hstep as <-. reflexivity.
Qed.

Lemma userInput_no_complete_row fuel random action t t' :
  engine_ok t ->
  Forall (fun row => ~ complete_row row) (field (game t)) ->
  userInput fuel random action t = Some t' ->
  Forall (fun row => ~ complete_row row) (field (game t')).
Proof.
  intros (Hfield & _) Hnone Hstep.
  assert (Hcases : state t = ATTACHING \/ state t <> ATTACHING).
  { destruct (state t); (now left) || (right; discriminate). }
  destruct Hcases as [Hstate | Hne].
  - unfold userInput in Hstep. rewrite Hstate in Hstep. injection Hstep as <-.
    destruct (on_attaching_state_game t Hstate) as [-> _].
    apply destruction_loop_ok.
    rewrite attach_figure_to_field_writes. apply fold_store_field_dims, Hfield.
  - rewrite (userInput_field _ _ _ _ _ Hstep Hne). exact Hnone.
Qed.

Lemma run_no_complete_row steps : forall t t',
  engine_ok t ->
  Forall (fun row => ~ complete_row row) (field (game t)) ->
  run steps t = Some t' ->
  Forall (fun row => ~ complete_row row) (field (game t')).
Proof.
  induction steps as [| [[fuel random] action] steps IH]; intros t t' Hok Hnone Hrun.
  - injection Hrun as <-. exact Hnone.
  - cbn [run] in Hrun.
    destruct (userInput fuel random action t) as [t1 |] eqn:Hstep; [| discriminate].
    apply (IH t1 t'); [| | exact Hrun].
    + exact (userInput_engine_ok _ _ _ _ _ Hok Hstep).
    + exact (userInput_no_complete_row _ _ _ _ _ Hok Hnone Hstep).
Qed.

Lemma fresh_session_no_complete_row r :
  Forall (fun row => ~ complete_row row) (field (game (fresh_session r))).
Proof.
  change (field (game (fresh_session r))) with (replicate ROWS_MAP zero_row).
  apply Forall_replicate, zero_row_not_complete.
Qed.

(** The number that [destruction_of_rows] returns is the count of its
    loop. *)
Lemma destruction_of_rows_count t :
  let r := destruction_of_rows t in
  fst r = fst (destruction_loop (field (game t))).
Proof.
  intros r. unfold r, destruction_of_rows.
  set (l := destruction_loop (field (game t))) in *. clearbody l.
  cbn [fst]. reflexivity.
Qed.

Lemma attaching_rows_bound t :
  engine_ok t -> state t = ATTACHING ->
  Forall (fun row => ~ complete_row row) (field (game t)) ->
  0 <= fst (destruction_of_rows (attach_figure_to_field t)) <= 4.
Proof.
  intros (Hfield & _ & Hplay) Hstate Hnone. rewrite Hstate in Hplay.
  destruct (Hplay eq_refl) as ([_ Hb] & _ & Hy & Hfree).
  destruct (attach_then_destruction t Hb (proj1 Hfield) Hnone Hy Hfree) as [Hn _].
  pose proof (destruction_of_rows_count (attach_figure_to_field t)) as Hcount.
  cbv zeta in Hcount. rewrite Hcount. exact Hn.
Qed.

(** X24. No complete row is ever left in the field: the field of a new game
    has none, and at every state that steps of the controller reach from a
    well formed state whose field has none, the field has none. So whenever
    such a state is ATTACHING, the attachment completes between 0 and 4
    rows. *)
Theorem no_complete_row_reachable (steps : list (nat * Z * UserAction_t))
    (t t' : Tetris)
    (Hok : engine_ok t)
    (Hnone : Forall (fun row => ~ complete_row row) (field (game t)))
    (Hrun : run steps t = Some t') :
  (forall r : RecordNote,
      Forall (fun row => ~ complete_row row) (field (game (fresh_session r))))
  /\ Forall (fun row => ~ complete_row row) (field (game t'))
  /\ (state t' = ATTACHING ->
      0 <= fst (destruction_of_rows (attach_figure_to_field t')) <= 4).
Proof.
  pose proof (run_no_complete_row steps t t' Hok Hnone Hrun) as Hnone'.
  pose proof (run_engine_ok steps t t' Hok Hrun) as Hok'.
  split; [exact fresh_session_no_complete_row |]. split; [exact Hnone' |].
  intros Hstate. exact (attaching_rows_bound t' Hok' Hstate Hnone').
Qed.

Lemma no_complete_row_reachable_witness :
  exists t' : Tetris,
    run [(0%nat, 5, Start); (0%nat, 9, No_signal); (30%nat, 0, Down);
         (0%nat, 0, No_signal); (0%nat, 0, No_signal)] (fresh_session no_note)
    = Some t'
    /\ Forall (fun row => ~ complete_row row) (field (game t')).
Proof.
  eexists. split; [vm_compute; reflexivity |].
  apply (no_complete_row_reachable
           [(0%nat, 5, Start); (0%nat, 9, No_signal); (30%nat, 0, Down);
            (0%nat, 0, No_signal); (0%nat, 0, No_signal)]
           (fresh_session no_note)).
  - apply fresh_session_engine_ok.
  - apply fresh_session_no_complete_row.
  - vm_compute. reflexivity.
Defined.

(** ** The figure in play stays next to the field *)

Lemma rotate_figure_has_set_cell fig :
  has_set_cell fig -> has_set_cell (rotate_figure fig).
Proof.
  unfold has_set_cell, SIDE_OF_FIGURE_SQUARE.
  intros (a & b & Ha & Hb & Hset).
  exists (3 - b)%nat, a. split; [lia |]. split; [exact Ha |].
  rewrite rotate_figure_cell by (unfold SIDE_OF_FIGURE_SQUARE; lia).
  replace (3 - (3 - b))%nat with b by lia. exact Hset.
Qed.

Lemma figures_choice_has_set_cell n :
  (n < NUMBER_OF_FIGURES)%nat -> has_set_cell (figures_choice n).
Proof.
  unfold NUMBER_OF_FIGURES, has_set_cell, SIDE_OF_FIGURE_SQUARE. intros Hn.
  destruct n as [| [| [| [| [| [| [| n]]]]]]]; try lia.
  - exists 1%nat, 0%nat. split; [lia |]. split; [lia | reflexivity].
  - exists 1%nat, 1%nat. split; [lia |]. split; [lia | reflexivity].
  - exists 1%nat, 0%nat. split; [lia |]. split; [lia | reflexivity].
  - exists 1%nat, 2%nat. split; [lia |]. split; [lia | reflexivity].
  - exists 1%nat, 0%nat. split; [lia |]. split; [lia | reflexivity].
  - exists 1%nat, 1%nat. split; [lia |]. split; [lia | reflexivity].
  - exists 1%nat, 1%nat. split; [lia |]. split; [lia | reflexivity].
Qed.

(** The number of the shape that [assign_next_figure] picks is one of the
    seven, whatever number it is given. *)
Lemma figure_number_bound random :
  (Z.to_nat (int_rem random (Z.of_nat NUMBER_OF_FIGURES)) < NUMBER_OF_FIGURES)%nat.
Proof.
  unfold int_rem, NUMBER_OF_FIGURES. change (Z.of_nat 7) with 7.
  assert (Hb : -7 < Z.rem random 7 < 7).
  { destruct (Z_le_gt_dec 0 random) as [Hpos | Hneg].
    - pose proof (Z.rem_bound_pos random 7 Hpos ltac:(lia)). lia.
    - pose proof (Z.rem_bound_pos_neg random 7 ltac:(lia) ltac:(lia)). lia. }
  rewrite wrap_in_range by (unfold in_range, INT_MIN, INT_MAX; lia). lia.
Qed.

Lemma assign_next_figure_has_set_cell random t :
  has_set_cell (next (game (assign_next_figure random t))).
Proof.
  unfold assign_next_figure. cbn [game next with_game with_next].
  apply for_up_inv.
  - apply figures_choice_has_set_cell, figure_number_bound.
  - intros _ m _ Hm. now apply rotate_figure_has_set_cell.
Qed.

(** What a step in state MOVING does to the figure. *)
Lemma on_moving_state_figure fuel action t t' :
  figure_dims (figure t) ->
  on_moving_state fuel action t = Some t' ->
  figure t' = figure t \/ figure t' = rotate_figure (figure t).
Proof.
  intros Hd Hstep. unfold on_moving_state in Hstep.
  assert (Hgen : forall m,
            (if negb (TetrisState_eqb (state m) GAMEOVER)
                && negb (TetrisState_eqb (state m) EXIT_ERROR)
             then Some (with_state SHIFTING m) else Some m) = Some t' ->
            figure t' = figure m).
  { intros m Heq. destruct (_ && _); injection Heq as <-; reflexivity. }
  destruct action.
  - left. exact (Hgen t Hstep).
  - left. exact (Hgen (pause_game t) Hstep).
  - left. exact (Hgen (with_state GAMEOVER t) Hstep).
  - left. rewrite (Hgen (moveleft t) Hstep). unfold moveleft.
    destruct (check_collide (decr_x t)); reflexivity.
  - left. rewrite (Hgen (moveright t) Hstep). unfold moveright.
    destruct (check_collide (incr_x t)); reflexivity.
  - left. exact (Hgen (moveup t) Hstep).
  - left. unfold movedown in Hstep.
    destruct (movedown_loop fuel t) as [t1 |] eqn:Hloop; [| discriminate].
    destruct (movedown_loop_frame _ _ _ Hloop) as (_ & Hf & _).
    rewrite (Hgen (decr_y t1) Hstep). exact Hf.
  - rewrite (Hgen (rotate_action t) Hstep), (rotate_action_cases t Hd).
    destruct (check_collide (with_figure (rotate_figure (figure t)) t));
      [left | right]; reflexivity.
  - left. exact (Hgen t Hstep).
Qed.

(** One step of the controller keeps [session_ok]. *)
Lemma userInput_session_ok fuel random action t t' :
  session_ok t -> userInput fuel random action t = Some t' -> session_ok t'.
Proof.
  intros (Hok & Hnext & Hfig) Hstep.
  pose proof (userInput_engine_ok _ _ _ _ _ Hok Hstep) as Hok'.
  split; [exact Hok' |].
  destruct Hok as (_ & [Hnd _] & Hplay).
  unfold userInput in Hstep.
  destruct (state t) eqn:Hstate.
  - (* START *)
    injection Hstep as <-. unfold on_start_state.
    destruct action; cbn [state game figure with_state in_play];
      (split; [| discriminate]);
      try (intros [Hs | Hs]; discriminate Hs).
    intros _. apply assign_next_figure_has_set_cell.
  - (* SPAWN *)
    injection Hstep as <-.
    destruct (high_score_update_field t) as (_ & Hn & _).
    specialize (Hnext (or_introl eq_refl)).
    unfold on_spawn_state. destruct (_ =? NO_ERROR).
    + cbv zeta.
      set (t1 := assign_next_figure random
                   (copy_next_figure_to_figure (snd (high_score_update t)))).
      assert (H1 : has_set_cell (next (game t1)) /\ has_set_cell (figure t1)).
      { split; [apply assign_next_figure_has_set_cell |].
        unfold t1, assign_next_figure, copy_next_figure_to_figure.
        cbn [figure with_game with_figure]. rewrite Hn.
        rewrite (tabulate_cell _ Hnd). exact Hnext. }
      destruct H1 as [H1n H1f].
      destruct (init_figure_position_range t1) as (Hg & Hf & _).
      cbv zeta in Hg, Hf. clearbody t1.
      set (t2 := init_figure_position t1) in *. clearbody t2.
      cbn [state game figure with_state]. rewrite Hg, Hf.
      split; intros _; assumption.
    + cbn [state with_state in_play].
      split; [intros [Hs | Hs]; discriminate Hs | discriminate].
  - (* MOVING *)
    destruct (Hplay eq_refl) as ([Hd _] & _).
    destruct (on_moving_state_frame _ _ _ _ Hstep) as [Hg _].
    destruct (on_moving_state_figure _ _ _ _ Hd Hstep) as [Hf | Hf];
      rewrite Hg, Hf; split; intros _;
      first [ apply Hnext; now right
            | apply rotate_figure_has_set_cell, Hfig; reflexivity
            | apply Hfig; reflexivity ].
  - (* SHIFTING *)
    injection Hstep as <-.
    assert (Hs : game (on_shifting_state t) = game t
                 /\ figure (on_shifting_state t) = figure t).
    { unfold on_shifting_state. destruct (check_collide (incr_y t)); split; reflexivity. }
    destruct Hs as [-> ->].
    split; intros _; [apply Hnext; now right | apply Hfig; reflexivity].
  - (* ATTACHING *)
    injection Hstep as <-.
    destruct (on_attaching_state_frame t) as (-> & _ & _ & -> & _).
    split; intros _; [apply Hnext; now right | apply Hfig; reflexivity].
  - (* GAMEOVER *)
    injection Hstep as <-. unfold on_gameover_state. rewrite Hstate.
    split; [intros [Hs | Hs]; discriminate Hs | discriminate].
  - (* EXIT_ERROR *)
    injection Hstep as <-. unfold on_exit_error_state. rewrite Hstate.
    split; [intros [Hs | Hs]; discriminate Hs | discriminate].
Qed.

Lemma run_session_ok steps : forall t t',
  session_ok t -> run steps t = Some t' -> session_ok t'.
Proof.
  induction steps as [| [[fuel random] action] steps IH]; intros t t' Hok Hrun.
  - injection Hrun as <-. exact Hok.
  - cbn [run] in Hrun.
    destruct (userInput fuel random action t) as [t1 |] eqn:Hstep; [| discriminate].
    exact (IH t1 t' (userInput_session_ok _ _ _ _ _ Hok Hstep) Hrun).
Qed.

Lemma fresh_session_session_ok r : session_ok (fresh_session r).
Proof.
  split; [apply fresh_session_engine_ok |].
  split; [intros [Hs | Hs]; discriminate Hs | discriminate].
Qed.

(** X25. The figure in play is never empty and stays next to the field. In a
    new game, and at every state that steps of the controller reach from
    there (or from any well formed state whose figures have a set cell),
    whatever the keys and the numbers drawn: the next figure, once drawn, and
    the figure in play have a set cell, and in MOVING, SHIFTING and ATTACHING
    the x offset is between -3 and 9 and the y offset between -3 and 19. So
    the increments and decrements of the offsets, and the sums of
    [check_collide] and [attach_figure_to_field], never overflow an [int]. *)
Theorem session_ok_reachable (steps : list (nat * Z * UserAction_t))
    (t t' : Tetris)
    (Hok : session_ok t)
    (Hrun : run steps t = Some t') :
  (forall r : RecordNote, session_ok (fresh_session r))
  /\ session_ok t'
  /\ (in_play (state t') = true ->
      has_set_cell (figure t')
      /\ -3 <= pos_x (fig_pos t') <= 9
      /\ -3 <= pos_y (fig_pos t') <= 19).
Proof.
  split; [exact fresh_session_session_ok |].
  pose proof (run_session_ok steps t t' Hok Hrun) as Hok'.
  split; [exact Hok' |]. intros Hplay.
  destruct Hok' as ((_ & _ & Hfree) & _ & Hfig).
  destruct (Hfree Hplay) as (_ & Hx & Hy & Hc).
  specialize (Hfig Hplay). split; [exact Hfig |].
  destruct Hfig as (i & j & Hi & Hj & Hset).
  destruct (free_set_cell_in_field t' i j Hi Hj Hset Hx Hy Hc) as [Hrow Hcol].
  unfold SIDE_OF_FIGURE_SQUARE, ROWS_MAP, COLS_MAP in *. lia.
Qed.

Lemma session_ok_reachable_witness :
  exists t' : Tetris,
    run [(0%nat, 5, Start); (0%nat, 9, No_signal); (30%nat, 0, Down);
         (0%nat, 0, No_signal)] (fresh_session no_note) = Some t'
    /\ state t' = ATTACHING
    /\ -3 <= pos_y (fig_pos t') <= 19.
Proof.
  eexists. split; [vm_compute; reflexivity |]. split; [reflexivity |].
  destruct (session_ok_reachable
              [(0%nat, 5, Start); (0%nat, 9, No_signal); (30%nat, 0, Down);
               (0%nat, 0, No_signal)] (fresh_session no_note) _
              (fresh_session_session_ok no_note) ltac:(vm_compute; reflexivity))
    as (_ & _ & Hb).
  destruct (Hb eq_refl) as (_ & _ & Hy). exact Hy.
Defined.
